(** * gogo/zip: archive, unarchive and download helpers

    A shallow embedding of package [zip] of the gogo utilities
    (functions [Download], [Archive], [createArchive] and [Unarchive]) over
    an executable model of the parts of the Go runtime they call:
    [strings], [path/filepath], [os], [archive/zip], [net/url] and
    [net/http].  The host is a Unix system ([filepath.Separator] is a
    forward slash), without symbolic links, with one unprivileged user who
    owns every file. *)

From Stdlib Require Import NArith Ascii String List Lia.
From stdpp Require Import base option list sorting gmap strings.

Local Open Scope string_scope.
Local Open Scope N_scope.
Local Open Scope list_scope.

(** ** Package [strings] *)

Module strings.

(** [stripPrefix prefix s] is [Some (s[len(prefix):])] when [s] starts
    with [prefix]. *)
Fixpoint stripPrefix (prefix s : string) : option string :=
  match prefix, s with
  | EmptyString, _ => Some s
  | String c p, String d r => if Ascii.eqb c d then stripPrefix p r else None
  | String _ _, EmptyString => None
  end.

Definition HasPrefix (s prefix : string) : bool :=
  match stripPrefix prefix s with Some _ => true | None => false end.

Definition TrimPrefix (s prefix : string) : string :=
  match stripPrefix prefix s with Some r => r | None => s end.

(** [s] ends with [suffix]: [suffix] is [s] or ends the rest of [s]. *)
Fixpoint HasSuffix (s suffix : string) : bool :=
  String.eqb s suffix
  || match s with
     | EmptyString => false
     | String _ r => HasSuffix r suffix
     end.

(** [Split s sep] for a one-byte separator. *)
Fixpoint Split (s : string) (sep : ascii) : list string :=
  match s with
  | EmptyString => [EmptyString]
  | String c r =>
      if Ascii.eqb c sep then EmptyString :: Split r sep
      else match Split r sep with
           | e :: es => String c e :: es
           | [] => [String c EmptyString]
           end
  end.

Definition Join (elems : list string) (sep : string) : string :=
  String.concat sep elems.

Fixpoint ReplaceAll (s : string) (old : ascii) (new : ascii) : string :=
  match s with
  | EmptyString => EmptyString
  | String c r =>
      String (if Ascii.eqb c old then new else c) (ReplaceAll r old new)
  end.

Fixpoint ContainsByte (s : string) (b : ascii) : bool :=
  match s with
  | EmptyString => false
  | String c r => Ascii.eqb c b || ContainsByte r b
  end.

End strings.

(** ** Package [path/filepath] (Unix) *)

Module filepath.

Definition Separator : ascii := "/"%char.

Definition IsPathSeparator (c : ascii) : bool := Ascii.eqb c Separator.

Definition rooted (path : string) : bool :=
  match path with
  | String c _ => IsPathSeparator c
  | EmptyString => false
  end.

(** The loop of [Clean], one path element at a time.  [out] is the
    output buffer, last element first.  An element [..] backtracks over
    the last real element when there is one ([out.w > dotdot]); otherwise
    it is dropped in a rooted path and appended in a relative one. *)
Fixpoint cleanElems (isRooted : bool) (out : list string)
         (elems : list string) : list string :=
  match elems with
  | [] => out
  | e :: rest =>
      if String.eqb e "" then cleanElems isRooted out rest
      else if String.eqb e "." then cleanElems isRooted out rest
      else if String.eqb e ".." then
        match out with
        | top :: out' =>
            if String.eqb top ".."
            then cleanElems isRooted (e :: out) rest
            else cleanElems isRooted out' rest
        | [] =>
            if isRooted then cleanElems isRooted out rest
            else cleanElems isRooted (e :: out) rest
        end
      else cleanElems isRooted (e :: out) rest
  end.

Definition Clean (path : string) : string :=
  if String.eqb path "" then "."
  else
    let out := rev (cleanElems (rooted path) [] (strings.Split path Separator)) in
    if rooted path then "/" +:+ strings.Join out "/"
    else match out with
         | [] => "."
         | _ => strings.Join out "/"
         end.

(** [Join]: leading empty elements are dropped, the rest is joined with
    the separator and cleaned; all elements empty gives the empty
    string. *)
Fixpoint Join (elem : list string) : string :=
  match elem with
  | [] => ""
  | e :: rest =>
      if String.eqb e "" then Join rest
      else Clean (strings.Join elem "/")
  end.

Definition ToSlash (path : string) : string :=
  if Ascii.eqb Separator "/" then path
  else strings.ReplaceAll path Separator "/".

Fixpoint trimTrailingSeparators (path : string) : string :=
  match path with
  | EmptyString => EmptyString
  | String c r =>
      match trimTrailingSeparators r with
      | EmptyString =>
          if IsPathSeparator c then EmptyString else String c EmptyString
      | r' => String c r'
      end
  end.

(** [path[i+1:]] for [i] the index of the last separator. *)
Definition lastElement (path : string) : string :=
  default "" (last (strings.Split path Separator)).

Definition Base (path : string) : string :=
  if String.eqb path "" then "."
  else
    let path := lastElement (trimTrailingSeparators path) in
    if String.eqb path "" then "/" else path.

(** [path[:i+1]] for [i] the index of the last separator. *)
Fixpoint dirPrefix (path : string) : string :=
  match path with
  | EmptyString => EmptyString
  | String c r =>
      match dirPrefix r with
      | EmptyString =>
          if IsPathSeparator c then String c EmptyString else EmptyString
      | r' => String c r'
      end
  end.

Definition Dir (path : string) : string := Clean (dirPrefix path).

End filepath.


(** ** Go values shared by the packages below *)

Inductive Errno : Type := ENOENT | ENOTDIR | EISDIR | EACCES | EEXIST.

(** What a [*url.Error] of [net/url] wraps.  The last is
    [fmt.Errorf("invalid port %q after host", colonPort)]. *)
Inductive urlCause : Type :=
| urlErrorString (msg : string)               (* errors.New *)
| EscapeError (s : string)                    (* url.EscapeError *)
| InvalidHostError (s : string)               (* url.InvalidHostError *)
| invalidPort (colonPort : string).

(** Go [error] values; a nil error is [None] of [option error].  The
    errors of the HTTP client come inside a [*url.Error] of their own,
    whose operation is [Get] and whose URL is the request URL printed
    without its password; that wrapping is not spelled out. *)
Inductive error : Type :=
| errorString (msg : string)                  (* errors.New, fmt.Errorf *)
| PathError (op path : string) (errno : Errno)  (* *fs.PathError *)
| urlError (op url : string) (err : urlCause)  (* *url.Error *)
| unsupportedProtocolScheme (scheme : string) (* the transport of net/http *)
| noHost                                      (* http: no Host in request URL *)
| netError (url : string)                     (* a failed transfer *)
| ErrFormat                                   (* zip.ErrFormat *)
| ErrAlgorithm                                (* zip.ErrAlgorithm *)
| errWriteToDirectory                         (* zip: write to directory *)
| errTooDeep                                  (* see [filepathWalk.Walk] *)
| SkipDir.                                    (* filepath.SkipDir *)

(** The bytes of a file.  The byte encoding of the zip format is the work
    of [archive/zip] and is not spelled out: a file that holds a
    well-formed container is [Zip] with its entries in order, any other
    file is [Bytes]. *)
Inductive content : Type :=
| Bytes (b : string)
| Zip (File : list FileHeader)
with FileHeader : Type :=
| mkFileHeader (Name : string) (Mode : N) (Method : N) (data : content).

Definition Name (h : FileHeader) : string :=
  match h with mkFileHeader n _ _ _ => n end.
Definition headerMode (h : FileHeader) : N :=
  match h with mkFileHeader _ m _ _ => m end.
Definition Method (h : FileHeader) : N :=
  match h with mkFileHeader _ _ m _ => m end.
Definition data (h : FileHeader) : content :=
  match h with mkFileHeader _ _ _ d => d end.

Definition isEmpty (c : content) : bool :=
  match c with Bytes EmptyString => true | _ => false end.

(** [fs.FileMode]: the permission bits and the directory bit. *)
Definition ModeDir : N := 2 ^ 31.
Definition ModePerm : N := 0x1ff.        (* 0777 *)
Definition Perm (m : N) : N := N.land m ModePerm.
Definition modeIsDir (m : N) : bool := N.testbit m 31.

Record FileInfo : Type := mkFileInfo { fiName : string; fiMode : N }.

Definition IsDir (fi : FileInfo) : bool := modeIsDir (fiMode fi).

(** ** The process and its environment *)

(** Files are kept by location: the list of names from the root
    directory, which is the empty list. *)
Inductive Inode : Type :=
| RegFile (perm : N) (c : content)
| Directory (perm : N).

Inductive Syscall : Type :=
| sys_stat (path : string)
| sys_lstat (path : string)
| sys_open (path : string)
| sys_creat (path : string)
| sys_mkdir (path : string) (perm : N)
| sys_getdents (path : string)
| sys_read (loc : list string)
| sys_write (loc : list string)
| net_get (url : string).

(** [trace] lists the operations performed, the latest first.
    [network] is what a GET of a URL answers: a body or a failure. *)
Record World : Type := mkWorld {
  files : gmap (list string) Inode;
  cwd : list string;
  umask : N;
  network : string → option content;
  trace : list Syscall
}.

Inductive result (A : Type) : Type :=
| Ok (a : A)
| Err (e : error).
Arguments Ok {A} a.
Arguments Err {A} e.

(** A Go call that may fail, in a world that it may change. *)
Definition M (A : Type) : Type := World → result A * World.

Definition ret {A} (a : A) : M A := λ w, (Ok a, w).
Definition fail {A} (e : error) : M A := λ w, (Err e, w).
Definition bind {A B} (c : M A) (k : A → M B) : M B :=
  λ w, match c w with
       | (Ok a, w') => k a w'
       | (Err e, w') => (Err e, w')
       end.

Notation "'let*' x ':=' c 'in' k" := (bind c (λ x, k))
  (at level 10, x name, c at level 100, k at level 200).

(** [err] of a call whose failure the caller looks at or drops. *)
Definition try {A} (c : M A) : M (result A) :=
  λ w, let '(r, w') := c w in (Ok r, w').

Definition emit (s : Syscall) : M unit :=
  λ w, (Ok tt, mkWorld (files w) (cwd w) (umask w) (network w) (s :: trace w)).

(** The world with the inode [i] at location [loc]. *)
Definition putInode (loc : list string) (i : Inode) (w : World) : World :=
  mkWorld (<[loc := i]> (files w)) (cwd w) (umask w) (network w) (trace w).

Definition IsNotExist {A} (r : result A) : bool :=
  match r with
  | Err (PathError _ _ ENOENT) => true
  | _ => false
  end.

(** ** Package [os] *)

Module os.

(** Owner permission bits: read 0400, write 0200, search 0100. *)
Definition readable (perm : N) : bool := N.testbit perm 8.
Definition writable (perm : N) : bool := N.testbit perm 7.
Definition searchable (perm : N) : bool := N.testbit perm 6.

(** Path resolution, one element at a time from location [cur].  Every
    element is looked up in a directory; a name, [.] and [..] need search
    permission on it.  The location returned for a name is not looked
    up: the caller does. *)
Fixpoint walkElems (fs : gmap (list string) Inode) (cur : list string)
         (elems : list string) : Errno + list string :=
  match elems with
  | [] => inr cur
  | e :: rest =>
      match fs !! cur with
      | None => inl ENOENT
      | Some (RegFile _ _) => inl ENOTDIR
      | Some (Directory perm) =>
          if String.eqb e "" then walkElems fs cur rest
          else if negb (searchable perm) then inl EACCES
          else if String.eqb e "." then walkElems fs cur rest
          else if String.eqb e ".." then walkElems fs (removelast cur) rest
          else walkElems fs (cur ++ [e]) rest
      end
  end.

Definition namei (w : World) (path : string) : Errno + list string :=
  if String.eqb path "" then inl ENOENT
  else walkElems (files w) (if filepath.rooted path then [] else cwd w)
                 (strings.Split path filepath.Separator).

(** The name a [FileInfo] reports for the path it was asked about. *)
Definition basename (name : string) : string :=
  match filepath.trimTrailingSeparators name with
  | EmptyString => if String.eqb name "" then "" else "/"
  | n => filepath.lastElement n
  end.

Definition inodeMode (i : Inode) : N :=
  match i with
  | RegFile perm _ => Perm perm
  | Directory perm => N.lor ModeDir (Perm perm)
  end.

Definition statAt (op path : string) : M FileInfo :=
  λ w, match namei w path with
       | inl errno => (Err (PathError op path errno), w)
       | inr loc =>
           match files w !! loc with
           | None => (Err (PathError op path ENOENT), w)
           | Some i => (Ok (mkFileInfo (basename path) (inodeMode i)), w)
           end
       end.

Definition Stat (path : string) : M FileInfo :=
  let* _ := emit (sys_stat path) in statAt "stat" path.

(** Without symbolic links [Lstat] answers as [Stat] does. *)
Definition Lstat (path : string) : M FileInfo :=
  let* _ := emit (sys_lstat path) in statAt "lstat" path.

(** An open file: the path it was opened by and where it is. *)
Record File : Type := mkFile { fileName : string; fileLoc : list string }.

(** [Open]: read-only. *)
Definition Open (path : string) : M File :=
  let* _ := emit (sys_open path) in
  λ w, match namei w path with
       | inl errno => (Err (PathError "open" path errno), w)
       | inr loc =>
           match files w !! loc with
           | None => (Err (PathError "open" path ENOENT), w)
           | Some (RegFile perm _) | Some (Directory perm) =>
               if readable perm then (Ok (mkFile path loc), w)
               else (Err (PathError "open" path EACCES), w)
           end
       end.

(** [Create]: open for reading and writing, create with mode 0666
    before umask when missing, truncate when present. *)
Definition Create (path : string) : M File :=
  let* _ := emit (sys_creat path) in
  λ w, match namei w path with
       | inl errno => (Err (PathError "open" path errno), w)
       | inr loc =>
           match files w !! loc with
           | Some (Directory _) => (Err (PathError "open" path EISDIR), w)
           | Some (RegFile perm _) =>
               if readable perm && writable perm
               then (Ok (mkFile path loc), putInode loc (RegFile perm (Bytes "")) w)
               else (Err (PathError "open" path EACCES), w)
           | None =>
               match files w !! removelast loc with
               | Some (Directory pperm) =>
                   if writable pperm
                   then (Ok (mkFile path loc),
                         putInode loc (RegFile (N.ldiff 0x1b6 (umask w)) (Bytes "")) w)
                   else (Err (PathError "open" path EACCES), w)
               | Some (RegFile _ _) => (Err (PathError "open" path ENOTDIR), w)
               | None => (Err (PathError "open" path ENOENT), w)
               end
           end
       end.

(** All the bytes of an open file. *)
Definition ReadAll (f : File) : M content :=
  let* _ := emit (sys_read (fileLoc f)) in
  λ w, match files w !! fileLoc f with
       | Some (RegFile _ c) => (Ok c, w)
       | Some (Directory _) => (Err (PathError "read" (fileName f) EISDIR), w)
       | None => (Ok (Bytes ""), w)
       end.

(** The file open for writing gets the bytes [c]. *)
Definition WriteAll (f : File) (c : content) : M unit :=
  let* _ := emit (sys_write (fileLoc f)) in
  λ w, match files w !! fileLoc f with
       | Some (RegFile perm _) => (Ok tt, putInode (fileLoc f) (RegFile perm c) w)
       | _ => (Ok tt, w)
       end.

(** The name of location [loc] when it lies directly in [dir]. *)
Definition childName (dir : list string) (loc : list string) : option string :=
  if decide (removelast loc = dir) then last loc else None.

(** [readDirNames]: the names in a directory, sorted. *)
Definition readDirNames (dirname : string) : M (list string) :=
  let* f := Open dirname in
  let* _ := emit (sys_getdents dirname) in
  λ w, match files w !! fileLoc f with
       | Some (Directory _) =>
           (Ok (merge_sort String.le
                  (omap (childName (fileLoc f)) (map_to_list (files w)).*1)), w)
       | _ => (Err (PathError "readdirent" dirname ENOTDIR), w)
       end.

(** [Mkdir]: trailing separators of the path are allowed. *)
Definition Mkdir (name : string) (perm : N) : M unit :=
  let* _ := emit (sys_mkdir name perm) in
  λ w, let path := match filepath.trimTrailingSeparators name with
                   | EmptyString => name
                   | p => p
                   end in
       match namei w path with
       | inl errno => (Err (PathError "mkdir" name errno), w)
       | inr loc =>
           match files w !! loc with
           | Some _ => (Err (PathError "mkdir" name EEXIST), w)
           | None =>
               match files w !! removelast loc with
               | Some (Directory pperm) =>
                   if writable pperm
                   then (Ok tt, putInode loc (Directory (N.ldiff (Perm perm) (umask w))) w)
                   else (Err (PathError "mkdir" name EACCES), w)
               | Some (RegFile _ _) => (Err (PathError "mkdir" name ENOTDIR), w)
               | None => (Err (PathError "mkdir" name ENOENT), w)
               end
           end
       end.

(** [path[:j-1]] of [MkdirAll]: the path before its last element and the
    separator in front of it, when [j > 1]. *)
Definition parentOf (path : string) : option string :=
  let d := filepath.dirPrefix (filepath.trimTrailingSeparators path) in
  if (1 <? String.length d)%nat
  then Some (String.substring 0 (String.length d - 1) d)
  else None.

(** [MkdirAll]; the recursion is on the parent path, which is
    shorter. *)
Fixpoint MkdirAllFrom (n : nat) (path : string) (perm : N) : M unit :=
  let* dir := try (Stat path) in
  match dir with
  | Ok fi =>
      if IsDir fi then ret tt
      else fail (PathError "mkdir" path ENOTDIR)
  | Err _ =>
      let* _ := match parentOf path, n with
                | Some parent, S n' => MkdirAllFrom n' parent perm
                | _, _ => ret tt
                end in
      let* r := try (Mkdir path perm) in
      match r with
      | Ok _ => ret tt
      | Err err =>
          let* dir := try (Lstat path) in
          match dir with
          | Ok fi => if IsDir fi then ret tt else fail err
          | Err _ => fail err
          end
      end
  end.

Definition MkdirAll (path : string) (perm : N) : M unit :=
  MkdirAllFrom (String.length path) path perm.

End os.

(** ** Package [archive/zip] *)

Module zip.

Definition Store : N := 0.
Definition Deflate : N := 8.

(** [FileInfoHeader]: the base name and the mode of the file; the
    method is left at its zero value. *)
Definition FileInfoHeader (fi : FileInfo) : result FileHeader :=
  Ok (mkFileHeader (fiName fi) (fiMode fi) Store (Bytes "")).

Definition setName (h : FileHeader) (name : string) : FileHeader :=
  mkFileHeader name (headerMode h) (Method h) (data h).
Definition setMethod (h : FileHeader) (method : N) : FileHeader :=
  mkFileHeader (Name h) (headerMode h) method (data h).
Definition setData (h : FileHeader) (c : content) : FileHeader :=
  mkFileHeader (Name h) (headerMode h) (Method h) c.

(** [FileHeader.Mode]: a name with a trailing slash is a directory. *)
Definition Mode (h : FileHeader) : N :=
  if strings.HasSuffix (Name h) "/" then N.lor (headerMode h) ModeDir
  else headerMode h.

(** A writer keeps what it wrote in memory until [Close]: [dir] is the
    entries that are complete, in order, [last] the entry whose bytes
    are being written. *)
Record Writer : Type := mkWriter {
  zipfile : os.File;
  dir : list FileHeader;
  last : option FileHeader
}.

Definition NewWriter (f : os.File) : Writer := mkWriter f [] None.

Definition entries (w : Writer) : list FileHeader :=
  dir w ++ match last w with Some h => [h] | None => [] end.

Definition supported (method : N) : bool :=
  N.eqb method Store || N.eqb method Deflate.

(** [CreateHeader] ends the entry before and starts a new one.  A name
    with a trailing slash makes a directory entry: it is stored, and
    takes no bytes. *)
Definition CreateHeader (w : Writer) (fh : FileHeader) : result Writer :=
  let fh := if strings.HasSuffix (Name fh) "/" then setMethod fh Store else fh in
  if supported (Method fh)
  then Ok (mkWriter (zipfile w) (entries w) (Some (setData fh (Bytes ""))))
  else Err ErrAlgorithm.

(** [io.Copy(writer, file)] into the entry being written. *)
Definition copyIn (w : Writer) (file : os.File) : M Writer :=
  let* c := os.ReadAll file in
  match last w with
  | Some h =>
      if strings.HasSuffix (Name h) "/"
      then if isEmpty c then ret w else fail errWriteToDirectory
      else ret (mkWriter (zipfile w) (dir w) (Some (setData h c)))
  | None => ret w
  end.

(** [Close] writes the central directory: the file is now a
    container. *)
Definition Close (w : Writer) : M unit :=
  os.WriteAll (zipfile w) (Zip (entries w)).

(** [OpenReader]: the entries of the container in the file. *)
Definition OpenReader (name : string) : M (list FileHeader) :=
  let* f := os.Open name in
  let* c := os.ReadAll f in
  match c with
  | Zip File => ret File
  | Bytes _ => fail ErrFormat
  end.

(** [File.Open]: the bytes of an entry, decompressed. *)
Definition Open (f : FileHeader) : result content :=
  if supported (Method f) then Ok (data f) else Err ErrAlgorithm.

End zip.

(** ** [filepath.Walk] *)

Module filepathWalk.

Section Walk.
(** [S] is the state the callback captures and changes. *)
Context {S : Type}.

Definition WalkFunc : Type :=
  string → option FileInfo → option error → S → World →
  (option error * S) * World.

Definition isSkipDir (e : error) : bool :=
  match e with SkipDir => true | _ => false end.

(** The loop of [walk] over the names of a directory; [walkRec] is
    [walk] for the entries below. *)
Fixpoint rangeNames
         (walkRec : string → FileInfo → S → World → (option error * S) * World)
         (walkFn : WalkFunc) (path : string) (names : list string)
         (s : S) (w : World) : (option error * S) * World :=
  match names with
  | [] => ((None, s), w)
  | name :: names =>
      let filename := filepath.Join [path; name] in
      match os.Lstat filename w with
      | (Err err, w) =>
          let '((err, s), w) := walkFn filename None (Some err) s w in
          match err with
          | Some e =>
              if isSkipDir e then rangeNames walkRec walkFn path names s w
              else ((Some e, s), w)
          | None => rangeNames walkRec walkFn path names s w
          end
      | (Ok fileInfo, w) =>
          let '((err, s), w) := walkRec filename fileInfo s w in
          match err with
          | Some e =>
              if negb (IsDir fileInfo) || negb (isSkipDir e)
              then ((Some e, s), w)
              else rangeNames walkRec walkFn path names s w
          | None => rangeNames walkRec walkFn path names s w
          end
      end
  end.

(** [walk] descends one directory level for each unit of [n]. *)
Fixpoint walk (n : nat) (path : string) (info : FileInfo)
         (walkFn : WalkFunc) (s : S) (w : World)
  : (option error * S) * World :=
  match n with
  | O => ((Some errTooDeep, s), w)
  | Datatypes.S n' =>
      if negb (IsDir info) then walkFn path (Some info) None s w
      else
        let '(names, w) := os.readDirNames path w in
        let err := match names with Err e => Some e | Ok _ => None end in
        let '((err1, s), w) := walkFn path (Some info) err s w in
        match names, err1 with
        | Ok names, None =>
            rangeNames (λ filename fileInfo, walk n' filename fileInfo walkFn)
                       walkFn path names s w
        | _, _ => ((err1, s), w)
        end
  end.

(** No location is deeper than the longest one. *)
Definition depthBound (w : World) : nat :=
  Datatypes.S (max_list (length <$> (map_to_list (files w)).*1)).

Definition Walk (root : string) (walkFn : WalkFunc) (s : S) (w : World)
  : (option error * S) * World :=
  let '((err, s), w) :=
    match os.Lstat root w with
    | (Err err, w) => walkFn root None (Some err) s w
    | (Ok info, w) => walk (depthBound w) root info walkFn s w
    end in
  match err with
  | Some e => if isSkipDir e then ((None, s), w) else ((Some e, s), w)
  | None => ((None, s), w)
  end.

End Walk.

End filepathWalk.

(** ** Package [net/url]

    [ParseRequestURI] and [Parse] with what they call: [getScheme],
    [parseAuthority], [parseHost], [validOptionalPort], [validUserinfo],
    [unescape], [setPath] and [setFragment].  Newer releases of Go
    refuse more hosts than these do (they look closer at what stands in
    brackets and at the colons outside them); the statements about
    [Download] are about sources that are refused here as there, or
    about hosts made of letters, digits, [.], [-], [_] and [~]. *)

Module url.

Record Userinfo : Type := mkUserinfo {
  username : string; password : string; passwordSet : bool
}.

Record URL : Type := mkURL {
  Scheme : string; Opaque : string; User : option Userinfo; Host : string;
  Path : string; RawPath : string; OmitHost : bool; ForceQuery : bool;
  RawQuery : string; Fragment : string; RawFragment : string
}.

Definition isAlpha (c : ascii) : bool :=
  let n := N_of_ascii c in
  (97 <=? n) && (n <=? 122) || (65 <=? n) && (n <=? 90).

Definition isSchemeMark (c : ascii) : bool :=
  let n := N_of_ascii c in
  (48 <=? n) && (n <=? 57) || Ascii.eqb c "+" || Ascii.eqb c "-"
  || Ascii.eqb c ".".

Definition toLower (c : ascii) : ascii :=
  let n := N_of_ascii c in
  if (65 <=? n) && (n <=? 90) then ascii_of_N (n + 32) else c.

Fixpoint ToLower (s : string) : string :=
  match s with
  | EmptyString => EmptyString
  | String c r => String (toLower c) (ToLower r)
  end.

(** The loop of [getScheme] from index [i = length seen]; [seen] is
    [rawURL[:i]] backwards and [s] is [rawURL[i:]]. *)
Fixpoint getSchemeFrom (rawURL : string) (seen : string) (s : string)
  : string + (string * string) :=
  match s with
  | EmptyString => inr ("", rawURL)
  | String c r =>
      if isAlpha c then getSchemeFrom rawURL (String c seen) r
      else if isSchemeMark c then
        match seen with
        | EmptyString => inr ("", rawURL)
        | _ => getSchemeFrom rawURL (String c seen) r
        end
      else if Ascii.eqb c ":" then
        match seen with
        | EmptyString => inl "missing protocol scheme"
        | _ => inr (String.rev seen, r)
        end
      else inr ("", rawURL)
  end.

Definition getScheme (rawURL : string) : string + (string * string) :=
  getSchemeFrom rawURL "" rawURL.

Definition isCTL (c : ascii) : bool :=
  let n := N_of_ascii c in (n <? 32) || (n =? 127).

Fixpoint stringContainsCTLByte (s : string) : bool :=
  match s with
  | EmptyString => false
  | String c r => isCTL c || stringContainsCTLByte r
  end.

(** [strings.Cut s sep] for a one-byte separator. *)
Fixpoint Cut (s : string) (sep : ascii) : string * string * bool :=
  match s with
  | EmptyString => ("", "", false)
  | String c r =>
      if Ascii.eqb c sep then ("", r, true)
      else let '(before, after, found) := Cut r sep in
           (String c before, after, found)
  end.

Fixpoint Count (s : string) (b : ascii) : nat :=
  match s with
  | EmptyString => O
  | String c r => ((if Ascii.eqb c b then 1 else 0) + Count r b)%nat
  end.

Definition dropLast (s : string) : string :=
  String.substring 0 (String.length s - 1) s.

(** [s[:i]] and [s[i+1:]] for [i = strings.LastIndex(s, sep)], a
    one-byte separator; [None] when [i < 0]. *)
Fixpoint cutLast (s : string) (sep : ascii) : option (string * string) :=
  match s with
  | EmptyString => None
  | String c r =>
      match cutLast r sep with
      | Some (before, after) => Some (String c before, after)
      | None => if Ascii.eqb c sep then Some ("", r) else None
      end
  end.

(** [s[:i]] and [s[i:]] for [i = strings.Index(s, substr)]; [None] when
    [i < 0]. *)
Fixpoint cutAt (s substr : string) : option (string * string) :=
  if strings.HasPrefix s substr then Some ("", s)
  else match s with
       | EmptyString => None
       | String c r =>
           match cutAt r substr with
           | Some (before, after) => Some (String c before, after)
           | None => None
           end
       end.

Inductive encoding : Type :=
| encodePath | encodePathSegment | encodeHost | encodeZone
| encodeUserPassword | encodeQueryComponent | encodeFragment.

Definition isHostMode (mode : encoding) : bool :=
  match mode with encodeHost | encodeZone => true | _ => false end.

Definition oneOf (c : ascii) (set : string) : bool := strings.ContainsByte set c.

(** [shouldEscape]: whether the byte must be escaped to stand in the
    part of the URL that [mode] names. *)
Definition shouldEscape (c : ascii) (mode : encoding) : bool :=
  let n := N_of_ascii c in
  (* Unreserved characters (alphanum) *)
  if isAlpha c || (48 <=? n) && (n <=? 57) then false
  else if isHostMode mode
          && (oneOf c "!$&'()*+,;=:[]<>" || Ascii.eqb c (ascii_of_N 34))
  then false
  else if oneOf c "-_.~" then false   (* Unreserved characters (mark) *)
  else if oneOf c "$&+,/:;=?@" then   (* Reserved characters (reserved) *)
    match mode with
    | encodePath => Ascii.eqb c "?"
    | encodePathSegment => oneOf c "/;,?"
    | encodeUserPassword => oneOf c "@/?:"
    | encodeQueryComponent => true
    | encodeFragment => false
    | encodeHost | encodeZone => true
    end
  else if match mode with encodeFragment => oneOf c "!()*" | _ => false end
  then false
  else true.   (* Everything else must be escaped. *)

Definition ishex (c : ascii) : bool :=
  let n := N_of_ascii c in
  (48 <=? n) && (n <=? 57) || (97 <=? n) && (n <=? 102)
  || (65 <=? n) && (n <=? 70).

Definition unhex (c : ascii) : N :=
  let n := N_of_ascii c in
  if (48 <=? n) && (n <=? 57) then n - 48
  else if (97 <=? n) && (n <=? 102) then n - 97 + 10
  else if (65 <=? n) && (n <=? 70) then n - 65 + 10
  else 0.

(** The byte that the escape [%ab] stands for. *)
Definition unhex2 (a b : ascii) : ascii :=
  ascii_of_N (N.lor (N.shiftl (unhex a) 4) (unhex b)).

(** The first loop of [unescape]: the escapes are well formed, and a
    host has no byte that a host may not have. *)
Fixpoint unescapeCheck (s : string) (mode : encoding) : option urlCause :=
  match s with
  | EmptyString => None
  | String c r =>
      if Ascii.eqb c "%" then
        match r with
        | String a (String b r') =>
            let esc := String c (String a (String b "")) in
            if negb (ishex a) || negb (ishex b) then Some (EscapeError esc)
            else if match mode with encodeHost => true | _ => false end
                    && (unhex a <? 8) && negb (String.eqb esc "%25")
            then Some (EscapeError esc)
            else if match mode with encodeZone => true | _ => false end
                    && negb (String.eqb esc "%25")
                    && negb (Ascii.eqb (unhex2 a b) " ")
                    && shouldEscape (unhex2 a b) encodeHost
            then Some (EscapeError esc)
            else unescapeCheck r' mode
        | _ => Some (EscapeError s)
        end
      else if Ascii.eqb c "+" then unescapeCheck r mode
      else if isHostMode mode && (N_of_ascii c <? 128)
              && shouldEscape c encodeHost
      then Some (InvalidHostError (String c ""))
      else unescapeCheck r mode
  end.

(** The second loop of [unescape], for a string that passed the
    first. *)
Fixpoint unescapeBytes (s : string) (mode : encoding) : string :=
  match s with
  | EmptyString => EmptyString
  | String c r =>
      if Ascii.eqb c "%" then
        match r with
        | String a (String b r') => String (unhex2 a b) (unescapeBytes r' mode)
        | _ => String c (unescapeBytes r mode)
        end
      else if Ascii.eqb c "+" then
        String (match mode with encodeQueryComponent => " " | _ => "+" end)%char
               (unescapeBytes r mode)
      else String c (unescapeBytes r mode)
  end.

Definition unescape (s : string) (mode : encoding) : urlCause + string :=
  match unescapeCheck s mode with
  | Some err => inl err
  | None => inr (unescapeBytes s mode)
  end.

Definition upperhex (n : N) : ascii :=
  default "0"%char (String.get (N.to_nat n) "0123456789ABCDEF").

Fixpoint escape (s : string) (mode : encoding) : string :=
  match s with
  | EmptyString => EmptyString
  | String c r =>
      if shouldEscape c mode then
        if Ascii.eqb c " "
           && match mode with encodeQueryComponent => true | _ => false end
        then String "+" (escape r mode)
        else String "%" (String (upperhex (N.shiftr (N_of_ascii c) 4))
                           (String (upperhex (N.land (N_of_ascii c) 15))
                              (escape r mode)))
      else String c (escape r mode)
  end.

(** [validOptionalPort]: empty, or a colon and decimal digits. *)
Definition validOptionalPort (port : string) : bool :=
  match port with
  | EmptyString => true
  | String c digits =>
      Ascii.eqb c ":"
      && forallb (λ b, (48 <=? N_of_ascii b) && (N_of_ascii b <=? 57))
                 (list_ascii_of_string digits)
  end.

(** [validUserinfo].  The loop is over the runes of the string; a rune
    that is not one byte is not among those let through, so every byte
    has to be. *)
Definition validUserinfo (s : string) : bool :=
  forallb (λ r, isAlpha r || (48 <=? N_of_ascii r) && (N_of_ascii r <=? 57)
                || oneOf r "-._:~!$&'()*+,;=%@")
          (list_ascii_of_string s).

(** [parseHost]: [host] is an authority without user information,
    [host[:port]]. *)
Definition parseHost (host : string) : urlCause + string :=
  match
    if strings.HasPrefix host "[" then
      (* An IP-Literal, as [fe80::1%25en0]:80 *)
      match cutLast host "]" with
      | None => Some (inl (urlErrorString "missing ']' in host"))
      | Some (before, colonPort) =>
          if negb (validOptionalPort colonPort)
          then Some (inl (invalidPort colonPort))
          else
            match cutAt before "%25" with
            | Some (host1, zone) =>
                Some match unescape host1 encodeHost with
                     | inl err => inl err
                     | inr host1 =>
                         match unescape zone encodeZone with
                         | inl err => inl err
                         | inr host2 =>
                             match unescape ("]" +:+ colonPort) encodeHost with
                             | inl err => inl err
                             | inr host3 => inr (host1 +:+ host2 +:+ host3)
                             end
                         end
                     end
            | None => None
            end
      end
    else
      match cutLast host ":" with
      | Some (_, port) =>
          if negb (validOptionalPort (":" +:+ port))
          then Some (inl (invalidPort (":" +:+ port)))
          else None
      | None => None
      end
  with
  | Some r => r
  | None => unescape host encodeHost
  end.

(** [parseAuthority]: the host is checked before the user
    information. *)
Definition parseAuthority (authority : string)
  : urlCause + (option Userinfo * string) :=
  let i := cutLast authority "@" in
  match parseHost (match i with Some (_, host) => host | None => authority end) with
  | inl err => inl err
  | inr host =>
      match i with
      | None => inr (None, host)
      | Some (userinfo, _) =>
          if negb (validUserinfo userinfo)
          then inl (urlErrorString "net/url: invalid userinfo")
          else if negb (strings.ContainsByte userinfo ":") then
            match unescape userinfo encodeUserPassword with
            | inl err => inl err
            | inr userinfo => inr (Some (mkUserinfo userinfo "" false), host)
            end
          else
            let '(username, password, _) := Cut userinfo ":" in
            match unescape username encodeUserPassword with
            | inl err => inl err
            | inr username =>
                match unescape password encodeUserPassword with
                | inl err => inl err
                | inr password =>
                    inr (Some (mkUserinfo username password true), host)
                end
            end
      end
  end.

(** [setPath] and [setFragment]: the text unescaped, and the text as it
    was when escaping the first again does not give it. *)
Definition setEscaped (p : string) (mode : encoding)
  : urlCause + (string * string) :=
  match unescape p mode with
  | inl err => inl err
  | inr path =>
      inr (path, if String.eqb p (escape path mode) then "" else p)
  end.

Definition parse (rawURL : string) (viaRequest : bool) : urlCause + URL :=
  if stringContainsCTLByte rawURL
  then inl (urlErrorString "net/url: invalid control character in URL")
  else if String.eqb rawURL "" && viaRequest
  then inl (urlErrorString "empty url")
  else if String.eqb rawURL "*"
  then inr (mkURL "" "" None "" "*" "" false false "" "" "")
  else
    (* Split off possible leading "http:", "mailto:", etc. *)
    match getScheme rawURL with
    | inl msg => inl (urlErrorString msg)
    | inr (scheme, rest) =>
        let scheme := ToLower scheme in
        let '(rest, forceQuery, query) :=
          if strings.HasSuffix rest "?" && (Count rest "?" =? 1)%nat
          then (dropLast rest, true, "")
          else let '(before, after, _) := Cut rest "?" in
               (before, false, after) in
        if negb (strings.HasPrefix rest "/") && negb (String.eqb scheme "")
        then (* rootless paths are opaque *)
          inr (mkURL scheme rest None "" "" "" false forceQuery query "" "")
        else if negb (strings.HasPrefix rest "/") && viaRequest
        then inl (urlErrorString "invalid URI for request")
        else if negb (strings.HasPrefix rest "/")
                && strings.ContainsByte (fst (fst (Cut rest "/"))) ":"
        then inl (urlErrorString "first path segment in URL cannot contain colon")
        else
          let hasAuthority :=
            (negb (String.eqb scheme "")
             || negb viaRequest && negb (strings.HasPrefix rest "///"))
            && strings.HasPrefix rest "//" in
          match
            if hasAuthority then
              let '(authority, path, found) :=
                Cut (strings.TrimPrefix rest "//") "/" in
              match parseAuthority authority with
              | inl err => inl err
              | inr (user, host) =>
                  inr (user, host, if found then "/" +:+ path else "", false)
              end
            else
              inr (None, "", rest,
                   negb (String.eqb scheme "") && strings.HasPrefix rest "/")
          with
          | inl err => inl err
          | inr (user, host, rest, omitHost) =>
              match setEscaped rest encodePath with
              | inl err => inl err
              | inr (path, rawPath) =>
                  inr (mkURL scheme "" user host path rawPath omitHost
                             forceQuery query "" "")
              end
          end
    end.

Definition ParseRequestURI (rawURL : string) : result URL :=
  match parse rawURL true with
  | inl err => Err (urlError "parse" rawURL err)
  | inr u => Ok u
  end.

(** [Parse]: the fragment is cut off first. *)
Definition Parse (rawURL : string) : result URL :=
  let '(u, frag, _) := Cut rawURL "#" in
  match parse u false with
  | inl err => Err (urlError "parse" u err)
  | inr url =>
      if String.eqb frag "" then Ok url
      else
        match setEscaped frag encodeFragment with
        | inl err => Err (urlError "parse" rawURL err)
        | inr (fragment, rawFragment) =>
            Ok (mkURL (Scheme url) (Opaque url) (User url) (Host url)
                      (Path url) (RawPath url) (OmitHost url)
                      (ForceQuery url) (RawQuery url) fragment rawFragment)
        end
  end.

End url.

(** ** Package [net/http] *)

Module http.

(** [hasPort]: the last colon stands after the last closing bracket. *)
Definition hasPort (s : string) : bool :=
  match url.cutLast s ":" with
  | Some (_, port) => negb (strings.ContainsByte port "]")
  | None => false
  end.

Definition removeEmptyPort (host : string) : string :=
  if hasPort host && strings.HasSuffix host ":" then url.dropLast host
  else host.

(** [Get].  [NewRequest] parses the URL and returns the error of
    [url.Parse] as it is; the transport refuses a scheme other than http
    and https, then a missing host, and only then is the request
    sent.  What the network does with it, redirects included, is
    [network]'s answer. *)
Definition Get (rawURL : string) : M content :=
  match url.Parse rawURL with
  | Err err => fail err
  | Ok u =>
      (* The host's colon:port should be normalized. *)
      let host := removeEmptyPort (url.Host u) in
      if negb (String.eqb (url.Scheme u) "http"
               || String.eqb (url.Scheme u) "https")
      then fail (unsupportedProtocolScheme (url.Scheme u))
      else if String.eqb host ""
      then fail noHost
      else
        let* _ := emit (net_get rawURL) in
        λ w, match network w rawURL with
             | Some body => (Ok body, w)
             | None => (Err (netError rawURL), w)
             end
  end.

End http.

(** ** Package [zip] of gogo *)

(** [Download]: an archive file from an HTTP source to the local file
    [target]. *)
Definition Download (source target : string) : M unit :=
  (* Parse source url and validate 'source' is a valid HTTP URL *)
  let* _ := λ w, (url.ParseRequestURI source, w) in
  (* Get the source data *)
  let* resp := http.Get source in
  (* Create the .zip file on the local filesystem *)
  let* out := os.Create target in
  (* Write the body to .zip file *)
  os.WriteAll out resp.

(** The callback [createArchive] hands to [filepath.Walk]; [archive] is
    the zip writer it captures.  It returns the error, nil being [None]. *)
Definition walkFn (baseDir : string) : @filepathWalk.WalkFunc zip.Writer :=
  λ path info err archive w,
    match err, info with
    | Some err, _ => ((Some err, archive), w)
    | None, None => ((None, archive), w)
    | None, Some info =>
        (* Get File Header Info *)
        match zip.FileInfoHeader info with
        | Err err => ((Some err, archive), w)
        | Ok header =>
            (* Verify Base Directory *)
            let named : option FileHeader :=
              if negb (String.eqb baseDir "") then
                if String.eqb baseDir "." then
                  Some (zip.setName header
                          (filepath.ToSlash (filepath.Join [baseDir; path])))
                else
                  let prefix := baseDir +:+ "/" in
                  let header := zip.setName header (filepath.ToSlash path) in
                  let header :=
                    zip.setName header
                      (filepath.ToSlash
                         (filepath.Join [strings.TrimPrefix (Name header) prefix])) in
                  (* ROOT DIRECTORY CHECK *)
                  if String.eqb baseDir (Name header) then None
                  else Some header
              else Some header in
            match named with
            | None => ((None, archive), w)
            | Some header =>
                (* Check if Archive File Header is a Directory *)
                let header :=
                  if IsDir info then zip.setName header (Name header +:+ "/")
                  else zip.setMethod header zip.Deflate in
                (* Create Header for Source File *)
                match zip.CreateHeader archive header with
                | Err err => ((Some err, archive), w)
                | Ok archive =>
                    if IsDir info then ((None, archive), w)
                    else
                      (* Open Source File *)
                      match os.Open path w with
                      | (Err err, w) => ((Some err, archive), w)
                      | (Ok file, w) =>
                          (* Copy Source File to Archive (.zip) *)
                          match zip.copyIn archive file w with
                          | (Err err, w) => ((Some err, archive), w)
                          | (Ok archive, w) => ((None, archive), w)
                          end
                      end
                end
            end
        end
    end.

(** [createArchive]: the result of [filepath.Walk] is dropped, and the
    deferred [archive.Close()] runs on every return after the writer is
    made. *)
Definition createArchive (source target : string) : M unit :=
  λ w,
    (* Create Zip Archive File *)
    match os.Create target w with
    | (Err err, w) => (Err err, w)
    | (Ok zipfile, w) =>
        (* Create New Writer for Zipfile *)
        let archive := zip.NewWriter zipfile in
        let '(r, archive, w) :=
          match os.Stat source w with
          | (Err err, w) => (Err err, archive, w)
          | (Ok info, w) =>
              (* Verify Source is a Directory *)
              let baseDir := if IsDir info then filepath.Base source else "" in
              (* Walk Source Filepath *)
              let '((_, archive), w) :=
                filepathWalk.Walk source (walkFn baseDir) archive w in
              (Ok tt, archive, w)
          end in
        let '(_, w) := zip.Close archive w in
        (r, w)
    end.

(** [Archive]: a zip file [target] from [source] on the local
    filesystem. *)
Definition Archive (source target : string) : M unit :=
  (* Validate Target Parameter *)
  if String.eqb target "" then
    fail (errorString "The 'target' parameter was empty. A target is required to create a Zip Archive")
  (* Validate Source Parameter *)
  else if String.eqb source "" then
    fail (errorString "The 'source' parameter was empty. A source is required to create a Zip Archive")
  else
    (* Create Archive *)
    createArchive source target.

(** [targetDir] in the loop of [Unarchive]. *)
Definition targetDirOf (target : string) : string :=
  if String.eqb target "" then "./" else target.

(** The body of the loop of [Unarchive] for one entry of the archive.
    The results of the three [os.MkdirAll] are dropped. *)
Definition extract (target : string) (file : FileHeader) : M unit :=
  (* Open the file inside the zip archive like a normal file *)
  let* zippedFile := λ w, (zip.Open file, w) in
  let targetDir := targetDirOf target in
  (* Set Extracted Filepath *)
  let extractedFilePath := filepath.Join [targetDir; Name file] in
  (* Extract the item (or create directory) *)
  if modeIsDir (zip.Mode file) then
    let* st := try (os.Stat (filepath.Dir extractedFilePath)) in
    let* _ := if IsNotExist st
              then try (os.MkdirAll (filepath.Dir extractedFilePath) 0x1ed)
              else ret (Ok tt) in
    let* _ := try (os.MkdirAll extractedFilePath (zip.Mode file)) in
    ret tt
  else
    let* st := try (os.Stat (filepath.Dir extractedFilePath)) in
    let* _ := if IsNotExist st
              then try (os.MkdirAll (filepath.Dir extractedFilePath) 0x1ed)
              else ret (Ok tt) in
    (* Create an output file for writing *)
    let* f := os.Create extractedFilePath in
    (* "Extract" the file by copying zipped file contents to the output file *)
    os.WriteAll f zippedFile.

Fixpoint extractAll (target : string) (File : list FileHeader) : M unit :=
  match File with
  | [] => ret tt
  | file :: File => let* _ := extract target file in extractAll target File
  end.

(** [Unarchive]: unzip the archive file [source] into [target]. *)
Definition Unarchive (source target : string) : M unit :=
  (* Create a zipReader out of the Source (.zip) *)
  let* zipReader := zip.OpenReader source in
  (* Iterate through each File/Directory found in Source Archive (.zip) *)
  extractAll target zipReader.

(** Modelled from the spec: the error taxonomy of its section 7, which
    the code has no type for.  Empty or malformed arguments are
    [InvalidArgument], a missing file or archive is [NotFound], a failed
    transfer is [NetworkError], other failures of reading and writing are
    [IOError]. *)
Inductive ErrorKind : Type :=
| InvalidArgument | NotFound | AlreadyExists | IOError | NetworkError.

Definition kindOf (e : error) : ErrorKind :=
  match e with
  | errorString _ => InvalidArgument
  | urlError _ _ _ | unsupportedProtocolScheme _ | noHost => InvalidArgument
  | netError _ => NetworkError
  | PathError _ _ ENOENT => NotFound
  | PathError _ _ EEXIST => AlreadyExists
  | PathError _ _ _ => IOError
  | ErrFormat => NotFound
  | ErrAlgorithm | errWriteToDirectory | errTooDeep | SkipDir => IOError
  end.

(** ** Package [os], continued: what package [fs] calls besides

    [trace] has no entry for the calls of this module. *)

Module os2.

(** The error numbers that [unlink] and [rmdir] answer besides those of
    [Errno]. *)
Inductive Errno2 : Type :=
| std (e : Errno)
| ENOTEMPTY
| EINVAL
| EBUSY.

(** [&PathError{Op, Path, Err}] with such an error number. *)
Record PathError2 : Type := mkPathError2 {
  peOp : string; pePath : string; peErr : Errno2
}.

(** The last element of a path that is not empty: trailing separators
    do not count.  It is empty for a path of separators only. *)
Definition lastName (path : string) : string :=
  default "" (last (List.filter (λ e, negb (String.eqb e ""))
                                (strings.Split path filepath.Separator))).

(** No location lies directly in the directory at [loc]. *)
Definition isEmptyDir (w : World) (loc : list string) : bool :=
  match omap (os.childName loc) (map_to_list (files w)).*1 with
  | [] => true
  | _ => false
  end.

(** The world without what is at [loc]. *)
Definition removeInode (loc : list string) (w : World) : World :=
  mkWorld (delete loc (files w)) (cwd w) (umask w) (network w) (trace w).

(** [unlink(2)]: the path is resolved; a last element that is [.], [..]
    or the root is a directory; the directory that holds the file must
    be writable. *)
Definition unlink (path : string) : World → option Errno2 * World :=
  λ w, match os.namei w path with
       | inl e => (Some (std e), w)
       | inr loc =>
           let l := lastName path in
           if String.eqb l "" || String.eqb l "." || String.eqb l ".."
           then (Some (std EISDIR), w)
           else
             match files w !! loc with
             | None => (Some (std ENOENT), w)
             | Some i =>
                 match files w !! removelast loc with
                 | Some (Directory pperm) =>
                     if negb (os.writable pperm) then (Some (std EACCES), w)
                     else match i with
                          | Directory _ => (Some (std EISDIR), w)
                          | RegFile _ _ => (None, removeInode loc w)
                          end
                 | _ => (Some (std ENOTDIR), w)
                 end
             end
       end.

(** [rmdir(2)]: a last element [..] answers ENOTEMPTY, [.] EINVAL, the
    root EBUSY; the directory that holds the directory must be
    writable, and the directory empty. *)
Definition rmdir (path : string) : World → option Errno2 * World :=
  λ w, match os.namei w path with
       | inl e => (Some (std e), w)
       | inr loc =>
           let l := lastName path in
           if String.eqb l ".." then (Some ENOTEMPTY, w)
           else if String.eqb l "." then (Some EINVAL, w)
           else if String.eqb l "" then (Some EBUSY, w)
           else
             match files w !! loc with
             | None => (Some (std ENOENT), w)
             | Some i =>
                 match files w !! removelast loc with
                 | Some (Directory pperm) =>
                     if negb (os.writable pperm) then (Some (std EACCES), w)
                     else match i with
                          | RegFile _ _ => (Some (std ENOTDIR), w)
                          | Directory _ =>
                              if isEmptyDir w loc then (None, removeInode loc w)
                              else (Some ENOTEMPTY, w)
                          end
                 | _ => (Some (std ENOTDIR), w)
                 end
             end
       end.

(** [Remove]: [unlink], then [rmdir]; when both fail the error is that
    of [rmdir], unless that says the name is not a directory. *)
Definition Remove (name : string) : World → option PathError2 * World :=
  λ w, match unlink name w with
       | (None, w) => (None, w)
       | (Some e, w) =>
           match rmdir name w with
           | (None, w) => (None, w)
           | (Some e1, w) =>
               (Some (mkPathError2 "remove" name
                        (match e1 with std ENOTDIR => e | _ => e1 end)), w)
           end
       end.

(** [Chmod]: the permission bits of the mode become those of the file;
    the umask plays no part.  The owner may always do this. *)
Definition Chmod (name : string) (mode : N) : M unit :=
  λ w, match os.namei w name with
       | inl e => (Err (PathError "chmod" name e), w)
       | inr loc =>
           match files w !! loc with
           | None => (Err (PathError "chmod" name ENOENT), w)
           | Some (RegFile _ c) => (Ok tt, putInode loc (RegFile (Perm mode) c) w)
           | Some (Directory _) => (Ok tt, putInode loc (Directory (Perm mode)) w)
           end
       end.

End os2.

Module ioutil.

(** [ReadFile]: open, read to the end, close. *)
Definition ReadFile (filename : string) : M content :=
  let* f := os.Open filename in os.ReadAll f.

End ioutil.

(** ** Package [fs] of gogo

    A function that returns [(value, error)] is a computation of the
    value: where the code returns an error, the value beside it is
    always the zero value or the empty slice. *)

Module fs.

(** [FileExtension].  [url.ToLower] is [strings.ToLower] on strings of
    ASCII bytes. *)
Definition FileExtension (filepath : string) : result string :=
  (* Check Filepath has . *)
  let valid := strings.ContainsByte filepath "." in
  if valid then
    (* Split Path into a Slice *)
    let fSlice := strings.Split filepath "." in
    (* Get the extension of the Filepath from last index position in the Slice *)
    let fileExtension := default "" (last fSlice) in
    (* Return the Extension *)
    Ok (url.ToLower fileExtension)
  else
    Err (errorString "Failed to find File Extension. Filepath must be in format of <filename>.<ext>").

Definition PathExists (path : string) : M bool :=
  (* Check Path *)
  let* r := try (os.Stat path) in
  match r with
  | Ok _ => ret true                                    (* Path Does Exist *)
  | Err err => if IsNotExist r then ret false           (* Path Does *Not* Exist *)
               else fail err
  end.

Definition PathNotExists (path : string) : M bool :=
  (* Check if Path Does Not Exist *)
  let* r := try (os.Stat path) in
  if IsNotExist r then ret true                         (* Path Does *Not* Exist *)
  else match r with
       | Ok _ => ret true                               (* Path Does Exist *)
       | Err err => fail err
       end.

Definition CreateDirectory (path : string) (mode : N) : M unit :=
  (* Check IF Directory Exists *)
  let* r := try (os.Stat path) in
  match r with
  | Ok _ => fail (errorString ("Directory '" +:+ path +:+ "' already exists"))
  | Err _ => os.Mkdir path mode                         (* Create Directory *)
  end.

Definition CreateFile (path : string) (mode : N) : M unit :=
  (* Check IF File Exists *)
  let* r := try (os.Stat path) in
  match r with
  | Ok _ => fail (errorString ("File '" +:+ path +:+ "' already exists"))
  | Err _ =>
      (* Create File *)
      let* file := os.Create path in
      (* Set File Permissions *)
      os2.Chmod path mode
  end.

Definition ReadFile (path : string) : M content :=
  (* Check IF File Exists *)
  let* r := try (os.Stat path) in
  match r with
  | Err _ => fail (errorString ("File '" +:+ path +:+ "' doesn't exist"))
  | Ok _ => ioutil.ReadFile path                        (* Read File *)
  end.

Definition WriteFile (path : string) (mode : N) (data : content) : M unit :=
  (* Check IF File Exists *)
  let* r := try (os.Stat path) in
  match r with
  | Ok _ => fail (errorString ("File '" +:+ path +:+ "' already exists"))
  | Err _ =>
      (* Create File *)
      let* file := os.Create path in
      (* Write File; Save File Changes *)
      let* _ := os.WriteAll file data in
      (* Set File Permissions *)
      os2.Chmod path mode
  end.

(** What [DeleteDirectory] and [DeleteFile] return: an error of
    [fmt.Errorf] or the error of [os.Remove]. *)
Inductive DeleteError : Type :=
| Errorf (msg : string)
| RemoveError (e : os2.PathError2).

Definition DeleteDirectory (path : string) : World → option DeleteError * World :=
  λ w,
    (* Check IF Directory Exists *)
    match os.Stat path w with
    | (Err _, w) => (Some (Errorf ("Directory '" +:+ path +:+ "' doesn't exist")), w)
    | (Ok _, w) =>
        (* Delete Directory *)
        match os2.Remove path w with
        | (Some err, w) => (Some (RemoveError err), w)
        | (None, w) => (None, w)
        end
    end.

Definition DeleteFile (path : string) : World → option DeleteError * World :=
  λ w,
    (* Check IF File Exists *)
    match os.Stat path w with
    | (Err _, w) => (Some (Errorf ("File '" +:+ path +:+ "' doesn't exist")), w)
    | (Ok _, w) =>
        (* Delete File *)
        match os2.Remove path w with
        | (Some err, w) => (Some (RemoveError err), w)
        | (None, w) => (None, w)
        end
    end.

End fs.

(** ** What the statements below are about *)

(** The entries of the container in the file at location [loc]. *)
Definition containerAt (w : World) (loc : list string) : option (list FileHeader) :=
  match files w !! loc with
  | Some (RegFile _ (Zip File)) => Some File
  | _ => None
  end.

(** The bytes of the regular file at location [loc]. *)
Definition fileAt (w : World) (loc : list string) : option content :=
  match files w !! loc with
  | Some (RegFile _ c) => Some c
  | _ => None
  end.

(** Two worlds that differ in their trace only. *)
Definition sameFiles (w w' : World) : Prop :=
  files w' = files w ∧ cwd w' = cwd w ∧ umask w' = umask w
  ∧ network w' = network w.

(** Modelled from the spec: the shape of an absolute HTTP(S) URI.  It
    begins with the scheme [http] or [https], in letters of either case,
    and [://], and a host follows: the text after [://] is not empty and
    does not begin with [/], [?] or [#]. *)
Fixpoint afterPrefixFold (prefix s : string) : option string :=
  match prefix, s with
  | EmptyString, _ => Some s
  | String c p, String d r =>
      if Ascii.eqb c (url.toLower d) then afterPrefixFold p r else None
  | String _ _, EmptyString => None
  end.

Definition namesHost (rest : string) : bool :=
  match rest with
  | EmptyString => false
  | String c _ => negb (strings.ContainsByte "/?#" c)
  end.

Definition absoluteHttpURI (source : string) : bool :=
  match afterPrefixFold "http://" source, afterPrefixFold "https://" source with
  | Some rest, _ | None, Some rest => namesHost rest
  | None, None => false
  end.

(** Modelled from RFC 3986, section 2: the characters of a URI are the
    unreserved and the reserved ones and the percent sign. *)
Definition uriCharacter (c : ascii) : bool :=
  let n := N_of_ascii c in
  (97 <=? n) && (n <=? 122) || (65 <=? n) && (n <=? 90)
  || (48 <=? n) && (n <=? 57)
  || strings.ContainsByte "-._~:/?#[]@!$&'()*+,;=%" c.

(** The errors that [Download] returns before a request is sent. *)
Definition refusal (e : error) : Prop :=
  (∃ u cause, e = urlError "parse" u cause)
  ∨ (∃ scheme, e = unsupportedProtocolScheme scheme)
  ∨ e = noHost.

(** The unreserved characters of RFC 3986: letters, digits, [-], [.],
    [_] and [~]. *)
Definition unreserved (c : ascii) : bool :=
  let n := N_of_ascii c in
  (97 <=? n) && (n <=? 122) || (65 <=? n) && (n <=? 90)
  || (48 <=? n) && (n <=? 57)
  || strings.ContainsByte "-._~" c.

(** Every byte of [s] is one that [ok] lets through. *)
Fixpoint allBytes (ok : ascii → bool) (s : string) : bool :=
  match s with
  | EmptyString => true
  | String c r => ok c && allBytes ok r
  end.

(** A host name and a path of unreserved characters; the path may have
    separators. *)
Definition plainHost (host : string) : bool :=
  negb (String.eqb host "") && allBytes unreserved host.

Definition plainPath (path : string) : bool :=
  allBytes (λ c, unreserved c || Ascii.eqb c "/") path.

(** The URL of [path] on [host]. *)
Definition httpURL (secure : bool) (host path : string) : string :=
  (if secure then "https" else "http") +:+ "://" +:+ host +:+ "/" +:+ path.

(** A name of a directory entry: not empty, not [.] or [..], without a
    separator. *)
Definition validName (name : string) : Prop :=
  name ≠ "" ∧ name ≠ "." ∧ name ≠ ".." ∧
  strings.ContainsByte name filepath.Separator = false.

(** The path of the elements [elems]. *)
Definition pathOf (elems : list string) : string := strings.Join elems "/".

(** A path without an empty element: it does not begin or end with a
    separator and has no two in a row. *)
Definition noEmptyElement (path : string) : Prop :=
  Forall (λ e, e ≠ "") (strings.Split path filepath.Separator).

(** An element of a cleaned path: not empty, without a separator. *)
Definition plainElement (e : string) : Prop :=
  e ≠ "" ∧ strings.ContainsByte e "/" = false.

(** The name [walkFn] computes for the visited [path]; [name] is the
    base name that [zip.FileInfoHeader] put in the header, and [None]
    is the return at the root directory check. *)
Definition relativeName (baseDir path name : string) : option string :=
  if negb (String.eqb baseDir "") then
    if String.eqb baseDir "." then
      Some (filepath.ToSlash (filepath.Join [baseDir; path]))
    else
      let n := filepath.ToSlash
                 (filepath.Join
                    [strings.TrimPrefix (filepath.ToSlash path) (baseDir +:+ "/")]) in
      if String.eqb baseDir n then None else Some n
  else Some name.

(** The entry of the root directory is left out: no entry of a
    directory is named [baseDir/], no entry of a file [baseDir]. *)
Definition notRootEntry (baseDir : string) (h : FileHeader) : Prop :=
  if modeIsDir (headerMode h) then Name h ≠ baseDir +:+ "/"
  else Name h ≠ baseDir.

(** The owner may read, write and search. *)
Definition rwx (perm : N) : Prop :=
  os.readable perm = true ∧ os.writable perm = true ∧ os.searchable perm = true.

(** The tree below the directory at [root] is well formed: names are
    valid, what holds an entry is a directory, the owner may read, write
    and search every directory and read every file. *)
Record wfTree (fs : gmap (list string) Inode) (root : list string) : Prop := {
  wf_root : ∃ p, fs !! root = Some (Directory p);
  wf_names : ∀ rel, is_Some (fs !! (root ++ rel)) → Forall validName rel;
  wf_parent : ∀ rel name,
    is_Some (fs !! (root ++ rel ++ [name])) →
    ∃ p, fs !! (root ++ rel) = Some (Directory p);
  wf_dirs : ∀ rel p, fs !! (root ++ rel) = Some (Directory p) → rwx p;
  wf_files : ∀ rel p c,
    fs !! (root ++ rel) = Some (RegFile p c) → os.readable p = true
}.

(** The entry that [walkFn] writes for the file or directory at [rel]
    below [root]. *)
Definition entryFor (fs : gmap (list string) Inode) (root rel : list string)
           (h : FileHeader) : Prop :=
  match fs !! (root ++ rel) with
  | Some (Directory p) =>
      h = mkFileHeader (pathOf rel +:+ "/") (N.lor ModeDir (Perm p)) zip.Store (Bytes "")
  | Some (RegFile p c) =>
      h = mkFileHeader (pathOf rel) (Perm p) zip.Deflate c
  | None => False
  end.

(** What the walk adds to the archive for the tree at [rel] below
    [root]: only entries of files and directories at or below [rel],
    the root apart, none of them twice, and one for every regular file
    at or below [rel]. *)
Definition adds (fs : gmap (list string) Inode) (root rel : list string)
           (archive archive' : zip.Writer) : Prop :=
  zip.zipfile archive' = zip.zipfile archive
  ∧ ∃ new,
      zip.entries archive' = zip.entries archive ++ new
      ∧ NoDup new
      ∧ Forall (λ h, ∃ rel', rel ++ rel' ≠ [] ∧ entryFor fs root (rel ++ rel') h) new
      ∧ ∀ rel' p c,
          fs !! (root ++ rel ++ rel') = Some (RegFile p c) →
          ∃ h, h ∈ new ∧ entryFor fs root (rel ++ rel') h.

(** The directories on the way to [r] below the directory [dst] of the
    working directory are directories open to the owner, for as far as
    they exist. *)
Definition wayClear (dst : string) (w : World) (r : list string) : Prop :=
  ∀ j, (j ≤ length r)%nat →
       files w !! (cwd w ++ dst :: take j r) = None
       ∨ ∃ p, files w !! (cwd w ++ dst :: take j r) = Some (Directory p) ∧ rwx p.

(** Where a directory on the way exists, those before it do. *)
Definition wayClosed (dst : string) (w : World) (r : list string) : Prop :=
  ∀ j k, (k ≤ j ≤ length r)%nat →
         is_Some (files w !! (cwd w ++ dst :: take j r)) →
         is_Some (files w !! (cwd w ++ dst :: take k r)).

(** After [os.MkdirAll]: the directories to [r] are all there, and
    nothing that was there has changed. *)
Definition wayMade (dst : string) (w w' : World) (r : list string) : Prop :=
  cwd w' = cwd w ∧ umask w' = umask w
  ∧ (∀ j, (j ≤ length r)%nat →
          ∃ p, files w' !! (cwd w ++ dst :: take j r) = Some (Directory p) ∧ rwx p)
  ∧ (∀ loc, is_Some (files w !! loc) → files w' !! loc = files w !! loc)
  ∧ (∀ loc, (∀ j, (j ≤ length r)%nat → loc ≠ cwd w ++ dst :: take j r) →
            files w' !! loc = files w !! loc).





(** What is in [w] is in [w'], of the same kind and with the same
    permission bits: a directory as it was, a regular file perhaps with
    other bytes. *)
Definition keeps (w w' : World) : Prop :=
  ∀ loc i,
    files w !! loc = Some i →
    match i with
    | Directory p => files w' !! loc = Some (Directory p)
    | RegFile p _ => ∃ c, files w' !! loc = Some (RegFile p c)
    end.

(** A string of ASCII bytes. *)
Definition isASCII (s : string) : bool :=
  forallb (λ c, N_of_ascii c <? 128) (list_ascii_of_string s).

(** The entry that [walkFn] writes for the regular file [name] of the
    directory at [root]. *)
Definition fileEntry (tree : gmap (list string) Inode) (root : list string)
           (name : string) : FileHeader :=
  match tree !! (root ++ [name]) with
  | Some (RegFile p c) => mkFileHeader name (Perm p) zip.Deflate c
  | _ => mkFileHeader name 0 zip.Deflate (Bytes "")
  end.

(** The names of what lies directly in the directory at [root], in the
    order in which [filepath.Walk] visits them. *)
Definition visited (tree : gmap (list string) Inode) (root : list string)
  : list string :=
  merge_sort String.le (omap (os.childName root) (map_to_list tree).*1).

(** [extractedFilePath] in the loop of [Unarchive]. *)
Definition extractedFilePath (target : string) (file : FileHeader) : string :=
  filepath.Join [targetDirOf target; Name file].

(** What [Unarchive] has done for the entry [file] when it has gone
    through the entries [done], making the calls [new] and leaving the
    world [w']: it has asked for the directory of the extraction path;
    for the entry of a directory it has asked for the path itself, which
    is how [os.MkdirAll] begins; for the entry of a file it has created
    the path, and where the path leads there is a regular file with the
    bytes of an entry extracted to that place. *)
Definition extractedTo (target : string) (done : list FileHeader)
           (new : list Syscall) (w' : World) (file : FileHeader) : Prop :=
  let path := extractedFilePath target file in
  sys_stat (filepath.Dir path) ∈ new
  ∧ if modeIsDir (zip.Mode file) then sys_stat path ∈ new
    else sys_creat path ∈ new
         ∧ ∃ loc perm writer,
             os.namei w' path = inr loc
             ∧ files w' !! loc = Some (RegFile perm (data writer))
             ∧ writer ∈ done
             ∧ modeIsDir (zip.Mode writer) = false
             ∧ os.namei w' (extractedFilePath target writer) = inr loc.

(** The error [e] is that of the entry [file]: its method is not
    supported, or its file could not be created at the extraction
    path.  (Reading the bytes of an entry and writing them to the file
    that was created do not fail here: the container is well formed and
    the disk takes the bytes.) *)
Definition stoppedAt (target : string) (file : FileHeader) (e : error) : Prop :=
  e = ErrAlgorithm
  ∨ (modeIsDir (zip.Mode file) = false
     ∧ ∃ errno, e = PathError "open" (extractedFilePath target file) errno).

(** From [w] to [w'] calls were made, and nothing that was there has
    changed. *)
Definition extends (w w' : World) : Prop :=
  cwd w' = cwd w ∧ files w ⊆ files w' ∧ ∃ add, trace w' = add ++ trace w.

(** *** Worlds for the scenarios *)

Definition worldOf (l : list (list string * Inode)) (cwd : list string) : World :=
  mkWorld (list_to_map l) cwd 0x12 (λ _, None) [].

(** The working directory [/work] holds [a/b.txt] with content hello. *)
Definition helloWorld : World :=
  worldOf [([], Directory 0x1ed);
           (["work"], Directory 0x1ed);
           (["work"; "a"], Directory 0x1ed);
           (["work"; "a"; "b.txt"], RegFile 0x1a4 (Bytes "hello"))]
          ["work"].

(** [/work/a] holds three files; [secret] has mode 0000. *)
Definition lockedWorld : World :=
  worldOf [([], Directory 0x1ed);
           (["work"], Directory 0x1ed);
           (["work"; "a"], Directory 0x1ed);
           (["work"; "a"; "b.txt"], RegFile 0x1a4 (Bytes "hello"));
           (["work"; "a"; "secret"], RegFile 0 (Bytes "key"));
           (["work"; "a"; "z.txt"], RegFile 0x1a4 (Bytes "last"))]
          ["work"].

(** [/work/in.zip] has the directory entry [a/], the file entry [b.txt]
    and the file entry [c.txt]; in [/work/dst], [a] is a regular file. *)
Definition blockedWorld : World :=
  worldOf [([], Directory 0x1ed);
           (["work"], Directory 0x1ed);
           (["work"; "in.zip"],
            RegFile 0x1a4
              (Zip [mkFileHeader "b.txt" 0x1a4 zip.Deflate (Bytes "hello");
                    mkFileHeader "a/" (N.lor ModeDir 0x1ed) zip.Store (Bytes "");
                    mkFileHeader "c.txt" 0x1a4 zip.Deflate (Bytes "later")]));
           (["work"; "dst"], Directory 0x1ed);
           (["work"; "dst"; "a"], RegFile 0x1a4 (Bytes "in the way"))]
          ["work"].

(** [/work/in.zip] has three entries: a file, then a directory and a
    file in it whose names begin with [..]. *)
Definition escapeWorld : World :=
  worldOf [([], Directory 0x1ed);
           (["work"], Directory 0x1ed);
           (["work"; "in.zip"],
            RegFile 0x1a4
              (Zip [mkFileHeader "ok.txt" 0x1a4 zip.Deflate (Bytes "fine");
                    mkFileHeader "../out/" (N.lor ModeDir 0x1ed) zip.Store (Bytes "");
                    mkFileHeader "../out/evil.txt" 0x1a4 zip.Deflate (Bytes "gotcha")]));
           (["work"; "dst"], Directory 0x1ed)]
          ["work"].


(** [helloWorld] with a network that answers one URL. *)
Definition netWorld : World :=
  mkWorld (files helloWorld) (cwd helloWorld) (umask helloWorld)
          (λ u, if String.eqb u "http://example.com/a.zip"
                then Some (Bytes "PK-bytes") else None)
          [].

(** [/work/in.zip] has the directory entries [a/] and [a/b/]; in
    [/work/dst], [a] is a regular file. *)
Definition markersWorld : World :=
  worldOf [([], Directory 0x1ed);
           (["work"], Directory 0x1ed);
           (["work"; "in.zip"],
            RegFile 0x1a4
              (Zip [mkFileHeader "a/" (N.lor ModeDir 0x1ed) zip.Store (Bytes "");
                    mkFileHeader "a/b/" (N.lor ModeDir 0x1ed) zip.Store (Bytes "")]));
           (["work"; "dst"], Directory 0x1ed);
           (["work"; "dst"; "a"], RegFile 0x1a4 (Bytes "in the way"))]
          ["work"].

(** The directory [/work/e] is empty. *)
Definition emptyDirWorld : World :=
  worldOf [([], Directory 0x1ed);
           (["work"], Directory 0x1ed);
           (["work"; "e"], Directory 0x1ed)]
          ["work"].

(** [/work/a] holds the file [b.txt]; [/work/e] is empty; [/work/note]
    is a file. *)
Definition deskWorld : World :=
  worldOf [([], Directory 0x1ed);
           (["work"], Directory 0x1ed);
           (["work"; "a"], Directory 0x1ed);
           (["work"; "a"; "b.txt"], RegFile 0x1a4 (Bytes "hello"));
           (["work"; "e"], Directory 0x1ed);
           (["work"; "note"], RegFile 0x1a4 (Bytes "remember"))]
          ["work"].

(** [/work/shelf] holds three files, created in this order. *)
Definition shelfWorld : World :=
  worldOf [([], Directory 0x1ed);
           (["work"], Directory 0x1ed);
           (["work"; "shelf"], Directory 0x1ed);
           (["work"; "shelf"; "z.txt"], RegFile 0x1a4 (Bytes "last"));
           (["work"; "shelf"; "a.txt"], RegFile 0x1a4 (Bytes "lower"));
           (["work"; "shelf"; "B.txt"], RegFile 0x1a4 (Bytes "upper"))]
          ["work"].

(** [/work] with a network that answers one URL, which has a space in
    its path. *)
Definition spaceWorld : World :=
  mkWorld (files helloWorld) (cwd helloWorld) (umask helloWorld)
          (λ u, if String.eqb u "http://example.com/a b.zip"
                then Some (Bytes "PK-bytes") else None)
          [].

(** The result and the world after running [c] in [w]. *)
Definition run {A} (c : M A) (w : World) : result A * World := c w.

(** Two worlds with the same files, from the chain of calls between
    them. *)
Ltac same_files :=
  repeat match goal with
         | H : sameFiles _ _ |- _ => destruct H as (? & ? & ? & ?)
         end;
  repeat split; cbn; congruence.

(** * Properties *)

(** ** Running a call *)

Lemma bind_Ok {A B} (c : M A) (k : A → M B) w a w' :
  c w = (Ok a, w') → bind c k w = k a w'.
Proof. unfold bind. intros ->. reflexivity. Qed.

Lemma bind_Err {A B} (c : M A) (k : A → M B) w e w' :
  c w = (Err e, w') → bind c k w = (Err e, w').
Proof. unfold bind. intros ->. reflexivity. Qed.

Lemma emit_run s w :
  emit s w = (Ok tt, mkWorld (files w) (cwd w) (umask w) (network w) (s :: trace w)).
Proof. reflexivity. Qed.

(** ** Arguments of [Archive] *)

(** C7: when [source] or [target] is the empty string, [Archive] returns
    an error of kind [InvalidArgument] and the world is as it was: no
    file is created and no operation of the file system is performed. *)
Theorem Archive_empty_argument (source target : string) (w : World) :
  source = "" ∨ target = "" →
  ∃ msg, Archive source target w = (Err (errorString msg), w)
         ∧ kindOf (errorString msg) = InvalidArgument.
Proof.
  intros H. unfold Archive.
  destruct (String.eqb target "") eqn:Ht.
  - eexists. split; reflexivity.
  - destruct H as [-> | ->].
    + simpl. eexists. split; reflexivity.
    + discriminate Ht.
Qed.

Lemma Archive_empty_argument_witness :
  ("" = "" ∨ "out.zip" = "") ∧
  ∃ msg, Archive "" "out.zip" helloWorld = (Err (errorString msg), helloWorld)
         ∧ kindOf (errorString msg) = InvalidArgument.
Proof.
  split; [left; reflexivity |].
  apply (Archive_empty_argument "" "out.zip" helloWorld). left. reflexivity.
Defined.

(** With both arguments given [Archive] is [createArchive]. *)
Lemma Archive_createArchive source target :
  source ≠ "" → target ≠ "" → Archive source target = createArchive source target.
Proof.
  intros Hs Ht. unfold Archive.
  destruct (String.eqb_spec target ""); [contradiction |].
  destruct (String.eqb_spec source ""); [contradiction |]. reflexivity.
Qed.

(** ** What the calls of [os] do to the world *)

Lemma sameFiles_refl w : sameFiles w w.
Proof. repeat split. Qed.

Lemma sameFiles_trans w1 w2 w3 :
  sameFiles w1 w2 → sameFiles w2 w3 → sameFiles w1 w3.
Proof.
  intros (?&?&?&?) (?&?&?&?). repeat split; congruence.
Qed.

Lemma emit_sameFiles s w r w' : emit s w = (r, w') → sameFiles w w'.
Proof. intros [= <- <-]. repeat split. Qed.

Lemma namei_sameFiles w w' path :
  sameFiles w w' → os.namei w' path = os.namei w path.
Proof. intros (Hf & Hc & _). unfold os.namei. rewrite Hf, Hc. reflexivity. Qed.

Lemma statAt_sameFiles op path w r w' :
  os.statAt op path w = (r, w') → w' = w.
Proof.
  unfold os.statAt. destruct (os.namei w path); [intros [= _ <-]; reflexivity |].
  destruct (files w !! l); intros [= _ <-]; reflexivity.
Qed.

Lemma Stat_sameFiles path w r w' : os.Stat path w = (r, w') → sameFiles w w'.
Proof.
  unfold os.Stat, bind. rewrite emit_run. intros H.
  apply statAt_sameFiles in H. subst w'. repeat split.
Qed.

Lemma Lstat_sameFiles path w r w' : os.Lstat path w = (r, w') → sameFiles w w'.
Proof.
  unfold os.Lstat, bind. rewrite emit_run. intros H.
  apply statAt_sameFiles in H. subst w'. repeat split.
Qed.

Lemma Stat_trace path w r w' :
  os.Stat path w = (r, w') → trace w' = sys_stat path :: trace w.
Proof.
  unfold os.Stat, bind. rewrite emit_run. intros H.
  apply statAt_sameFiles in H. subst w'. reflexivity.
Qed.

Lemma Open_sameFiles path w r w' : os.Open path w = (r, w') → sameFiles w w'.
Proof.
  unfold os.Open, bind. rewrite emit_run.
  destruct (os.namei _ path); [intros [= _ <-]; repeat split |].
  destruct (files _ !! l) as [[perm c | perm] |];
    try destruct (os.readable perm); intros [= _ <-]; repeat split.
Qed.

Lemma ReadAll_sameFiles f w r w' : os.ReadAll f w = (r, w') → sameFiles w w'.
Proof.
  unfold os.ReadAll, bind. rewrite emit_run. cbn [files].
  destruct (files w !! os.fileLoc f) as [[perm c | perm] |];
    intros [= _ <-]; repeat split.
Qed.

Lemma readDirNames_sameFiles path w r w' :
  os.readDirNames path w = (r, w') → sameFiles w w'.
Proof.
  unfold os.readDirNames. unfold bind at 1.
  destruct (os.Open path w) as [[f | e] w1] eqn:Ho.
  - apply Open_sameFiles in Ho. unfold bind. rewrite emit_run. cbn [files].
    destruct (files w1 !! os.fileLoc f) as [[perm c | perm] |];
      intros [= _ <-]; (eapply sameFiles_trans; [exact Ho |]); repeat split.
  - apply Open_sameFiles in Ho. intros [= _ <-]. exact Ho.
Qed.

(** A file that [Create] made or emptied: where it is, and the world
    after. *)
Lemma Create_Ok path w f w1 :
  os.Create path w = (Ok f, w1) →
  ∃ perm, files w1 = <[os.fileLoc f := RegFile perm (Bytes "")]> (files w)
          ∧ cwd w1 = cwd w ∧ umask w1 = umask w ∧ network w1 = network w
          ∧ trace w1 = sys_creat path :: trace w.
Proof.
  unfold os.Create, bind. rewrite emit_run.
  destruct (os.namei _ path) as [errno | loc]; [discriminate |]. cbn [files].
  destruct (files w !! loc) as [[perm c | perm] |].
  - destruct (os.readable perm && os.writable perm); [| discriminate].
    intros [= <- <-]. exists perm. repeat split.
  - discriminate.
  - destruct (files w !! removelast loc) as [[pperm c | pperm] |];
      try discriminate.
    destruct (os.writable pperm); [| discriminate].
    intros [= <- <-]. eexists. repeat split.
Qed.

Lemma Create_Err path w e w1 :
  os.Create path w = (Err e, w1) →
  sameFiles w w1 ∧ trace w1 = sys_creat path :: trace w.
Proof.
  unfold os.Create, bind. rewrite emit_run.
  destruct (os.namei _ path) as [errno | loc];
    [intros [= _ <-]; repeat split |]. cbn [files].
  destruct (files w !! loc) as [[perm c | perm] |].
  - destruct (os.readable perm && os.writable perm); [discriminate |].
    intros [= _ <-]. repeat split.
  - intros [= _ <-]. repeat split.
  - destruct (files w !! removelast loc) as [[pperm c | pperm] |];
      try (intros [= _ <-]; repeat split).
    destruct (os.writable pperm); [discriminate |].
    intros [= _ <-]. repeat split.
Qed.

(** [zip.Close] on a regular file. *)
Lemma Close_regular archive w perm c :
  files w !! os.fileLoc (zip.zipfile archive) = Some (RegFile perm c) →
  zip.Close archive w =
  (Ok tt,
   mkWorld (<[os.fileLoc (zip.zipfile archive) :=
               RegFile perm (Zip (zip.entries archive))]> (files w))
           (cwd w) (umask w) (network w)
           (sys_write (os.fileLoc (zip.zipfile archive)) :: trace w)).
Proof.
  intros H. unfold zip.Close, os.WriteAll, bind. rewrite emit_run.
  cbn [files]. rewrite H. reflexivity.
Qed.

(** ** The three ways out of [createArchive] *)

Lemma createArchive_Create_Err source target w e w1 :
  os.Create target w = (Err e, w1) →
  createArchive source target w = (Err e, w1).
Proof. unfold createArchive. intros ->. reflexivity. Qed.

Lemma createArchive_Stat_Err source target w zipfile w1 e w2 :
  os.Create target w = (Ok zipfile, w1) →
  os.Stat source w1 = (Err e, w2) →
  createArchive source target w
  = (Err e, snd (zip.Close (zip.NewWriter zipfile) w2)).
Proof.
  unfold createArchive. intros -> ->.
  destruct (zip.Close _ w2). reflexivity.
Qed.

Lemma createArchive_Walk source target w zipfile w1 info w2 :
  os.Create target w = (Ok zipfile, w1) →
  os.Stat source w1 = (Ok info, w2) →
  let baseDir := if IsDir info then filepath.Base source else "" in
  let walked :=
    filepathWalk.Walk source (walkFn baseDir) (zip.NewWriter zipfile) w2 in
  createArchive source target w
  = (Ok tt, snd (zip.Close (snd (fst walked)) (snd walked))).
Proof.
  unfold createArchive. intros -> ->. cbv zeta.
  destruct (filepathWalk.Walk _ _ _ _) as [[err archive] w3]. cbn [fst snd].
  destruct (zip.Close archive w3). reflexivity.
Qed.

(** ** A source that does not exist *)

(** C6, as stated, fails.  In [helloWorld] there is no [x]; [Archive]
    creates the target [x] first, finds it as the source, archives it
    and returns nil.  And when the target cannot be created, here because
    it is the directory [a], the error is that of [os.Create], which is
    not [NotFound]. *)
Lemma Archive_missing_source_counterexample :
  (fst (os.Stat "x" helloWorld) = Err (PathError "stat" "x" ENOENT)
   ∧ fst (Archive "x" "x" helloWorld) = Ok tt
   ∧ containerAt (snd (Archive "x" "x" helloWorld)) ["work"; "x"]
     = Some [mkFileHeader "x" 0x1a4 zip.Deflate (Bytes "")])
  ∧ (fst (os.Stat "nope" helloWorld) = Err (PathError "stat" "nope" ENOENT)
     ∧ fst (Archive "nope" "a" helloWorld) = Err (PathError "open" "a" EISDIR)
     ∧ kindOf (PathError "open" "a" EISDIR) = IOError).
Proof. vm_compute. repeat split. Qed.

(** C6, amended: when the target file can be created and the source
    does not exist in the world with the target in it, [Archive] returns
    the error of [os.Stat], of kind [NotFound]; the target then holds a
    container without entries and no other file has changed. *)
Theorem Archive_missing_source
        (source target : string) (w w1 : World) (zipfile : os.File) :
  source ≠ "" → target ≠ "" →
  os.Create target w = (Ok zipfile, w1) →
  fst (os.Stat source w1) = Err (PathError "stat" source ENOENT) →
  ∃ w', Archive source target w = (Err (PathError "stat" source ENOENT), w')
        ∧ kindOf (PathError "stat" source ENOENT) = NotFound
        ∧ containerAt w' (os.fileLoc zipfile) = Some []
        ∧ ∀ loc, loc ≠ os.fileLoc zipfile → files w' !! loc = files w !! loc.
Proof.
  intros Hs Ht Hc Hstat.
  rewrite Archive_createArchive by assumption.
  destruct (os.Stat source w1) as [r w2] eqn:Hst. cbn [fst] in Hstat. subst r.
  rewrite (createArchive_Stat_Err _ _ _ _ _ _ _ Hc Hst).
  destruct (Create_Ok _ _ _ _ Hc) as (perm & Hf & _).
  destruct (Stat_sameFiles _ _ _ _ Hst) as (Hf2 & _).
  assert (Hl : files w2 !! os.fileLoc (zip.zipfile (zip.NewWriter zipfile))
               = Some (RegFile perm (Bytes ""))).
  { rewrite Hf2, Hf. cbn [zip.zipfile zip.NewWriter]. apply lookup_insert_eq. }
  rewrite (Close_regular _ _ _ _ Hl). cbn [snd zip.zipfile zip.NewWriter].
  eexists. split; [reflexivity |]. split; [reflexivity |]. split.
  - unfold containerAt. cbn [files]. rewrite lookup_insert_eq. reflexivity.
  - intros loc Hne. cbn [files].
    rewrite lookup_insert_ne by congruence. rewrite Hf2, Hf.
    rewrite lookup_insert_ne by congruence. reflexivity.
Qed.

Lemma Archive_missing_source_witness :
  let zipfile := os.mkFile "out.zip" ["work"; "out.zip"] in
  let w1 := snd (os.Create "out.zip" helloWorld) in
  ("nope" ≠ "" ∧ "out.zip" ≠ ""
   ∧ os.Create "out.zip" helloWorld = (Ok zipfile, w1)
   ∧ fst (os.Stat "nope" w1) = Err (PathError "stat" "nope" ENOENT))
  ∧ ∃ w', Archive "nope" "out.zip" helloWorld
          = (Err (PathError "stat" "nope" ENOENT), w')
          ∧ kindOf (PathError "stat" "nope" ENOENT) = NotFound
          ∧ containerAt w' (os.fileLoc zipfile) = Some []
          ∧ ∀ loc, loc ≠ os.fileLoc zipfile →
                   files w' !! loc = files helloWorld !! loc.
Proof.
  intros zipfile w1.
  assert (H1 : "nope" ≠ "") by discriminate.
  assert (H2 : "out.zip" ≠ "") by discriminate.
  assert (H3 : os.Create "out.zip" helloWorld = (Ok zipfile, w1))
    by (vm_compute; reflexivity).
  assert (H4 : fst (os.Stat "nope" w1) = Err (PathError "stat" "nope" ENOENT))
    by (vm_compute; reflexivity).
  split; [repeat split; assumption |].
  exact (Archive_missing_source "nope" "out.zip" helloWorld w1 zipfile H1 H2 H3 H4).
Defined.

(** ** Errors inside the walk *)

(** An error of [createArchive] is that of [os.Create] or that of
    [os.Stat]: nothing that [filepath.Walk] returns comes out. *)
Lemma createArchive_error_origin source target w e w' :
  createArchive source target w = (Err e, w') →
  (∃ w1, os.Create target w = (Err e, w1))
  ∨ (∃ zipfile w1 w2, os.Create target w = (Ok zipfile, w1)
                      ∧ os.Stat source w1 = (Err e, w2)).
Proof.
  destruct (os.Create target w) as [[zipfile | e1] w1] eqn:Hc.
  - destruct (os.Stat source w1) as [[info | e2] w2] eqn:Hs.
    + pose proof (createArchive_Walk _ _ _ _ _ _ _ Hc Hs) as H.
      cbv zeta in H. rewrite H. discriminate.
    + rewrite (createArchive_Stat_Err _ _ _ _ _ _ _ Hc Hs).
      intros [= -> _]. right. eauto.
  - rewrite (createArchive_Create_Err _ _ _ _ _ Hc).
    intros [= -> _]. left. eauto.
Qed.

(** C4, at the failing input.  In [lockedWorld] the file [a/secret]
    cannot be opened: the callback returns that error and
    [filepath.Walk] stops and returns it ([z.txt] is not visited), but
    [Archive] returns nil.  The container that is left has the entries
    written so far. *)
Theorem Archive_walk_error_lost :
  let zipfile := os.mkFile "out.zip" ["work"; "out.zip"] in
  let w2 := snd (os.Stat "a" (snd (os.Create "out.zip" lockedWorld))) in
  fst (fst (filepathWalk.Walk "a" (walkFn "a") (zip.NewWriter zipfile) w2))
  = Some (PathError "open" "a/secret" EACCES)
  ∧ fst (Archive "a" "out.zip" lockedWorld) = Ok tt
  ∧ containerAt (snd (Archive "a" "out.zip" lockedWorld)) ["work"; "out.zip"]
    = Some [mkFileHeader "b.txt" 0x1a4 zip.Deflate (Bytes "hello");
            mkFileHeader "secret" 0 zip.Deflate (Bytes "")].
Proof. vm_compute. repeat split. Qed.

(** ** Failures while extracting *)

(** [Unarchive] stops at the first entry whose extraction fails and
    returns its error; the world is the one that the entries before it
    and the failed step left. *)
Lemma extractAll_abort target done file rest w w1 e w2 :
  extractAll target done w = (Ok tt, w1) →
  extract target file w1 = (Err e, w2) →
  extractAll target (done ++ file :: rest) w = (Err e, w2).
Proof.
  revert w. induction done as [| f done IH]; intros w Hd Hf.
  - injection Hd as <-. cbn [app extractAll]. apply (bind_Err _ _ _ _ _ Hf).
  - cbn [app extractAll] in Hd |- *. unfold bind in Hd |- *.
    destruct (extract target f w) as [[[] | e'] w'] eqn:Hx; [| discriminate].
    apply IH; assumption.
Qed.

(** The entry of a directory cannot make [Unarchive] fail: what
    [os.Stat] and [os.MkdirAll] answer is not looked at. *)
Lemma extract_directory_never_fails target file w :
  modeIsDir (zip.Mode file) = true →
  zip.supported (Method file) = true →
  fst (extract target file w) = Ok tt.
Proof.
  intros Hd Hm. unfold extract, zip.Open. rewrite Hm, Hd.
  unfold bind at 1. unfold bind at 1. unfold try at 1.
  destruct (os.Stat _ w) as [st w1].
  unfold bind at 1.
  destruct (IsNotExist st).
  - unfold try at 1. destruct (os.MkdirAll _ _ w1) as [r w2].
    unfold bind, try. destruct (os.MkdirAll _ _ w2). reflexivity.
  - unfold ret at 1. unfold bind, try. destruct (os.MkdirAll _ _ w1).
    reflexivity.
Qed.

(** C8, at the failing input.  In [blockedWorld] the directory of the
    entry [a/] cannot be made, because [dst/a] is a regular file:
    [os.MkdirAll] fails, and [Unarchive] goes on to the next entry and
    returns nil.  The file extracted before is there. *)
Theorem Unarchive_mkdir_failure_lost :
  let after := snd (Unarchive "in.zip" "dst" blockedWorld) in
  fst (os.MkdirAll "dst/a" (N.lor ModeDir 0x1ed) blockedWorld)
  = Err (PathError "mkdir" "dst/a" ENOTDIR)
  ∧ fst (Unarchive "in.zip" "dst" blockedWorld) = Ok tt
  ∧ fileAt after ["work"; "dst"; "b.txt"] = Some (Bytes "hello")
  ∧ files after !! ["work"; "dst"; "a"] = Some (RegFile 0x1a4 (Bytes "in the way"))
  ∧ fileAt after ["work"; "dst"; "c.txt"] = Some (Bytes "later").
Proof. vm_compute. repeat split. Qed.

(** ** The scenarios of the archive *)

(** C2, as stated, fails.  With the source [a], the directory with the
    one file [b.txt], the container has one entry, not two: the root
    directory is skipped and the name of the file is [b.txt]. *)
Lemma Archive_hello_counterexample :
  let after := snd (Archive "a" "out.zip" helloWorld) in
  os.namei helloWorld "a" = inr ["work"; "a"]
  ∧ files helloWorld !! ["work"; "a"] = Some (Directory 0x1ed)
  ∧ fileAt helloWorld ["work"; "a"; "b.txt"] = Some (Bytes "hello")
  ∧ ∃ File, containerAt after ["work"; "out.zip"] = Some File
            ∧ length File ≠ 2%nat
            ∧ ¬ (∃ h, h ∈ File ∧ Name h = "a/")
            ∧ ¬ (∃ h, h ∈ File ∧ Name h = "a/b.txt").
Proof.
  vm_compute. repeat split. eexists. split; [reflexivity |].
  split; [discriminate |].
  split; intros (h & Hin & Hn); apply list_elem_of_singleton in Hin;
    subst h; discriminate Hn.
Qed.

(** C3, at the failing input.  In [helloWorld] the directory [/work/a]
    is archived by its absolute path.  The base directory is [a], and
    [walkFn] trims the prefix [a/] from the visited paths; these begin
    with [/work/a], so nothing is trimmed, and the stored names begin
    with a separator.  With the source [a/] the visited root is [a/]:
    the prefix is trimmed from it, the name left is empty, and the entry
    of the root directory is stored as [/]. *)
Theorem Archive_absolute_source_names :
  filepath.Base "/work/a" = "a"
  ∧ strings.TrimPrefix (filepath.ToSlash "/work/a/b.txt") "a/" = "/work/a/b.txt"
  ∧ fst (Archive "/work/a" "/out.zip" helloWorld) = Ok tt
  ∧ containerAt (snd (Archive "/work/a" "/out.zip" helloWorld)) ["out.zip"]
    = Some [mkFileHeader "/work/a/" (N.lor ModeDir 0x1ed) zip.Store (Bytes "");
            mkFileHeader "/work/a/b.txt" 0x1a4 zip.Deflate (Bytes "hello")]
  ∧ filepath.rooted "/work/a/b.txt" = true
  ∧ fst (Archive "a/" "out.zip" helloWorld) = Ok tt
  ∧ containerAt (snd (Archive "a/" "out.zip" helloWorld)) ["work"; "out.zip"]
    = Some [mkFileHeader "/" (N.lor ModeDir 0x1ed) zip.Store (Bytes "");
            mkFileHeader "b.txt" 0x1a4 zip.Deflate (Bytes "hello")].
Proof. vm_compute. repeat split. Qed.

(** C5, as stated, fails.  With the source [.] the base directory name
    is [.], the relative name computed for the root directory is [.]
    too, and the entry is written all the same, as [./]. *)
Lemma Archive_root_counterexample :
  filepath.Base "." = "."
  ∧ filepath.ToSlash (filepath.Join [filepath.Base "."; "."]) = filepath.Base "."
  ∧ containerAt (snd (Archive "." "/out.zip" helloWorld)) ["out.zip"]
    = Some [mkFileHeader "./" (N.lor ModeDir 0x1ed) zip.Store (Bytes "");
            mkFileHeader "a/" (N.lor ModeDir 0x1ed) zip.Store (Bytes "");
            mkFileHeader "a/b.txt" 0x1a4 zip.Deflate (Bytes "hello")].
Proof. vm_compute. repeat split. Qed.


(** ** Strings *)

Lemma string_app_cons c s t : String c s +:+ t = String c (s +:+ t).
Proof. reflexivity. Qed.

Lemma string_app_nil_l s : "" +:+ s = s.
Proof. reflexivity. Qed.

Lemma string_app_nil_r s : s +:+ "" = s.
Proof. induction s as [| c s IH]; [reflexivity |]. rewrite string_app_cons, IH. reflexivity. Qed.

Lemma string_app_assoc s t u : (s +:+ t) +:+ u = s +:+ t +:+ u.
Proof.
  induction s as [| c s IH]; [reflexivity |].
  rewrite !string_app_cons, IH. reflexivity.
Qed.

Lemma string_length_app s t : String.length (s +:+ t) = (String.length s + String.length t)%nat.
Proof.
  induction s as [| c s IH]; [reflexivity |].
  rewrite string_app_cons. cbn [String.length]. rewrite IH. reflexivity.
Qed.

Lemma string_app_inv_tail s t u : s +:+ u = t +:+ u → s = t.
Proof.
  revert t. induction s as [| c s IH]; intros [| d t] H.
  - reflexivity.
  - apply (f_equal String.length) in H. rewrite string_app_nil_l, string_length_app in H.
    cbn [String.length] in H. lia.
  - apply (f_equal String.length) in H. rewrite string_app_nil_l, string_length_app in H.
    cbn [String.length] in H. lia.
  - rewrite !string_app_cons in H. injection H as -> H. f_equal. apply IH, H.
Qed.

Lemma stripPrefix_app p s : strings.stripPrefix p (p +:+ s) = Some s.
Proof.
  induction p as [| c p IH]; [reflexivity |].
  rewrite string_app_cons. cbn [strings.stripPrefix].
  rewrite Ascii.eqb_refl. exact IH.
Qed.

Lemma stripPrefix_Some p s r : strings.stripPrefix p s = Some r → s = p +:+ r.
Proof.
  revert s. induction p as [| c p IH]; intros s H.
  - injection H as ->. reflexivity.
  - destruct s as [| d s]; [discriminate |]. cbn [strings.stripPrefix] in H.
    destruct (Ascii.eqb_spec c d) as [-> |]; [| discriminate].
    rewrite string_app_cons. f_equal. apply IH, H.
Qed.

Lemma ContainsByte_app s t b :
  strings.ContainsByte (s +:+ t) b = strings.ContainsByte s b || strings.ContainsByte t b.
Proof.
  induction s as [| c s IH]; [reflexivity |].
  rewrite string_app_cons. cbn [strings.ContainsByte]. rewrite IH. apply orb_assoc.
Qed.

Lemma HasSuffix_app s suffix : strings.HasSuffix (s +:+ suffix) suffix = true.
Proof.
  induction s as [| c s IH].
  - rewrite string_app_nil_l. destruct suffix; cbn [strings.HasSuffix];
      rewrite String.eqb_refl; reflexivity.
  - rewrite string_app_cons. cbn [strings.HasSuffix]. rewrite IH. apply orb_true_r.
Qed.

(** ** [strings.Split] and [strings.Join] *)

Lemma Split_nonempty s sep : strings.Split s sep ≠ [].
Proof.
  destruct s as [| c s]; [discriminate |]. cbn [strings.Split].
  destruct (Ascii.eqb c sep); [discriminate |].
  destruct (strings.Split s sep); discriminate.
Qed.

Lemma Split_no_sep s sep :
  Forall (λ e, strings.ContainsByte e sep = false) (strings.Split s sep).
Proof.
  induction s as [| c s IH]; [repeat constructor |].
  cbn [strings.Split]. destruct (Ascii.eqb c sep) eqn:Hc.
  - constructor; [reflexivity | exact IH].
  - destruct (strings.Split s sep) as [| e es].
    + repeat constructor. cbn [strings.ContainsByte]. rewrite Hc. reflexivity.
    + inversion IH as [| ? ? He Hes]; subst. constructor; [| exact Hes].
      cbn [strings.ContainsByte]. rewrite Hc, He. reflexivity.
Qed.

Lemma Split_app_sep a r sep :
  strings.Split (a +:+ String sep r) sep
  = (strings.Split a sep ++ strings.Split r sep)%list.
Proof.
  induction a as [| c a IH].
  - rewrite string_app_nil_l. cbn [strings.Split]. rewrite Ascii.eqb_refl. reflexivity.
  - rewrite string_app_cons. cbn [strings.Split]. rewrite IH.
    destruct (Ascii.eqb c sep); [reflexivity |].
    pose proof (Split_nonempty a sep).
    destruct (strings.Split a sep); [contradiction | reflexivity].
Qed.

Lemma Split_plain e sep :
  strings.ContainsByte e sep = false → strings.Split e sep = [e].
Proof.
  induction e as [| c e IH]; [reflexivity |]. cbn [strings.ContainsByte strings.Split].
  intros [Hc He]%orb_false_elim. rewrite Hc, (IH He). reflexivity.
Qed.

Lemma Join_cons e l : l ≠ [] → strings.Join (e :: l) "/" = e +:+ "/" +:+ strings.Join l "/".
Proof. destruct l; [contradiction | reflexivity]. Qed.

Lemma pathOf_cons e l : l ≠ [] → pathOf (e :: l) = e +:+ "/" +:+ pathOf l.
Proof. apply Join_cons. Qed.

Lemma pathOf_snoc l e : l ≠ [] → pathOf (l ++ [e]) = pathOf l +:+ "/" +:+ e.
Proof.
  induction l as [| x l IH]; [contradiction |]. intros _.
  destruct l as [| y l]; [reflexivity |].
  change ((x :: y :: l) ++ [e])%list with (x :: y :: (l ++ [e]))%list.
  rewrite pathOf_cons by discriminate.
  change (y :: (l ++ [e]))%list with ((y :: l) ++ [e])%list.
  rewrite IH by discriminate.
  rewrite (pathOf_cons x (y :: l)) by discriminate.
  rewrite !string_app_assoc. reflexivity.
Qed.

Lemma Split_Join l :
  l ≠ [] →
  Forall (λ e, strings.ContainsByte e "/" = false) l →
  strings.Split (strings.Join l "/") "/" = l.
Proof.
  induction l as [| e l IH]; [contradiction |]. intros _ Hl.
  inversion Hl as [| ? ? He Hes]; subst.
  destruct l as [| e' l]; [apply Split_plain, He |].
  rewrite Join_cons by discriminate.
  change ("/" +:+ strings.Join (e' :: l) "/") with (String "/" (strings.Join (e' :: l) "/")).
  rewrite Split_app_sep, (Split_plain _ _ He), IH by (discriminate || assumption).
  reflexivity.
Qed.

(** ** [filepath.Clean] and [filepath.Join] *)

Lemma cleanElems_plain isRooted out elems :
  Forall plainElement out →
  Forall (λ e, strings.ContainsByte e "/" = false) elems →
  Forall plainElement (filepath.cleanElems isRooted out elems).
Proof.
  revert out. induction elems as [| e elems IH]; intros out Hout Hel; [exact Hout |].
  inversion Hel as [| ? ? He Hes]; subst. cbn [filepath.cleanElems].
  destruct (String.eqb_spec e ""); [apply IH; assumption |].
  destruct (String.eqb_spec e "."); [apply IH; assumption |].
  destruct (String.eqb_spec e "..").
  - destruct out as [| top out'].
    + destruct isRooted; apply IH; try assumption.
      constructor; [split; assumption | constructor].
    + destruct (String.eqb top "..").
      * apply IH; [| assumption]. constructor; [split; assumption | assumption].
      * apply IH; [| assumption]. inversion Hout; assumption.
  - apply IH; [| assumption]. constructor; [split; assumption | assumption].
Qed.

Lemma noEmptyElement_nonempty p : noEmptyElement p → p ≠ "".
Proof. intros H ->. inversion H; congruence. Qed.

Lemma noEmptyElement_relative p : noEmptyElement p → filepath.rooted p = false.
Proof.
  destruct p as [| c p]; [reflexivity |]. unfold noEmptyElement. cbn.
  unfold filepath.IsPathSeparator.
  destruct (Ascii.eqb c filepath.Separator); [| reflexivity].
  intros H. inversion H; congruence.
Qed.

Lemma Clean_noEmptyElement p :
  filepath.rooted p = false → noEmptyElement (filepath.Clean p).
Proof.
  intros Hr. unfold filepath.Clean. rewrite Hr.
  destruct (String.eqb p ""); [repeat constructor; discriminate |].
  pose proof (cleanElems_plain false [] (strings.Split p filepath.Separator)
                (List.Forall_nil _) (Split_no_sep p _)) as Hp.
  apply Forall_rev in Hp.
  destruct (rev _) as [| e out] eqn:Hout; [repeat constructor; discriminate |].
  unfold noEmptyElement. rewrite Split_Join.
  - eapply Forall_impl; [exact Hp |]. intros x [Hx _]. exact Hx.
  - discriminate.
  - eapply Forall_impl; [exact Hp |]. intros x [_ Hx]. exact Hx.
Qed.

Lemma rooted_app p s : p ≠ "" → filepath.rooted (p +:+ s) = filepath.rooted p.
Proof. destruct p; [congruence | reflexivity]. Qed.

Lemma Join_two path name :
  path ≠ "" →
  filepath.Join [path; name] = filepath.Clean (path +:+ "/" +:+ name).
Proof.
  intros H. cbn [filepath.Join].
  destruct (String.eqb_spec path ""); [contradiction | reflexivity].
Qed.

Lemma Join_one x : x ≠ "" → filepath.Join [x] = filepath.Clean x.
Proof.
  intros H. cbn [filepath.Join].
  destruct (String.eqb_spec x ""); [contradiction | reflexivity].
Qed.

Lemma Join_noEmptyElement path name :
  noEmptyElement path → noEmptyElement (filepath.Join [path; name]).
Proof.
  intros H. rewrite Join_two by (apply noEmptyElement_nonempty, H).
  apply Clean_noEmptyElement.
  rewrite rooted_app by (apply noEmptyElement_nonempty, H).
  apply noEmptyElement_relative, H.
Qed.

Lemma TrimPrefix_noEmptyElement path a :
  noEmptyElement path → noEmptyElement (strings.TrimPrefix path (a +:+ "/")).
Proof.
  intros H. unfold strings.TrimPrefix.
  destruct (strings.stripPrefix _ path) as [r |] eqn:Hs; [| exact H].
  apply stripPrefix_Some in Hs. subst path. unfold noEmptyElement in H |- *.
  rewrite string_app_assoc in H.
  change ("/" +:+ r) with (String filepath.Separator r) in H.
  rewrite Split_app_sep in H. apply Forall_app in H as [_ H]. exact H.
Qed.

Lemma ToSlash_id path : filepath.ToSlash path = path.
Proof. reflexivity. Qed.

(** The name of an entry is relative when the visited path has no empty
    element. *)
Lemma relativeName_relative baseDir path name n :
  baseDir ≠ "" →
  noEmptyElement path →
  relativeName baseDir path name = Some n →
  noEmptyElement n.
Proof.
  intros Hb Hp. unfold relativeName.
  destruct (String.eqb_spec baseDir ""); [contradiction |]. cbn [negb].
  rewrite !ToSlash_id.
  destruct (String.eqb_spec baseDir ".") as [-> |].
  - intros [= <-]. apply Clean_noEmptyElement. reflexivity.
  - pose proof (TrimPrefix_noEmptyElement path baseDir Hp) as Ht.
    rewrite Join_one by (apply noEmptyElement_nonempty, Ht).
    destruct (String.eqb baseDir _); [discriminate |]. intros [= <-].
    apply Clean_noEmptyElement, noEmptyElement_relative, Ht.
Qed.

Lemma relativeName_not_base baseDir path name n :
  baseDir ≠ "" → baseDir ≠ "." →
  relativeName baseDir path name = Some n → n ≠ baseDir.
Proof.
  intros Hb Hd. unfold relativeName.
  destruct (String.eqb_spec baseDir ""); [contradiction |]. cbn [negb].
  destruct (String.eqb_spec baseDir "."); [contradiction |].
  destruct (String.eqb_spec baseDir
              (filepath.ToSlash (filepath.Join
                 [strings.TrimPrefix (filepath.ToSlash path) (baseDir +:+ "/")])))
    as [| Hne]; [discriminate |].
  intros [= <-] Heq. apply Hne. symmetry. exact Heq.
Qed.

Lemma Base_nonempty path : filepath.Base path ≠ "".
Proof.
  unfold filepath.Base. destruct (String.eqb path ""); [discriminate |].
  destruct (String.eqb_spec (filepath.lastElement (filepath.trimTrailingSeparators path)) "");
    [discriminate | assumption].
Qed.

(** ** An invariant of [filepath.Walk] *)

Section WalkInvariant.
Context {S : Type} (walkFn : @filepathWalk.WalkFunc S).
Context (P : string → Prop) (Q : S → World → Prop).
Hypothesis P_Join : ∀ path name, P path → P (filepath.Join [path; name]).
Hypothesis Q_trace : ∀ s w w', Q s w → sameFiles w w' → Q s w'.
Hypothesis Q_walkFn :
  ∀ path info err s w r s' w',
    P path → Q s w → walkFn path info err s w = ((r, s'), w') → Q s' w'.

Lemma rangeNames_invariant walkRec path names :
  (∀ filename fileInfo s w r s' w',
     P filename → Q s w → walkRec filename fileInfo s w = ((r, s'), w') → Q s' w') →
  P path →
  ∀ s w r s' w',
    Q s w →
    filepathWalk.rangeNames walkRec walkFn path names s w = ((r, s'), w') →
    Q s' w'.
Proof.
  intros Hrec Hp. induction names as [| name names IH]; intros s w r s' w' Hq.
  - intros [= _ <- <-]. exact Hq.
  - cbn [filepathWalk.rangeNames].
    destruct (os.Lstat _ w) as [[fileInfo | err] w1] eqn:Hl;
      apply Lstat_sameFiles in Hl; pose proof (Q_trace _ _ _ Hq Hl) as Hq1.
    + destruct (walkRec _ fileInfo s w1) as [[err s2] w2] eqn:Hw.
      pose proof (Hrec _ _ _ _ _ _ _ (P_Join _ name Hp) Hq1 Hw) as Hq2.
      destruct err as [e |]; [| apply IH, Hq2].
      destruct (negb (IsDir fileInfo) || negb (filepathWalk.isSkipDir e));
        [intros [= _ <- <-]; exact Hq2 | apply IH, Hq2].
    + destruct (walkFn _ None (Some err) s w1) as [[err' s2] w2] eqn:Hw.
      pose proof (Q_walkFn _ _ _ _ _ _ _ _ (P_Join _ name Hp) Hq1 Hw) as Hq2.
      destruct err' as [e |]; [| apply IH, Hq2].
      destruct (filepathWalk.isSkipDir e);
        [apply IH, Hq2 | intros [= _ <- <-]; exact Hq2].
Qed.

Lemma walk_invariant n :
  ∀ path info s w r s' w',
    P path → Q s w →
    filepathWalk.walk n path info walkFn s w = ((r, s'), w') → Q s' w'.
Proof.
  induction n as [| n IH]; intros path info s w r s' w' Hp Hq.
  - intros [= _ <- <-]. exact Hq.
  - cbn [filepathWalk.walk].
    destruct (negb (IsDir info)); [apply Q_walkFn; assumption |].
    destruct (os.readDirNames path w) as [names w1] eqn:Hrd.
    apply readDirNames_sameFiles in Hrd.
    pose proof (Q_trace _ _ _ Hq Hrd) as Hq1.
    destruct (walkFn path (Some info) _ s w1) as [[err1 s2] w2] eqn:Hw.
    pose proof (Q_walkFn _ _ _ _ _ _ _ _ Hp Hq1 Hw) as Hq2.
    destruct names as [names | e]; [| intros [= _ <- <-]; exact Hq2].
    destruct err1; [intros [= _ <- <-]; exact Hq2 |].
    apply rangeNames_invariant; [| assumption..].
    intros filename fileInfo s0 w0 r0 s0' w0' Hp0 Hq0. apply IH; assumption.
Qed.

Lemma Walk_invariant root s w r s' w' :
  P root → Q s w →
  filepathWalk.Walk root walkFn s w = ((r, s'), w') → Q s' w'.
Proof.
  intros Hp Hq. unfold filepathWalk.Walk.
  destruct (os.Lstat root w) as [[info | err] w1] eqn:Hl;
    apply Lstat_sameFiles in Hl; pose proof (Q_trace _ _ _ Hq Hl) as Hq1.
  - destruct (filepathWalk.walk _ root info walkFn s w1) as [[err s2] w2] eqn:Hw.
    pose proof (walk_invariant _ _ _ _ _ _ _ _ Hp Hq1 Hw) as Hq2.
    destruct err as [e |]; [destruct (filepathWalk.isSkipDir e) |];
      intros [= _ <- <-]; exact Hq2.
  - destruct (walkFn root None (Some err) s w1) as [[err' s2] w2] eqn:Hw.
    pose proof (Q_walkFn _ _ _ _ _ _ _ _ Hp Hq1 Hw) as Hq2.
    destruct err' as [e |]; [destruct (filepathWalk.isSkipDir e) |];
      intros [= _ <- <-]; exact Hq2.
Qed.

End WalkInvariant.

(** ** The callback of [createArchive] *)

Lemma CreateHeader_supported archive fh :
  zip.supported (Method fh) = true →
  zip.CreateHeader archive fh
  = Ok (zip.mkWriter (zip.zipfile archive) (zip.entries archive)
          (Some (zip.setData
                   (if strings.HasSuffix (Name fh) "/"
                    then zip.setMethod fh zip.Store else fh) (Bytes "")))).
Proof.
  intros H. unfold zip.CreateHeader.
  destruct (strings.HasSuffix (Name fh) "/"); [reflexivity |].
  rewrite H. reflexivity.
Qed.

(** What [walkFn] does with a file it is given: it computes the name,
    and unless the entry is skipped writes a header and, for a regular
    file, its bytes. *)
Lemma walkFn_info baseDir path info archive w :
  walkFn baseDir path (Some info) None archive w =
  match relativeName baseDir path (fiName info) with
  | None => ((None, archive), w)
  | Some n =>
      let header :=
        mkFileHeader (if IsDir info then n +:+ "/" else n) (fiMode info)
                     (if IsDir info then zip.Store else zip.Deflate) (Bytes "") in
      match zip.CreateHeader archive header with
      | Err err => ((Some err, archive), w)
      | Ok archive =>
          if IsDir info then ((None, archive), w)
          else match os.Open path w with
               | (Err err, w) => ((Some err, archive), w)
               | (Ok file, w) =>
                   match zip.copyIn archive file w with
                   | (Err err, w) => ((Some err, archive), w)
                   | (Ok archive, w) => ((None, archive), w)
                   end
               end
      end
  end.
Proof.
  unfold walkFn, relativeName, zip.FileInfoHeader.
  destruct (negb (String.eqb baseDir "")).
  - destruct (String.eqb baseDir ".").
    + cbn [Name zip.setName headerMode Method data zip.setMethod].
      destruct (IsDir info); reflexivity.
    + cbn [Name zip.setName headerMode Method data zip.setMethod].
      destruct (String.eqb baseDir _); [reflexivity |].
      cbn [Name zip.setName headerMode Method data zip.setMethod].
      destruct (IsDir info); reflexivity.
  - cbn [Name zip.setName headerMode Method data zip.setMethod].
    destruct (IsDir info); reflexivity.
Qed.

Lemma copyIn_entries (R : FileHeader → Prop) archive file w archive' w' :
  (∀ h c, R h → R (zip.setData h c)) →
  zip.copyIn archive file w = (Ok archive', w') →
  Forall R (zip.entries archive) →
  Forall R (zip.entries archive')
  ∧ sameFiles w w' ∧ zip.zipfile archive' = zip.zipfile archive.
Proof.
  intros HR. unfold zip.copyIn. unfold bind at 1.
  destruct (os.ReadAll file w) as [[c | e] w1] eqn:Hr; [| discriminate].
  apply ReadAll_sameFiles in Hr.
  destruct (zip.last archive) as [h |] eqn:Hl.
  - destruct (strings.HasSuffix (Name h) "/").
    + destruct (isEmpty c); [| discriminate]. intros [= <- <-]. auto.
    + intros [= <- <-] H. split; [| auto].
      unfold zip.entries in H |- *. cbn [zip.dir zip.last]. rewrite Hl in H.
      apply Forall_app in H as [H1 H2]. apply Forall_app. split; [exact H1 |].
      inversion H2; subst. constructor; [apply HR; assumption | constructor].
  - intros [= <- <-]. auto.
Qed.

Lemma copyIn_sameFiles archive file w r w' :
  zip.copyIn archive file w = (r, w') → sameFiles w w'.
Proof.
  unfold zip.copyIn. unfold bind at 1.
  destruct (os.ReadAll file w) as [[c | e] w1] eqn:Hr;
    apply ReadAll_sameFiles in Hr; [| intros [= _ <-]; exact Hr].
  destruct (zip.last archive) as [h |].
  - destruct (strings.HasSuffix (Name h) "/").
    + destruct (isEmpty c); intros [= _ <-]; exact Hr.
    + intros [= _ <-]; exact Hr.
  - intros [= _ <-]; exact Hr.
Qed.

(** [walkFn] keeps a property of the names and modes of the entries
    when the entry it writes has it. *)
Lemma walkFn_entries baseDir (R : string → N → Prop)
      path info err archive w r archive' w' :
  walkFn baseDir path info err archive w = ((r, archive'), w') →
  (∀ fi n, info = Some fi →
           relativeName baseDir path (fiName fi) = Some n →
           R (if IsDir fi then n +:+ "/" else n) (fiMode fi)) →
  Forall (λ h, R (Name h) (headerMode h)) (zip.entries archive) →
  Forall (λ h, R (Name h) (headerMode h)) (zip.entries archive')
  ∧ sameFiles w w' ∧ zip.zipfile archive' = zip.zipfile archive.
Proof.
  intros Hrun Hnew Hold.
  destruct err as [e |].
  { unfold walkFn in Hrun. injection Hrun as _ <- <-.
    split; [exact Hold | split; [apply sameFiles_refl | reflexivity]]. }
  destruct info as [info |].
  2:{ unfold walkFn in Hrun. injection Hrun as _ <- <-.
      split; [exact Hold | split; [apply sameFiles_refl | reflexivity]]. }
  rewrite walkFn_info in Hrun.
  destruct (relativeName baseDir path (fiName info)) as [n |] eqn:Hn.
  2:{ injection Hrun as _ <- <-.
      split; [exact Hold | split; [apply sameFiles_refl | reflexivity]]. }
  specialize (Hnew info n eq_refl Hn). cbv zeta in Hrun.
  rewrite CreateHeader_supported in Hrun
    by (cbn [Method]; destruct (IsDir info); reflexivity).
  set (archive1 := zip.mkWriter _ _ _) in Hrun.
  assert (H1 : Forall (λ h, R (Name h) (headerMode h)) (zip.entries archive1)).
  { unfold zip.entries at 1. cbn [zip.dir zip.last archive1].
    apply Forall_app. split; [exact Hold |]. constructor; [| constructor].
    cbn [Name]. destruct (strings.HasSuffix _ "/"); exact Hnew. }
  destruct (IsDir info).
  { injection Hrun as _ <- <-.
    split; [exact H1 | split; [apply sameFiles_refl | reflexivity]]. }
  destruct (os.Open path w) as [[file | e] w1] eqn:Ho;
    apply Open_sameFiles in Ho.
  2:{ injection Hrun as _ <- <-. split; [exact H1 | split; [exact Ho | reflexivity]]. }
  destruct (zip.copyIn archive1 file w1) as [[archive2 | e] w2] eqn:Hc.
  - injection Hrun as _ <- <-.
    destruct (copyIn_entries (λ h, R (Name h) (headerMode h)) _ _ _ _ _
                (λ h c H, H) Hc H1) as (H2 & Hs & Hz).
    split; [exact H2 |]. split; [eapply sameFiles_trans; eassumption | exact Hz].
  - apply copyIn_sameFiles in Hc. injection Hrun as _ <- <-.
    split; [exact H1 |]. split; [eapply sameFiles_trans; eassumption | reflexivity].
Qed.

(** ** The entries of an archive of a directory *)

(** A property of names and modes that every entry written by the walk
    has is a property of the entries of the container. *)
Lemma createArchive_entries (P : string → Prop) (R : string → N → Prop)
      source target w zipfile w1 info w2 :
  os.Create target w = (Ok zipfile, w1) →
  os.Stat source w1 = (Ok info, w2) →
  P source →
  (∀ path name, P path → P (filepath.Join [path; name])) →
  (∀ path fi n,
     P path →
     relativeName (if IsDir info then filepath.Base source else "") path (fiName fi)
     = Some n →
     R (if IsDir fi then n +:+ "/" else n) (fiMode fi)) →
  ∃ w' File,
    createArchive source target w = (Ok tt, w')
    ∧ containerAt w' (os.fileLoc zipfile) = Some File
    ∧ Forall (λ h, R (Name h) (headerMode h)) File.
Proof.
  intros Hc Hs Hroot HP HR.
  pose proof (createArchive_Walk _ _ _ _ _ _ _ Hc Hs) as Hrun. cbv zeta in Hrun.
  set (baseDir := if IsDir info then filepath.Base source else "") in *.
  destruct (filepathWalk.Walk source (walkFn baseDir) (zip.NewWriter zipfile) w2)
    as [[err archive] w3] eqn:Hw.
  cbn [fst snd] in Hrun.
  assert (Hq : Forall (λ h, R (Name h) (headerMode h)) (zip.entries archive)
               ∧ sameFiles w2 w3 ∧ zip.zipfile archive = zipfile).
  { revert Hw.
    apply (Walk_invariant (walkFn baseDir) P
             (λ archive w', Forall (λ h, R (Name h) (headerMode h)) (zip.entries archive)
                            ∧ sameFiles w2 w' ∧ zip.zipfile archive = zipfile)).
    - exact HP.
    - intros s wa wb (H1 & H2 & H3) Hab. split; [exact H1 |].
      split; [eapply sameFiles_trans; eassumption | exact H3].
    - intros path fi e s wa r s' wb Hp (H1 & H2 & H3) Hfn.
      destruct (walkFn_entries baseDir R _ _ _ _ _ _ _ _ Hfn) as (H1' & H2' & H3').
      + intros fi' n _ Hn. eapply HR; eassumption.
      + exact H1.
      + split; [exact H1' |].
        split; [eapply sameFiles_trans; eassumption | congruence].
    - exact Hroot.
    - split; [constructor |]. split; [apply sameFiles_refl | reflexivity]. }
  destruct Hq as (Hent & (Hf3 & _) & Hz).
  destruct (Create_Ok _ _ _ _ Hc) as (perm & Hf1 & _).
  destruct (Stat_sameFiles _ _ _ _ Hs) as (Hf2 & _).
  assert (Hl : files w3 !! os.fileLoc (zip.zipfile archive)
               = Some (RegFile perm (Bytes ""))).
  { rewrite Hz, Hf3, Hf2, Hf1. apply lookup_insert_eq. }
  rewrite (Close_regular _ _ _ _ Hl) in Hrun. cbn [snd] in Hrun.
  eexists. exists (zip.entries archive). split; [exact Hrun |]. split.
  - unfold containerAt. cbn [files]. rewrite Hz, lookup_insert_eq. reflexivity.
  - exact Hent.
Qed.

(** C5, amended: when the source is a directory whose base name is not
    [.], the visited entries whose computed name is the base name are
    skipped: the container has no entry of a directory named after the
    base name followed by a slash and no entry of a file named after the
    base name. *)
Theorem Archive_skips_root
        (source target : string) (w w1 w2 : World) (zipfile : os.File)
        (info : FileInfo) :
  source ≠ "" → target ≠ "" →
  os.Create target w = (Ok zipfile, w1) →
  os.Stat source w1 = (Ok info, w2) →
  IsDir info = true →
  filepath.Base source ≠ "." →
  ∃ w' File,
    Archive source target w = (Ok tt, w')
    ∧ containerAt w' (os.fileLoc zipfile) = Some File
    ∧ Forall (notRootEntry (filepath.Base source)) File.
Proof.
  intros Hsrc Htgt Hc Hs Hd Hb.
  rewrite Archive_createArchive by assumption.
  apply (createArchive_entries (λ _, True)
           (λ name mode, if modeIsDir mode then name ≠ filepath.Base source +:+ "/"
                         else name ≠ filepath.Base source)
           _ _ _ _ _ _ _ Hc Hs); [exact I | auto |].
  rewrite Hd. intros path fi n _ Hn.
  apply relativeName_not_base in Hn; [| apply Base_nonempty | exact Hb].
  unfold IsDir. destruct (modeIsDir (fiMode fi)); [| exact Hn].
  intros Heq. apply Hn. eapply string_app_inv_tail, Heq.
Qed.

(** X21: when the source is a directory, the name of every entry of a
    directory ends with a slash; and when the source path has no empty
    element (it does not begin or end with a separator and has no two
    in a row), no stored name begins with a separator. *)
Theorem Archive_relative_names
        (source target : string) (w w1 w2 : World) (zipfile : os.File)
        (info : FileInfo) :
  source ≠ "" → target ≠ "" →
  os.Create target w = (Ok zipfile, w1) →
  os.Stat source w1 = (Ok info, w2) →
  IsDir info = true →
  ∃ w' File,
    Archive source target w = (Ok tt, w')
    ∧ containerAt w' (os.fileLoc zipfile) = Some File
    ∧ Forall (λ h, (modeIsDir (headerMode h) = true →
                    strings.HasSuffix (Name h) "/" = true)
                   ∧ (noEmptyElement source → filepath.rooted (Name h) = false))
             File.
Proof.
  intros Hsrc Htgt Hc Hs Hd.
  rewrite Archive_createArchive by assumption.
  apply (createArchive_entries (λ path, noEmptyElement source → noEmptyElement path)
           (λ name mode,
              (modeIsDir mode = true → strings.HasSuffix name "/" = true)
              ∧ (noEmptyElement source → filepath.rooted name = false))
           _ _ _ _ _ _ _ Hc Hs).
  - auto.
  - intros path name Hp Hsrc'. apply Join_noEmptyElement, Hp, Hsrc'.
  - rewrite Hd. intros path fi n Hp Hn. unfold IsDir.
    pose proof (Base_nonempty source) as Hb.
    assert (Hrel : noEmptyElement source → noEmptyElement n).
    { intros Hsrc'. eapply relativeName_relative; [exact Hb | apply Hp, Hsrc' | exact Hn]. }
    destruct (modeIsDir (fiMode fi)).
    + split; [intros _; apply HasSuffix_app |].
      intros Hsrc'. specialize (Hrel Hsrc').
      rewrite rooted_app by (apply noEmptyElement_nonempty, Hrel).
      apply noEmptyElement_relative, Hrel.
    + split; [discriminate |].
      intros Hsrc'. apply noEmptyElement_relative, Hrel, Hsrc'.
Qed.

Lemma Archive_relative_names_witness :
  let zipfile := os.mkFile "out.zip" ["work"; "out.zip"] in
  let w1 := snd (os.Create "out.zip" helloWorld) in
  let info := mkFileInfo "a" (N.lor ModeDir 0x1ed) in
  let w2 := snd (os.Stat "a" w1) in
  ("a" ≠ "" ∧ "out.zip" ≠ ""
   ∧ os.Create "out.zip" helloWorld = (Ok zipfile, w1)
   ∧ os.Stat "a" w1 = (Ok info, w2)
   ∧ IsDir info = true)
  ∧ ∃ w' File,
      Archive "a" "out.zip" helloWorld = (Ok tt, w')
      ∧ containerAt w' (os.fileLoc zipfile) = Some File
      ∧ Forall (λ h, (modeIsDir (headerMode h) = true →
                      strings.HasSuffix (Name h) "/" = true)
                     ∧ (noEmptyElement "a" → filepath.rooted (Name h) = false))
               File.
Proof.
  intros zipfile w1 info w2.
  assert (H1 : "a" ≠ "") by discriminate.
  assert (H2 : "out.zip" ≠ "") by discriminate.
  assert (H3 : os.Create "out.zip" helloWorld = (Ok zipfile, w1))
    by (vm_compute; reflexivity).
  assert (H4 : os.Stat "a" w1 = (Ok info, w2)) by (vm_compute; reflexivity).
  assert (H5 : IsDir info = true) by reflexivity.
  split; [repeat split; assumption |].
  exact (Archive_relative_names "a" "out.zip" helloWorld w1 w2 zipfile info
                                H1 H2 H3 H4 H5).
Defined.

Lemma Archive_skips_root_witness :
  let zipfile := os.mkFile "out.zip" ["work"; "out.zip"] in
  let w1 := snd (os.Create "out.zip" helloWorld) in
  let info := mkFileInfo "a" (N.lor ModeDir 0x1ed) in
  let w2 := snd (os.Stat "a" w1) in
  ("a" ≠ "" ∧ "out.zip" ≠ ""
   ∧ os.Create "out.zip" helloWorld = (Ok zipfile, w1)
   ∧ os.Stat "a" w1 = (Ok info, w2)
   ∧ IsDir info = true
   ∧ filepath.Base "a" ≠ ".")
  ∧ ∃ w' File,
      Archive "a" "out.zip" helloWorld = (Ok tt, w')
      ∧ containerAt w' (os.fileLoc zipfile) = Some File
      ∧ Forall (notRootEntry (filepath.Base "a")) File.
Proof.
  intros zipfile w1 info w2.
  assert (H1 : "a" ≠ "") by discriminate.
  assert (H2 : "out.zip" ≠ "") by discriminate.
  assert (H3 : os.Create "out.zip" helloWorld = (Ok zipfile, w1))
    by (vm_compute; reflexivity).
  assert (H4 : os.Stat "a" w1 = (Ok info, w2)) by (vm_compute; reflexivity).
  assert (H5 : IsDir info = true) by reflexivity.
  assert (H6 : filepath.Base "a" ≠ ".") by discriminate.
  split; [repeat split; assumption |].
  exact (Archive_skips_root "a" "out.zip" helloWorld w1 w2 zipfile info
                            H1 H2 H3 H4 H5 H6).
Defined.

(** ** Paths of valid names *)

Lemma validName_plain name : validName name → plainElement name.
Proof. intros (H1 & _ & _ & H4). split; assumption. Qed.

Lemma cleanElems_valid isRooted out elems :
  Forall validName elems →
  filepath.cleanElems isRooted out elems = (rev elems ++ out)%list.
Proof.
  revert out. induction elems as [| e elems IH]; intros out H; [reflexivity |].
  inversion H as [| ? ? (H1 & H2 & H3 & _) Hes]; subst. cbn [filepath.cleanElems].
  destruct (String.eqb_spec e ""); [contradiction |].
  destruct (String.eqb_spec e "."); [contradiction |].
  destruct (String.eqb_spec e ".."); [contradiction |].
  rewrite IH by assumption. cbn [rev]. rewrite <- List.app_assoc. reflexivity.
Qed.

Lemma Forall_valid_plain elems :
  Forall validName elems →
  Forall (λ e, strings.ContainsByte e "/" = false) elems.
Proof.
  intros H. eapply Forall_impl; [exact H |]. intros e (_ & _ & _ & He). exact He.
Qed.

Lemma pathOf_nonempty elems :
  elems ≠ [] → Forall validName elems → pathOf elems ≠ "".
Proof.
  destruct elems as [| e elems]; [contradiction |]. intros _ H.
  inversion H as [| ? ? (H1 & _) _]; subst.
  destruct elems; [exact H1 |]. rewrite pathOf_cons by discriminate.
  destruct e; [contradiction | discriminate].
Qed.

Lemma pathOf_relative elems :
  Forall validName elems → filepath.rooted (pathOf elems) = false.
Proof.
  destruct elems as [| e elems]; [reflexivity |]. intros H.
  inversion H as [| ? ? (H1 & _ & _ & H4) _]; subst.
  assert (He : filepath.rooted e = false).
  { destruct e as [| c e]; [reflexivity |]. cbn in H4 |- *.
    apply orb_false_elim in H4 as [H4 _]. exact H4. }
  destruct elems; [exact He |]. rewrite pathOf_cons by discriminate.
  rewrite rooted_app by assumption. exact He.
Qed.

Lemma Split_pathOf elems :
  elems ≠ [] → Forall validName elems →
  strings.Split (pathOf elems) filepath.Separator = elems.
Proof. intros H1 H2. apply Split_Join; [exact H1 | apply Forall_valid_plain, H2]. Qed.

Lemma Clean_pathOf elems :
  elems ≠ [] → Forall validName elems → filepath.Clean (pathOf elems) = pathOf elems.
Proof.
  intros Hne Hv. unfold filepath.Clean.
  destruct (String.eqb_spec (pathOf elems) "") as [He |];
    [apply pathOf_nonempty in He; [contradiction | assumption..] |].
  rewrite (pathOf_relative _ Hv), (Split_pathOf _ Hne Hv).
  rewrite cleanElems_valid by assumption. rewrite List.app_nil_r, rev_involutive.
  destruct elems; [contradiction | reflexivity].
Qed.

(** A trailing separator is cleaned away. *)
Lemma Clean_pathOf_slash elems :
  elems ≠ [] → Forall validName elems →
  filepath.Clean (pathOf elems +:+ "/") = pathOf elems.
Proof.
  intros Hne Hv. unfold filepath.Clean.
  destruct (String.eqb_spec (pathOf elems +:+ "/") "") as [He |].
  { destruct (pathOf elems); discriminate He. }
  rewrite rooted_app by (apply pathOf_nonempty; assumption).
  rewrite (pathOf_relative _ Hv).
  change (pathOf elems +:+ "/") with (pathOf elems +:+ String filepath.Separator "").
  rewrite Split_app_sep, (Split_pathOf _ Hne Hv).
  cbn [strings.Split].
  assert (Hc : ∀ out l, filepath.cleanElems false out (l ++ [""])
                        = filepath.cleanElems false out l).
  { intros out l. revert out. induction l as [| e l IH]; intros out; [reflexivity |].
    cbn [app filepath.cleanElems].
    repeat match goal with
           | |- context [if ?b then _ else _] => destruct b
           | |- context [match ?o with [] => _ | _ :: _ => _ end] => destruct o
           end; apply IH. }
  rewrite Hc, cleanElems_valid by assumption. rewrite List.app_nil_r, rev_involutive.
  destruct elems; [contradiction | reflexivity].
Qed.

Lemma Join_pathOf elems name :
  elems ≠ [] → Forall validName elems → validName name →
  filepath.Join [pathOf elems; name] = pathOf (elems ++ [name]).
Proof.
  intros Hne Hv Hn. rewrite Join_two by (apply pathOf_nonempty; assumption).
  rewrite <- pathOf_snoc by assumption.
  apply Clean_pathOf; [destruct elems; discriminate |].
  apply Forall_app. split; [assumption | constructor; [assumption | constructor]].
Qed.

(** The extraction path of an entry named after the elements [rel]. *)
Lemma Join_target dst rel :
  validName dst → rel ≠ [] → Forall validName rel →
  filepath.Join [dst; pathOf rel] = pathOf (dst :: rel)
  ∧ filepath.Join [dst; pathOf rel +:+ "/"] = pathOf (dst :: rel).
Proof.
  intros Hd Hne Hv.
  assert (Hd' : dst ≠ "") by (destruct Hd; assumption).
  assert (Hv' : Forall validName (dst :: rel)) by (constructor; assumption).
  rewrite !Join_two by assumption.
  assert (E1 : dst +:+ "/" +:+ pathOf rel = pathOf (dst :: rel))
    by (symmetry; apply pathOf_cons; assumption).
  assert (E2 : dst +:+ "/" +:+ pathOf rel +:+ "/" = pathOf (dst :: rel) +:+ "/")
    by (rewrite <- E1, !string_app_assoc; reflexivity).
  rewrite E1, E2.
  split; [apply Clean_pathOf | apply Clean_pathOf_slash]; (discriminate || assumption).
Qed.

Lemma dirPrefix_plain e :
  strings.ContainsByte e "/" = false → filepath.dirPrefix e = "".
Proof.
  induction e as [| c e IH]; [reflexivity |]. cbn [strings.ContainsByte].
  intros [Hc He]%orb_false_elim. cbn [filepath.dirPrefix]. rewrite (IH He).
  unfold filepath.IsPathSeparator, filepath.Separator. rewrite Hc. reflexivity.
Qed.

Lemma dirPrefix_app p e :
  strings.ContainsByte e "/" = false →
  filepath.dirPrefix (p +:+ "/" +:+ e) = p +:+ "/".
Proof.
  intros He. induction p as [| c p IH].
  - rewrite !string_app_nil_l.
    change ("/" +:+ e) with (String "/" e). cbn [filepath.dirPrefix].
    rewrite (dirPrefix_plain _ He). reflexivity.
  - rewrite (string_app_cons c p ("/" +:+ e)), (string_app_cons c p "/").
    cbn [filepath.dirPrefix]. rewrite IH.
    destruct (p +:+ "/") eqn:Hp; [| reflexivity].
    destruct p; discriminate Hp.
Qed.

Lemma trimTrailingSeparators_plain e :
  e ≠ "" → strings.ContainsByte e "/" = false →
  filepath.trimTrailingSeparators e = e.
Proof.
  induction e as [| c e IH]; [congruence |]. intros _.
  cbn [strings.ContainsByte]. intros [Hc He]%orb_false_elim.
  cbn [filepath.trimTrailingSeparators].
  destruct e as [| d e].
  - cbn. unfold filepath.IsPathSeparator, filepath.Separator. rewrite Hc. reflexivity.
  - rewrite IH by (discriminate || assumption). reflexivity.
Qed.

Lemma trimTrailingSeparators_app p e :
  e ≠ "" → strings.ContainsByte e "/" = false →
  filepath.trimTrailingSeparators (p +:+ e) = p +:+ e.
Proof.
  intros H1 H2. induction p as [| c p IH].
  - rewrite string_app_nil_l. apply trimTrailingSeparators_plain; assumption.
  - rewrite string_app_cons. cbn [filepath.trimTrailingSeparators]. rewrite IH.
    destruct (p +:+ e) eqn:Hp; [| reflexivity].
    destruct p; [rewrite string_app_nil_l in Hp; contradiction | discriminate Hp].
Qed.

Lemma substring_prefix p t :
  String.substring 0 (String.length p) (p +:+ t) = p.
Proof.
  induction p as [| c p IH].
  - destruct t; reflexivity.
  - rewrite string_app_cons. cbn [String.length String.substring].
    rewrite IH. reflexivity.
Qed.

Lemma pathOf_snoc_valid l e :
  l ≠ [] → pathOf (l ++ [e]) = pathOf l +:+ "/" +:+ e.
Proof. apply pathOf_snoc. Qed.

Lemma Dir_pathOf l e :
  l ≠ [] → Forall validName l → validName e →
  filepath.Dir (pathOf (l ++ [e])) = pathOf l.
Proof.
  intros Hne Hl He. unfold filepath.Dir. rewrite pathOf_snoc by assumption.
  rewrite dirPrefix_app by (destruct He as (_ & _ & _ & H); exact H).
  apply Clean_pathOf_slash; assumption.
Qed.

Lemma parentOf_pathOf l e :
  l ≠ [] → Forall validName l → validName e →
  os.parentOf (pathOf (l ++ [e])) = Some (pathOf l).
Proof.
  intros Hne Hl (He1 & _ & _ & He4). unfold os.parentOf.
  rewrite pathOf_snoc by assumption.
  rewrite <- string_app_assoc.
  rewrite trimTrailingSeparators_app by assumption.
  rewrite string_app_assoc, dirPrefix_app by assumption.
  rewrite string_length_app. cbn [String.length].
  pose proof (pathOf_nonempty l Hne Hl) as Hp.
  destruct (pathOf l) as [| c p] eqn:E; [contradiction |].
  replace (String.length (String c p) + 1 - 1)%nat with (String.length (String c p)) by lia.
  rewrite substring_prefix.
  replace (1 <? String.length (String c p) + 1)%nat with true; [reflexivity |].
  symmetry. apply Nat.ltb_lt. cbn [String.length]. lia.
Qed.

Lemma parentOf_single e : validName e → os.parentOf e = None.
Proof.
  intros (He1 & _ & _ & He4). unfold os.parentOf.
  rewrite trimTrailingSeparators_plain by assumption.
  rewrite dirPrefix_plain by assumption. reflexivity.
Qed.

Lemma Base_single s : validName s → filepath.Base s = s.
Proof.
  intros (H1 & _ & _ & H4). unfold filepath.Base.
  destruct (String.eqb_spec s ""); [contradiction |].
  rewrite trimTrailingSeparators_plain by assumption.
  unfold filepath.lastElement. rewrite Split_plain by assumption. cbn.
  destruct (String.eqb_spec s ""); [contradiction | reflexivity].
Qed.

Lemma HasSuffix_plain e :
  strings.ContainsByte e "/" = false → strings.HasSuffix e "/" = false.
Proof.
  induction e as [| c e IH]; [reflexivity |]. cbn [strings.ContainsByte].
  intros [Hc He]%orb_false_elim. cbn [strings.HasSuffix]. rewrite (IH He).
  rewrite orb_false_r. cbn [String.eqb]. rewrite Hc. reflexivity.
Qed.

Lemma HasSuffix_app_plain p e :
  e ≠ "" → strings.ContainsByte e "/" = false →
  strings.HasSuffix (p +:+ e) "/" = false.
Proof.
  intros H1 H2. induction p as [| c p IH].
  - rewrite string_app_nil_l. apply HasSuffix_plain, H2.
  - rewrite string_app_cons. cbn [strings.HasSuffix]. rewrite IH, orb_false_r.
    cbn [String.eqb]. destruct (Ascii.eqb c "/"); [| reflexivity].
    destruct (p +:+ e) eqn:Hp; [| reflexivity].
    destruct p; [rewrite string_app_nil_l in Hp; contradiction | discriminate Hp].
Qed.

Lemma HasSuffix_pathOf rel :
  rel ≠ [] → Forall validName rel → strings.HasSuffix (pathOf rel) "/" = false.
Proof.
  intros Hne Hv. destruct (exists_last Hne) as (l & e & ->).
  apply Forall_app in Hv as [Hl He]. inversion He as [| ? ? (H1 & _ & _ & H4) _]; subst.
  destruct l as [| x l]; [apply HasSuffix_plain, H4 |].
  rewrite pathOf_snoc by discriminate. rewrite <- string_app_assoc.
  apply HasSuffix_app_plain; assumption.
Qed.

Lemma stripPrefix_longer s c t : strings.stripPrefix (s +:+ String c t) s = None.
Proof.
  induction s as [| d s IH]; [reflexivity |].
  rewrite string_app_cons. cbn [strings.stripPrefix]. rewrite Ascii.eqb_refl. exact IH.
Qed.

Lemma pathOf_has_separator x y l :
  strings.ContainsByte (pathOf (x :: y :: l)) "/" = true.
Proof.
  rewrite pathOf_cons by discriminate. rewrite ContainsByte_app.
  change ("/" +:+ pathOf (y :: l)) with (String "/" (pathOf (y :: l))).
  cbn [strings.ContainsByte]. rewrite Ascii.eqb_refl. apply orb_true_r.
Qed.

(** The name computed for the path of the elements [rel] below the
    source [s]: the root is skipped, and so is a direct child named [s];
    every other entry is named by its elements. *)
Lemma relativeName_tree s rel name :
  validName s → Forall validName rel →
  relativeName s (pathOf (s :: rel)) name
  = if decide (rel = [] ∨ rel = [s]) then None else Some (pathOf rel).
Proof.
  intros Hs Hrel. pose proof Hs as (Hs1 & Hs2 & _ & Hs4).
  unfold relativeName.
  destruct (String.eqb_spec s ""); [contradiction |]. cbn [negb].
  destruct (String.eqb_spec s "."); [contradiction |].
  rewrite !ToSlash_id. unfold strings.TrimPrefix.
  destruct rel as [| x rel].
  - change (pathOf [s]) with s. rewrite stripPrefix_longer.
    rewrite Join_one by assumption.
    assert (Hc : filepath.Clean s = s).
    { apply (Clean_pathOf [s]); [discriminate | constructor; [exact Hs | constructor]]. }
    rewrite Hc, String.eqb_refl.
    destruct (decide _) as [| Hn]; [reflexivity |]. exfalso. apply Hn. left. reflexivity.
  - rewrite pathOf_cons by discriminate.
    rewrite <- string_app_assoc, stripPrefix_app.
    rewrite Join_one by (apply pathOf_nonempty; [discriminate | assumption]).
    rewrite Clean_pathOf by (discriminate || assumption).
    destruct (String.eqb_spec s (pathOf (x :: rel))) as [He | He].
    + destruct rel as [| y rel].
      * change (pathOf [x]) with x in He. subst x.
        destruct (decide _) as [| Hn]; [reflexivity |]. exfalso. apply Hn. right. reflexivity.
      * exfalso. pose proof (pathOf_has_separator x y rel) as Hc.
        rewrite <- He in Hc. unfold filepath.Separator in Hs4. congruence.
    + destruct (decide _) as [[Hd | Hd] |]; [discriminate Hd | | reflexivity].
      injection Hd as -> ->. exfalso. apply He. reflexivity.
Qed.

(** ** Resolving the path of valid names *)

Lemma walkElems_inr fs cur elems loc :
  Forall validName elems →
  os.walkElems fs cur elems = inr loc → loc = (cur ++ elems)%list.
Proof.
  revert cur. induction elems as [| e elems IH]; intros cur Hv.
  - intros [= <-]. symmetry. apply List.app_nil_r.
  - inversion Hv as [| ? ? (H1 & H2 & H3 & _) Hes]; subst. cbn [os.walkElems].
    destruct (fs !! cur) as [[perm c | perm] |]; try discriminate.
    destruct (String.eqb_spec e ""); [contradiction |].
    destruct (negb (os.searchable perm)); [discriminate |].
    destruct (String.eqb_spec e "."); [contradiction |].
    destruct (String.eqb_spec e ".."); [contradiction |].
    intros H. apply IH in H; [| assumption]. rewrite H, <- List.app_assoc. reflexivity.
Qed.

Lemma walkElems_dirs fs cur elems :
  Forall validName elems →
  (∀ k, (k < length elems)%nat →
        ∃ p, fs !! (cur ++ take k elems) = Some (Directory p)
             ∧ os.searchable p = true) →
  os.walkElems fs cur elems = inr (cur ++ elems)%list.
Proof.
  revert cur. induction elems as [| e elems IH]; intros cur Hv H.
  - cbn. rewrite List.app_nil_r. reflexivity.
  - inversion Hv as [| ? ? (H1 & H2 & H3 & _) Hes]; subst. cbn [os.walkElems].
    destruct (H 0%nat) as (p & Hp & Hx); [cbn; lia |].
    cbn [take] in Hp. rewrite List.app_nil_r in Hp. rewrite Hp, Hx. cbn [negb].
    destruct (String.eqb_spec e ""); [contradiction |].
    destruct (String.eqb_spec e "."); [contradiction |].
    destruct (String.eqb_spec e ".."); [contradiction |].
    rewrite IH; [rewrite <- List.app_assoc; reflexivity | assumption |].
    intros k Hk. destruct (H (S k)) as (q & Hq & Hxq); [cbn; lia |].
    exists q. split; [| exact Hxq]. rewrite <- List.app_assoc. exact Hq.
Qed.

Lemma walkElems_ENOENT fs cur elems errno :
  Forall validName elems →
  (∀ k, (k < length elems)%nat →
        fs !! (cur ++ take k elems) = None
        ∨ ∃ p, fs !! (cur ++ take k elems) = Some (Directory p)
               ∧ os.searchable p = true) →
  os.walkElems fs cur elems = inl errno → errno = ENOENT.
Proof.
  revert cur. induction elems as [| e elems IH]; intros cur Hv H; [discriminate |].
  inversion Hv as [| ? ? (H1 & H2 & H3 & _) Hes]; subst. cbn [os.walkElems].
  destruct (H 0%nat) as [Hn | (p & Hp & Hx)]; [cbn; lia | |];
    cbn [take] in *; rewrite List.app_nil_r in *.
  - rewrite Hn. intros [= <-]. reflexivity.
  - rewrite Hp, Hx. cbn [negb].
    destruct (String.eqb_spec e ""); [contradiction |].
    destruct (String.eqb_spec e "."); [contradiction |].
    destruct (String.eqb_spec e ".."); [contradiction |].
    apply IH; [assumption |].
    intros k Hk. specialize (H (S k)). cbn [take length] in H.
    rewrite <- List.app_assoc. apply H. lia.
Qed.

Lemma namei_pathOf w elems :
  elems ≠ [] → Forall validName elems →
  os.namei w (pathOf elems) = os.walkElems (files w) (cwd w) elems.
Proof.
  intros Hne Hv. unfold os.namei.
  destruct (String.eqb_spec (pathOf elems) "") as [He |];
    [apply pathOf_nonempty in He; [contradiction | assumption..] |].
  rewrite (pathOf_relative _ Hv), (Split_pathOf _ Hne Hv). reflexivity.
Qed.

(** [os.Stat] and [os.Lstat] of a path whose directories are there. *)
Lemma statAt_found op w elems i :
  elems ≠ [] → Forall validName elems →
  (∀ k, (k < length elems)%nat →
        ∃ p, files w !! (cwd w ++ take k elems) = Some (Directory p)
             ∧ os.searchable p = true) →
  files w !! (cwd w ++ elems) = Some i →
  os.statAt op (pathOf elems) w
  = (Ok (mkFileInfo (os.basename (pathOf elems)) (os.inodeMode i)), w).
Proof.
  intros Hne Hv Hd Hi. unfold os.statAt.
  rewrite namei_pathOf, walkElems_dirs, Hi by assumption. reflexivity.
Qed.

(** A path that is not there, below directories that can be searched as
    far as they exist, is reported as not existing. *)
Lemma statAt_missing op w elems :
  elems ≠ [] → Forall validName elems →
  (∀ k, (k < length elems)%nat →
        files w !! (cwd w ++ take k elems) = None
        ∨ ∃ p, files w !! (cwd w ++ take k elems) = Some (Directory p)
               ∧ os.searchable p = true) →
  files w !! (cwd w ++ elems) = None →
  os.statAt op (pathOf elems) w = (Err (PathError op (pathOf elems) ENOENT), w).
Proof.
  intros Hne Hv Hd Hi. unfold os.statAt. rewrite namei_pathOf by assumption.
  destruct (os.walkElems (files w) (cwd w) elems) as [errno | loc] eqn:Hw.
  - apply walkElems_ENOENT in Hw; [| assumption..]. subst errno. reflexivity.
  - apply walkElems_inr in Hw; [| assumption]. subst loc. rewrite Hi. reflexivity.
Qed.

(** ** Well-formed trees *)

Lemma wf_prefix fs root rel :
  wfTree fs root →
  is_Some (fs !! (root ++ rel)) →
  ∀ j, (j < length rel)%nat → ∃ p, fs !! (root ++ take j rel) = Some (Directory p).
Proof.
  intros Hwf. induction rel as [| e rel IH] using rev_ind; intros Hsome j Hj.
  - cbn in Hj. lia.
  - rewrite length_app in Hj. cbn in Hj.
    destruct (wf_parent _ _ Hwf rel e Hsome) as [p Hp].
    destruct (decide (j = length rel)) as [-> | Hne].
    + rewrite take_app_length. eauto.
    + rewrite take_app_le by lia. apply IH; [rewrite Hp; eauto | lia].
Qed.

Lemma modeIsDir_Directory p : modeIsDir (os.inodeMode (Directory p)) = true.
Proof.
  unfold modeIsDir, os.inodeMode. rewrite N.lor_spec. reflexivity.
Qed.

Lemma modeIsDir_RegFile p c : modeIsDir (os.inodeMode (RegFile p c)) = false.
Proof.
  unfold modeIsDir, os.inodeMode, Perm. rewrite N.land_spec.
  apply andb_false_r.
Qed.

Lemma key_length (fs : gmap (list string) Inode) loc :
  is_Some (fs !! loc) → (length loc ≤ max_list (length <$> (map_to_list fs).*1))%nat.
Proof.
  intros [i Hi]. apply max_list_elem_of_le.
  apply list_elem_of_fmap. exists loc. split; [reflexivity |].
  apply list_elem_of_fmap. exists (loc, i). split; [reflexivity |].
  apply elem_of_map_to_list, Hi.
Qed.

Lemma childName_Some dir loc name :
  os.childName dir loc = Some name ↔ loc = dir ++ [name].
Proof.
  unfold os.childName. split.
  - destruct (decide (removelast loc = dir)) as [<- |]; [| discriminate].
    intros Hl. destruct loc as [| x loc] using rev_ind; [discriminate |].
    rewrite last_snoc in Hl. injection Hl as ->.
    rewrite removelast_last. reflexivity.
  - intros ->. rewrite removelast_last.
    destruct (decide (dir = dir)); [| contradiction]. apply last_snoc.
Qed.

Lemma snoc_app {A} (l : list A) x l' : (l ++ [x]) ++ l' = l ++ x :: l'.
Proof. rewrite <- List.app_assoc. reflexivity. Qed.

(** ** The walk over a well-formed tree *)

Lemma pathOf_inj l l' :
  l ≠ [] → l' ≠ [] → Forall validName l → Forall validName l' →
  pathOf l = pathOf l' → l = l'.
Proof.
  intros H1 H2 H3 H4 Heq.
  rewrite <- (Split_pathOf l H1 H3), <- (Split_pathOf l' H2 H4), Heq. reflexivity.
Qed.

Lemma NoDup_omap_inj {A B} (f : A → option B) (l : list A) :
  (∀ x y z, f x = Some z → f y = Some z → x = y) →
  NoDup l → NoDup (omap f l).
Proof.
  intros Hinj. induction 1 as [| x l Hx _ IH]; csimpl; [constructor |].
  destruct (f x) as [z |] eqn:Hz; [| exact IH].
  constructor; [| exact IH].
  intros Hin. apply list_elem_of_omap in Hin as (y & Hy & Hfy).
  rewrite (Hinj x y z Hz Hfy) in Hx. contradiction.
Qed.

Section ArchiveTree.
Context (wa : World) (s : string) (pc : N).
Local Abbreviation fs := (files wa).
Local Abbreviation src := (cwd wa ++ [s]).
Hypothesis Hs : validName s.
Hypothesis Hcwd : fs !! cwd wa = Some (Directory pc).
Hypothesis Hcx : os.searchable pc = true.
Hypothesis Htree : wfTree fs src.
Hypothesis Hss : fs !! (src ++ [s]) = None.

Lemma tree_valid rel : is_Some (fs !! (src ++ rel)) → Forall validName (s :: rel).
Proof. intros H. constructor; [exact Hs | apply (wf_names _ _ Htree), H]. Qed.

Lemma tree_dirs rel :
  is_Some (fs !! (src ++ rel)) →
  ∀ k, (k < length (s :: rel))%nat →
       ∃ p, fs !! (cwd wa ++ take k (s :: rel)) = Some (Directory p)
            ∧ os.searchable p = true.
Proof.
  intros H [| k] Hk.
  - cbn [take]. rewrite List.app_nil_r. eauto.
  - cbn [take]. cbn in Hk.
    destruct (wf_prefix _ _ _ Htree H k) as [p Hp]; [lia |].
    exists p. replace (cwd wa ++ s :: take k rel) with (src ++ take k rel)
      by (rewrite <- List.app_assoc; reflexivity).
    split; [exact Hp |]. apply (wf_dirs _ _ Htree _ _ Hp).
Qed.

Lemma tree_namei w' rel :
  sameFiles wa w' → is_Some (fs !! (src ++ rel)) →
  os.namei w' (pathOf (s :: rel)) = inr (src ++ rel).
Proof.
  intros Hsame H. rewrite (namei_sameFiles _ _ _ Hsame).
  rewrite namei_pathOf by (discriminate || apply tree_valid, H).
  rewrite walkElems_dirs by (apply tree_valid, H || apply tree_dirs, H).
  rewrite <- List.app_assoc. reflexivity.
Qed.

Lemma tree_Lstat w' rel i :
  sameFiles wa w' → fs !! (src ++ rel) = Some i →
  ∃ info w'', os.Lstat (pathOf (s :: rel)) w' = (Ok info, w'')
              ∧ sameFiles w' w'' ∧ fiMode info = os.inodeMode i.
Proof.
  intros Hsame Hi. unfold os.Lstat, bind. rewrite emit_run.
  unfold os.statAt.
  set (w1 := mkWorld _ _ _ _ _).
  assert (Hs1 : sameFiles wa w1).
  { destruct Hsame as (?&?&?&?). repeat split; assumption. }
  rewrite (tree_namei w1 rel Hs1) by (rewrite Hi; eauto).
  destruct Hs1 as (Hf & _). rewrite Hf, Hi.
  eexists _, _. split; [reflexivity |]. split; [| reflexivity].
  repeat split.
Qed.

Lemma tree_Open w' rel i :
  sameFiles wa w' → fs !! (src ++ rel) = Some i →
  ∃ w'', os.Open (pathOf (s :: rel)) w'
         = (Ok (os.mkFile (pathOf (s :: rel)) (src ++ rel)), w'')
         ∧ sameFiles w' w''.
Proof.
  intros Hsame Hi. unfold os.Open, bind. rewrite emit_run.
  set (w1 := mkWorld _ _ _ _ _).
  assert (Hs1 : sameFiles wa w1).
  { destruct Hsame as (?&?&?&?). repeat split; assumption. }
  rewrite (tree_namei w1 rel Hs1) by (rewrite Hi; eauto).
  destruct Hs1 as (Hf & _). rewrite Hf, Hi.
  assert (Hr : os.readable (match i with RegFile p _ | Directory p => p end) = true).
  { destruct i as [p c | p].
    - apply (wf_files _ _ Htree _ _ _ Hi).
    - apply (wf_dirs _ _ Htree _ _ Hi). }
  destruct i as [p c | p]; rewrite Hr;
    (eexists; split; [reflexivity | repeat split]).
Qed.

Lemma tree_readDirNames w' rel p :
  sameFiles wa w' → fs !! (src ++ rel) = Some (Directory p) →
  ∃ names w'', os.readDirNames (pathOf (s :: rel)) w' = (Ok names, w'')
               ∧ sameFiles w' w''
               ∧ NoDup names
               ∧ ∀ name, name ∈ names ↔ is_Some (fs !! (src ++ rel ++ [name])).
Proof.
  intros Hsame Hp. unfold os.readDirNames. unfold bind at 1.
  destruct (tree_Open w' rel _ Hsame Hp) as (w1 & -> & Hs1).
  unfold bind. rewrite emit_run. cbn [files os.fileLoc].
  assert (Hf : files w1 = fs).
  { destruct Hsame as (Hf & _), Hs1 as (Hf1 & _). congruence. }
  rewrite Hf, Hp. eexists _, _. split; [reflexivity |]. split.
  { same_files. }
  split.
  { rewrite merge_sort_Permutation.
    apply NoDup_omap_inj; [| apply NoDup_fst_map_to_list].
    intros x y z Hx Hy. apply childName_Some in Hx, Hy. congruence. }
  intros name. rewrite merge_sort_Permutation, list_elem_of_omap. split.
  - intros (loc & Hin & Hc). apply childName_Some in Hc. subst loc.
    apply list_elem_of_fmap in Hin as ([loc i] & Heq & Hin).
    cbn in Heq. subst loc. apply elem_of_map_to_list in Hin.
    rewrite <- List.app_assoc in Hin. rewrite Hin. eauto.
  - intros [i Hi]. exists ((src ++ rel) ++ [name]). split.
    + apply list_elem_of_fmap. exists ((src ++ rel) ++ [name], i).
      split; [reflexivity |]. apply elem_of_map_to_list.
      rewrite <- List.app_assoc. exact Hi.
    + apply childName_Some. reflexivity.
Qed.

(** At the root the callback returns at the root directory check. *)
Lemma walkFn_root info archive w' :
  walkFn s (pathOf [s]) (Some info) None archive w' = ((None, archive), w').
Proof.
  rewrite walkFn_info, (relativeName_tree s [] _ Hs) by constructor.
  destruct (decide _) as [| Hn]; [reflexivity |]. exfalso. apply Hn. left. reflexivity.
Qed.

(** Below the root it writes the entry of the file or directory. *)
Lemma walkFn_node w' rel i info archive :
  sameFiles wa w' → rel ≠ [] →
  fs !! (src ++ rel) = Some i →
  fiMode info = os.inodeMode i →
  ∃ h archive' w'',
    walkFn s (pathOf (s :: rel)) (Some info) None archive w' = ((None, archive'), w'')
    ∧ sameFiles w' w''
    ∧ zip.zipfile archive' = zip.zipfile archive
    ∧ zip.entries archive' = zip.entries archive ++ [h]
    ∧ entryFor fs src rel h.
Proof.
  intros Hsame Hne Hi Hm.
  assert (Hv : Forall validName rel).
  { apply (wf_names _ _ Htree). rewrite Hi. eauto. }
  rewrite walkFn_info, (relativeName_tree s rel _ Hs Hv).
  destruct (decide _) as [[Hd | Hd] | _]; [contradiction | |].
  { subst rel. rewrite Hss in Hi. discriminate. }
  cbv zeta. unfold IsDir. rewrite Hm. unfold entryFor. rewrite Hi.
  destruct i as [p c | p].
  - rewrite modeIsDir_RegFile.
    rewrite CreateHeader_supported by reflexivity. cbn [Name].
    rewrite (HasSuffix_pathOf _ Hne Hv).
    destruct (tree_Open w' rel _ Hsame Hi) as (w1 & -> & Hs1).
    unfold zip.copyIn. unfold bind at 1. unfold os.ReadAll, bind.
    rewrite emit_run. cbn [files os.fileLoc].
    assert (Hf : files w1 = fs).
    { destruct Hsame as (Hf & _), Hs1 as (Hf1 & _). congruence. }
    rewrite Hf, Hi. cbn [zip.last zip.setData Name headerMode Method].
    rewrite (HasSuffix_pathOf _ Hne Hv). unfold ret.
    eexists _, _, _. split; [reflexivity |]. split.
    { destruct Hs1 as (?&?&?&?). destruct Hsame as (?&?&?&?).
      repeat split; cbn; congruence. }
    split; [reflexivity |]. split; reflexivity.
  - rewrite modeIsDir_Directory.
    rewrite CreateHeader_supported by reflexivity. cbn [Name].
    rewrite HasSuffix_app.
    eexists _, _, _. split; [reflexivity |]. split; [apply sameFiles_refl |].
    split; [reflexivity |]. split; reflexivity.
Qed.

Lemma tree_child rel name rel' :
  is_Some (fs !! (src ++ rel ++ name :: rel')) →
  is_Some (fs !! (src ++ rel ++ [name])).
Proof.
  intros H. destruct rel' as [| x rel']; [exact H |].
  replace (src ++ rel ++ name :: x :: rel')
    with (src ++ (rel ++ name :: x :: rel')) in H by reflexivity.
  destruct (wf_prefix _ _ _ Htree H (S (length rel))) as [p Hp].
  { rewrite length_app. cbn. lia. }
  replace (take (S (length rel)) (rel ++ name :: x :: rel')) with (rel ++ [name]) in Hp.
  - rewrite Hp. eauto.
  - replace (S (length rel)) with (length (rel ++ [name]))
      by (rewrite length_app; cbn; lia).
    replace (rel ++ name :: x :: rel') with ((rel ++ [name]) ++ x :: rel')
      by (rewrite <- List.app_assoc; reflexivity).
    rewrite take_app_length. reflexivity.
Qed.

(** An entry is that of one file or directory only. *)
Lemma entryFor_inj rel rel' h :
  rel ≠ [] → rel' ≠ [] →
  entryFor fs src rel h → entryFor fs src rel' h → rel = rel'.
Proof.
  intros Hne Hne' H H'. unfold entryFor in H, H'.
  destruct (fs !! (src ++ rel)) as [i |] eqn:Hi; [| contradiction].
  destruct (fs !! (src ++ rel')) as [i' |] eqn:Hi'; [| contradiction].
  assert (Hv : Forall validName rel)
    by (apply (wf_names _ _ Htree); rewrite Hi; eauto).
  assert (Hv' : Forall validName rel')
    by (apply (wf_names _ _ Htree); rewrite Hi'; eauto).
  destruct i as [p c | p], i' as [p' c' | p']; subst h.
  - injection H' as Hn _ _. apply pathOf_inj; assumption || congruence.
  - injection H' as _ Hm _ _.
    pose proof (modeIsDir_Directory p') as H1.
    pose proof (modeIsDir_RegFile p c) as H2.
    cbn [os.inodeMode] in H1, H2. congruence.
  - injection H' as _ Hm _ _.
    pose proof (modeIsDir_Directory p) as H1.
    pose proof (modeIsDir_RegFile p' c') as H2.
    cbn [os.inodeMode] in H1, H2. congruence.
  - injection H' as Hn. apply string_app_inv_tail in Hn.
    apply pathOf_inj; assumption || congruence.
Qed.

Lemma rangeNames_tree walkRec rel names :
  is_Some (fs !! (src ++ rel)) →
  NoDup names →
  (∀ name, name ∈ names → is_Some (fs !! (src ++ rel ++ [name]))) →
  (∀ name i info archive w',
     sameFiles wa w' →
     fs !! (src ++ rel ++ [name]) = Some i →
     fiMode info = os.inodeMode i →
     ∃ archive' w'',
       walkRec (pathOf (s :: rel ++ [name])) info archive w' = ((None, archive'), w'')
       ∧ sameFiles w' w'' ∧ adds fs src (rel ++ [name]) archive archive') →
  ∀ archive w',
    sameFiles wa w' →
    ∃ archive' w'',
      filepathWalk.rangeNames walkRec (walkFn s) (pathOf (s :: rel)) names archive w'
      = ((None, archive'), w'')
      ∧ sameFiles w' w''
      ∧ zip.zipfile archive' = zip.zipfile archive
      ∧ ∃ new,
          zip.entries archive' = zip.entries archive ++ new
          ∧ NoDup new
          ∧ Forall (λ h, ∃ name rel',
                       name ∈ names ∧ entryFor fs src (rel ++ name :: rel') h) new
          ∧ ∀ name rel' p c,
              name ∈ names →
              fs !! (src ++ rel ++ name :: rel') = Some (RegFile p c) →
              ∃ h, h ∈ new ∧ entryFor fs src (rel ++ name :: rel') h.
Proof.
  intros Hrel Hnodup Hnames Hrec.
  induction names as [| name names IH]; intros archive w' Hsame.
  - exists archive, w'. split; [reflexivity |]. split; [apply sameFiles_refl |].
    split; [reflexivity |]. exists []. rewrite List.app_nil_r.
    split; [reflexivity |]. split; [constructor |]. split; [constructor |].
    intros name rel' p c Hin. inversion Hin.
  - apply NoDup_cons in Hnodup as [Hfresh Hnodup]. specialize (IH Hnodup).
    cbn [filepathWalk.rangeNames].
    destruct (Hnames name) as [i Hi]; [left |].
    assert (Hv : Forall validName (s :: rel)) by (apply tree_valid, Hrel).
    assert (Hvn : validName name).
    { assert (H : Forall validName (rel ++ [name])).
      { apply (wf_names _ _ Htree). rewrite Hi. eauto. }
      apply Forall_app in H as [_ H]. inversion H; assumption. }
    rewrite (Join_pathOf (s :: rel) name) by (discriminate || assumption).
    change ((s :: rel) ++ [name]) with (s :: rel ++ [name]).
    destruct (tree_Lstat w' (rel ++ [name]) i Hsame Hi) as (info & w1 & -> & Hs1 & Hm).
    assert (Hsame1 : sameFiles wa w1) by (eapply sameFiles_trans; eassumption).
    destruct (Hrec name i info archive w1 Hsame1 Hi Hm)
      as (archive1 & w2 & -> & Hs2 & Hz1 & new1 & He1 & Hnd1 & Hsound1 & Hcomplete1).
    assert (Hsame2 : sameFiles wa w2) by (eapply sameFiles_trans; eassumption).
    destruct (IH (λ n Hn, Hnames n (list_elem_of_further _ _ _ Hn)) archive1 w2 Hsame2)
      as (archive2 & w3 & -> & Hs3 & Hz2 & new2 & He2 & Hnd2 & Hsound2 & Hcomplete2).
    assert (Hsound1' : Forall (λ h, ∃ rel', entryFor fs src (rel ++ name :: rel') h) new1).
    { eapply Forall_impl; [exact Hsound1 |]. intros h (rel' & _ & Hent).
      exists rel'. rewrite <- (snoc_app rel name rel'). exact Hent. }
    exists archive2, w3. split; [reflexivity |].
    split; [eapply sameFiles_trans; [exact Hs1 | eapply sameFiles_trans; eassumption] |].
    split; [congruence |]. exists (new1 ++ new2).
    split; [rewrite He2, He1, <- List.app_assoc; reflexivity |].
    split.
    { apply NoDup_app. split; [exact Hnd1 |]. split; [| exact Hnd2].
      intros h Hin1 Hin2.
      rewrite Forall_forall in Hsound1'. destruct (Hsound1' h Hin1) as (r1 & Hent1).
      rewrite Forall_forall in Hsound2.
      destruct (Hsound2 h Hin2) as (name2 & r2 & Hin & Hent2).
      assert (Heq : rel ++ name :: r1 = rel ++ name2 :: r2).
      { apply (entryFor_inj _ _ h); try assumption; destruct rel; discriminate. }
      apply app_inv_head in Heq. injection Heq as -> _. contradiction. }
    split.
    { apply Forall_app. split.
      - eapply Forall_impl; [exact Hsound1' |]. intros h (rel' & Hent).
        exists name, rel'. split; [left | exact Hent].
      - eapply Forall_impl; [exact Hsound2 |]. intros h (name2 & rel' & Hin & Hent).
        exists name2, rel'. split; [right; exact Hin | exact Hent]. }
    intros name' rel' p c Hin Hfile.
    apply elem_of_cons in Hin as [-> | Hin].
    + destruct (Hcomplete1 rel' p c) as (h & Hh & Hent).
      { rewrite (snoc_app rel name rel'). exact Hfile. }
      exists h. split; [apply elem_of_app; left; exact Hh |].
      rewrite (snoc_app rel name rel') in Hent. exact Hent.
    + destruct (Hcomplete2 name' rel' p c Hin Hfile) as (h & Hh & Hent).
      exists h. split; [apply elem_of_app; right; exact Hh | exact Hent].
Qed.

Lemma walk_tree n :
  ∀ rel i info archive w',
    sameFiles wa w' →
    fs !! (src ++ rel) = Some i →
    fiMode info = os.inodeMode i →
    (max_list (length <$> (map_to_list fs).*1) < length (src ++ rel) + n)%nat →
    ∃ archive' w'',
      filepathWalk.walk n (pathOf (s :: rel)) info (walkFn s) archive w'
      = ((None, archive'), w'')
      ∧ sameFiles w' w'' ∧ adds fs src rel archive archive'.
Proof.
  induction n as [| n IH]; intros rel i info archive w' Hsame Hi Hm Hfuel.
  { pose proof (key_length fs (src ++ rel) (ex_intro _ i Hi)). lia. }
  cbn [filepathWalk.walk]. unfold IsDir. rewrite Hm.
  destruct i as [p c | p].
  - (* a regular file *)
    rewrite modeIsDir_RegFile. cbn [negb].
    assert (Hne : rel ≠ []).
    { intros ->. destruct (wf_root _ _ Htree) as [q Hq].
      rewrite List.app_nil_r in Hi. congruence. }
    destruct (walkFn_node w' rel _ info archive Hsame Hne Hi Hm)
      as (h & archive' & w'' & -> & Hs' & Hz & He & Hent).
    exists archive', w''. split; [reflexivity |]. split; [exact Hs' |].
    split; [exact Hz |]. exists [h]. split; [exact He |].
    split; [apply NoDup_singleton |]. split.
    + constructor; [| constructor]. exists []. rewrite List.app_nil_r. eauto.
    + intros rel' p' c' Hfile. destruct rel' as [| x rel'].
      * exists h. split; [left |]. rewrite List.app_nil_r. exact Hent.
      * exfalso.
        assert (Hsome : is_Some (fs !! (src ++ (rel ++ x :: rel'))))
          by (rewrite Hfile; eauto).
        destruct (wf_prefix _ _ _ Htree Hsome (length rel)) as [q Hq].
        { rewrite length_app. cbn. lia. }
        rewrite take_app_length in Hq. congruence.
  - (* a directory *)
    rewrite modeIsDir_Directory. cbn [negb].
    destruct (tree_readDirNames w' rel p Hsame Hi)
      as (names & w1 & -> & Hs1 & Hnodup & Hnames).
    assert (Hsame1 : sameFiles wa w1) by (eapply sameFiles_trans; eassumption).
    assert (Hroot :
      ∃ archive1 w2 new0,
        walkFn s (pathOf (s :: rel)) (Some info) None archive w1 = ((None, archive1), w2)
        ∧ sameFiles w1 w2
        ∧ zip.zipfile archive1 = zip.zipfile archive
        ∧ zip.entries archive1 = zip.entries archive ++ new0
        ∧ NoDup new0
        ∧ Forall (λ h, rel ≠ [] ∧ entryFor fs src rel h) new0).
    { destruct rel as [| x rel].
      - rewrite walkFn_root. exists archive, w1, [].
        split; [reflexivity |]. split; [apply sameFiles_refl |].
        split; [reflexivity |]. rewrite List.app_nil_r.
        split; [reflexivity |]. split; constructor.
      - destruct (walkFn_node w1 (x :: rel) _ info archive Hsame1 ltac:(discriminate) Hi Hm)
          as (h & archive1 & w2 & -> & Hs2 & Hz & He & Hent).
        exists archive1, w2, [h]. split; [reflexivity |]. split; [exact Hs2 |].
        split; [exact Hz |]. split; [exact He |]. split; [apply NoDup_singleton |].
        constructor; [| constructor]. split; [discriminate | exact Hent]. }
    destruct Hroot as (archive1 & w2 & new0 & -> & Hs2 & Hz1 & He1 & Hnd0 & Hsound0).
    assert (Hsame2 : sameFiles wa w2) by (eapply sameFiles_trans; eassumption).
    destruct (rangeNames_tree
                (λ filename fileInfo, filepathWalk.walk n filename fileInfo (walkFn s))
                rel names (ex_intro _ _ Hi) Hnodup (λ name Hn, proj1 (Hnames name) Hn))
      with (archive := archive1) (w' := w2)
      as (archive2 & w3 & -> & Hs3 & Hz2 & new & He2 & Hnd & Hsound & Hcomplete).
    { intros name i' info' archive' w0 Hsame0 Hi' Hm'.
      apply (IH (rel ++ [name]) i'); try assumption.
      rewrite !length_app in *. cbn [length] in *. lia. }
    { exact Hsame2. }
    exists archive2, w3. split; [reflexivity |].
    split; [eapply sameFiles_trans; [exact Hs1 | eapply sameFiles_trans; eassumption] |].
    split; [congruence |]. exists (new0 ++ new).
    split; [rewrite He2, He1, <- List.app_assoc; reflexivity |].
    split.
    { apply NoDup_app. split; [exact Hnd0 |]. split; [| exact Hnd].
      intros h Hin0 Hin.
      rewrite Forall_forall in Hsound0. destruct (Hsound0 h Hin0) as (Hne & Hent0).
      rewrite Forall_forall in Hsound.
      destruct (Hsound h Hin) as (name & rel' & _ & Hent).
      assert (Heq : rel = rel ++ name :: rel').
      { apply (entryFor_inj _ _ h); try assumption. destruct rel; discriminate. }
      apply (f_equal length) in Heq. rewrite length_app in Heq. cbn in Heq. lia. }
    split.
    { apply Forall_app. split.
      - eapply Forall_impl; [exact Hsound0 |]. intros h (Hne & Hent).
        exists []. rewrite List.app_nil_r. split; assumption.
      - eapply Forall_impl; [exact Hsound |]. intros h (name & rel' & _ & Hent).
        exists (name :: rel'). split; [destruct rel; discriminate | exact Hent]. }
    intros rel' p' c' Hfile. destruct rel' as [| name rel'].
    { rewrite List.app_nil_r in Hfile. congruence. }
    destruct (Hcomplete name rel' p' c') as (h & Hh & Hent); [| exact Hfile |].
    + apply Hnames. apply (tree_child rel name rel'). rewrite Hfile. eauto.
    + exists h. split; [apply elem_of_app; right; exact Hh | exact Hent].
Qed.

(** [filepath.Walk] over the tree at the source [s]: it ends without an
    error, with an entry for every regular file of the tree. *)
Lemma Walk_tree archive w' :
  sameFiles wa w' →
  ∃ archive' w'',
    filepathWalk.Walk s (walkFn s) archive w' = ((None, archive'), w'')
    ∧ sameFiles w' w'' ∧ adds fs src [] archive archive'.
Proof.
  intros Hsame. unfold filepathWalk.Walk.
  destruct (wf_root _ _ Htree) as [p Hp].
  assert (Hi : fs !! (src ++ []) = Some (Directory p))
    by (rewrite List.app_nil_r; exact Hp).
  destruct (tree_Lstat w' [] _ Hsame Hi) as (info & w1 & Hl & Hs1 & Hm).
  change (pathOf [s]) with s in Hl. rewrite Hl.
  assert (Hsame1 : sameFiles wa w1) by (eapply sameFiles_trans; eassumption).
  destruct (walk_tree (filepathWalk.depthBound w1) [] _ info archive w1 Hsame1 Hi Hm)
    as (archive' & w2 & Hw & Hs2 & Hadds).
  { unfold filepathWalk.depthBound. destruct Hsame1 as (-> & _). lia. }
  change (pathOf [s]) with s in Hw. rewrite Hw.
  exists archive', w2. split; [reflexivity |].
  split; [eapply sameFiles_trans; eassumption | exact Hadds].
Qed.

End ArchiveTree.

(** ** [os.MkdirAll] below the working directory *)

Lemma trimTrailingSeparators_pathOf elems :
  elems ≠ [] → Forall validName elems →
  filepath.trimTrailingSeparators (pathOf elems) = pathOf elems.
Proof.
  intros Hne Hv. destruct (exists_last Hne) as (l & e & ->).
  apply Forall_app in Hv as [Hl He]. inversion He as [| ? ? (H1 & _ & _ & H4) _]; subst.
  destruct l as [| x l]; [apply trimTrailingSeparators_plain; assumption |].
  rewrite pathOf_snoc by discriminate. rewrite <- string_app_assoc.
  apply trimTrailingSeparators_app; assumption.
Qed.

Lemma take_snoc_lt {A} (l : list A) x j :
  (j ≤ length l)%nat → take j (l ++ [x]) = take j l.
Proof. intros H. apply take_app_le. exact H. Qed.

Section MkdirAll.
Context (dst : string) (pc : N).
Hypothesis Hdst : validName dst.

Lemma way_dirs w r :
  files w !! cwd w = Some (Directory pc) → os.searchable pc = true →
  (∀ j, (j < length r)%nat →
        ∃ p, files w !! (cwd w ++ dst :: take j r) = Some (Directory p) ∧ rwx p) →
  ∀ k, (k < length (dst :: r))%nat →
       ∃ p, files w !! (cwd w ++ take k (dst :: r)) = Some (Directory p)
            ∧ os.searchable p = true.
Proof.
  intros Hc Hx H [| k] Hk.
  - cbn [take]. rewrite List.app_nil_r. eauto.
  - cbn [take]. cbn in Hk. destruct (H k) as (p & Hp & _ & _ & Hxp); [lia |]. eauto.
Qed.

Lemma way_maybe w r :
  files w !! cwd w = Some (Directory pc) → os.searchable pc = true →
  wayClear dst w r →
  ∀ k, (k < length (dst :: r))%nat →
       files w !! (cwd w ++ take k (dst :: r)) = None
       ∨ ∃ p, files w !! (cwd w ++ take k (dst :: r)) = Some (Directory p)
              ∧ os.searchable p = true.
Proof.
  intros Hc Hx H [| k] Hk.
  - cbn [take]. rewrite List.app_nil_r. eauto.
  - cbn [take]. cbn in Hk.
    destruct (H k) as [Hn | (p & Hp & _ & _ & Hxp)]; [lia | left; exact Hn |].
    right. eauto.
Qed.

(** [os.Mkdir] of a directory that is not there, in one that is. *)
Lemma Mkdir_new w r perm :
  Forall validName r →
  files w !! cwd w = Some (Directory pc) →
  os.searchable pc = true → os.writable pc = true →
  (∀ j, (j < length r)%nat →
        ∃ p, files w !! (cwd w ++ dst :: take j r) = Some (Directory p) ∧ rwx p) →
  files w !! (cwd w ++ dst :: r) = None →
  os.Mkdir (pathOf (dst :: r)) perm w
  = (Ok tt,
     mkWorld (<[cwd w ++ dst :: r := Directory (N.ldiff (Perm perm) (umask w))]> (files w))
             (cwd w) (umask w) (network w)
             (sys_mkdir (pathOf (dst :: r)) perm :: trace w)).
Proof.
  intros Hr Hc Hx Hw Hway Hnone.
  assert (Hv : Forall validName (dst :: r)) by (constructor; assumption).
  unfold os.Mkdir, bind. rewrite emit_run.
  rewrite trimTrailingSeparators_pathOf by (discriminate || assumption).
  assert (Hp : pathOf (dst :: r) ≠ "") by (apply pathOf_nonempty; [discriminate | assumption]).
  destruct (pathOf (dst :: r)) as [| c0 p0] eqn:Hpath; [contradiction |].
  rewrite <- Hpath.
  rewrite namei_pathOf by (discriminate || assumption). cbn [files cwd].
  rewrite walkElems_dirs by (assumption || apply way_dirs; assumption).
  rewrite Hnone.
  assert (Hparent : ∃ p, files w !! removelast (cwd w ++ dst :: r) = Some (Directory p)
                         ∧ os.writable p = true).
  { destruct r as [| e r] using rev_ind.
    - replace (cwd w ++ [dst]) with (cwd w ++ [dst]) by reflexivity.
      rewrite removelast_last. eauto.
    - replace (cwd w ++ dst :: r ++ [e]) with ((cwd w ++ dst :: r) ++ [e])
        by (rewrite <- List.app_assoc; reflexivity).
      rewrite removelast_last.
      destruct (Hway (length r)) as (p & Hp' & _ & Hwp & _).
      { rewrite length_app. cbn. lia. }
      rewrite take_app_length in Hp'. eauto. }
  destruct Hparent as (p & -> & ->). reflexivity.
Qed.

Lemma MkdirAllFrom_there n path perm w fi w1 :
  os.Stat path w = (Ok fi, w1) → IsDir fi = true →
  os.MkdirAllFrom n path perm w = (Ok tt, w1).
Proof.
  intros Hs Hd. destruct n; cbn [os.MkdirAllFrom];
    unfold bind at 1; unfold try at 1; rewrite Hs, Hd; reflexivity.
Qed.

Lemma MkdirAllFrom_single n name perm w e w1 w2 :
  os.Stat name w = (Err e, w1) →
  os.parentOf name = None →
  os.Mkdir name perm w1 = (Ok tt, w2) →
  os.MkdirAllFrom n name perm w = (Ok tt, w2).
Proof.
  intros Hs Hp Hm. destruct n; cbn [os.MkdirAllFrom];
    unfold bind at 1; unfold try at 1; rewrite Hs, Hp;
    unfold bind at 1; unfold ret at 1;
    unfold bind at 1; unfold try at 1; rewrite Hm; reflexivity.
Qed.

Lemma MkdirAllFrom_below n path parent perm w e w1 w2 w3 :
  os.Stat path w = (Err e, w1) →
  os.parentOf path = Some parent →
  os.MkdirAllFrom n parent perm w1 = (Ok tt, w2) →
  os.Mkdir path perm w2 = (Ok tt, w3) →
  os.MkdirAllFrom (S n) path perm w = (Ok tt, w3).
Proof.
  intros Hs Hp Hrec Hm. cbn [os.MkdirAllFrom].
  unfold bind at 1. unfold try at 1. rewrite Hs, Hp.
  unfold bind at 1. rewrite Hrec.
  unfold bind at 1. unfold try at 1. rewrite Hm. reflexivity.
Qed.

Lemma Stat_found w elems i :
  elems ≠ [] → Forall validName elems →
  (∀ k, (k < length elems)%nat →
        ∃ p, files w !! (cwd w ++ take k elems) = Some (Directory p)
             ∧ os.searchable p = true) →
  files w !! (cwd w ++ elems) = Some i →
  os.Stat (pathOf elems) w
  = (Ok (mkFileInfo (os.basename (pathOf elems)) (os.inodeMode i)),
     mkWorld (files w) (cwd w) (umask w) (network w)
             (sys_stat (pathOf elems) :: trace w)).
Proof.
  intros. unfold os.Stat, bind. rewrite emit_run.
  apply statAt_found; assumption.
Qed.

Lemma Stat_missing w elems :
  elems ≠ [] → Forall validName elems →
  (∀ k, (k < length elems)%nat →
        files w !! (cwd w ++ take k elems) = None
        ∨ ∃ p, files w !! (cwd w ++ take k elems) = Some (Directory p)
               ∧ os.searchable p = true) →
  files w !! (cwd w ++ elems) = None →
  os.Stat (pathOf elems) w
  = (Err (PathError "stat" (pathOf elems) ENOENT),
     mkWorld (files w) (cwd w) (umask w) (network w)
             (sys_stat (pathOf elems) :: trace w)).
Proof.
  intros. unfold os.Stat, bind. rewrite emit_run.
  apply statAt_missing; assumption.
Qed.

Lemma take_length_ne {A} (l : list A) x j :
  (j ≤ length l)%nat → l ++ [x] ≠ take j l.
Proof.
  intros Hj Heq. apply (f_equal length) in Heq.
  rewrite length_app, length_take in Heq. cbn in Heq. lia.
Qed.

Lemma MkdirAllFrom_made perm :
  ∀ r n w,
    (length r ≤ n)%nat →
    Forall validName r →
    files w !! cwd w = Some (Directory pc) →
    os.searchable pc = true → os.writable pc = true →
    rwx (N.ldiff (Perm perm) (umask w)) →
    wayClear dst w r → wayClosed dst w r →
    ∃ w', os.MkdirAllFrom n (pathOf (dst :: r)) perm w = (Ok tt, w')
          ∧ wayMade dst w w' r.
Proof.
  induction r as [| e r IH] using rev_ind;
    intros n w Hn Hr Hc Hx Hw Hq Hclear Hclosed.
  - (* the target directory itself *)
    assert (Hv : Forall validName [dst]) by (constructor; [assumption | constructor]).
    destruct (Hclear 0%nat) as [Hnone | (p & Hp & Hrwx)]; [cbn; lia | |];
      cbn [take] in *.
    + pose proof (Stat_missing w [dst] ltac:(discriminate) Hv
                    (way_maybe w [] Hc Hx Hclear) Hnone) as Hstat.
      set (w1 := mkWorld _ _ _ _ _) in Hstat.
      pose proof (Mkdir_new w1 [] perm (List.Forall_nil _) Hc Hx Hw
                    ltac:(intros j Hj; cbn in Hj; lia) Hnone) as Hmk.
      eexists. split.
      { eapply MkdirAllFrom_single;
          [exact Hstat | apply parentOf_single, Hdst | exact Hmk]. }
      split; [reflexivity |]. split; [reflexivity |]. cbn [files cwd umask w1].
      split; [intros [| j] Hj; [| cbn in Hj; lia]; cbn [take];
              rewrite lookup_insert_eq; eauto |].
      split; [intros loc [i Hi]; apply lookup_insert_ne; congruence |].
      intros loc Hloc. apply lookup_insert_ne. intros Heq.
      apply (Hloc 0%nat); [cbn; lia | cbn [take]; congruence].
    + pose proof (Stat_found w [dst] _ ltac:(discriminate) Hv
                    (way_dirs w [] Hc Hx ltac:(intros j Hj; cbn in Hj; lia)) Hp) as Hstat.
      eexists. split.
      { eapply MkdirAllFrom_there; [exact Hstat |]. apply modeIsDir_Directory. }
      split; [reflexivity |]. split; [reflexivity |]. cbn [files].
      split; [intros [| j] Hj; [cbn [take]; eauto | cbn in Hj; lia] |].
      split; reflexivity.
  - (* a directory below another *)
    apply Forall_app in Hr as [Hr He]. inversion He as [| ? ? Hve _]; subst.
    assert (Hv : Forall validName (dst :: r)) by (constructor; assumption).
    assert (Hv' : Forall validName (dst :: r ++ [e])).
    { constructor; [assumption |]. apply Forall_app. split; assumption. }
    rewrite length_app in Hn. cbn [length] in Hn.
    destruct (Hclear (length (r ++ [e]))) as [Hnone | (p & Hp & Hrwx)];
      [lia | |]; rewrite firstn_all in *.
    + (* not there: the parent first *)
      pose proof (Stat_missing w (dst :: r ++ [e]) ltac:(discriminate) Hv'
                    (way_maybe w (r ++ [e]) Hc Hx Hclear) Hnone) as Hstat.
      set (w1 := mkWorld _ _ _ _ _) in Hstat.
      destruct n as [| n]; [lia |].
      destruct (IH n w1) as (w2 & Hrun & Hc2 & Hu2 & Hall & Hold & Hother);
        [lia | assumption.. | | |].
      { intros j Hj. specialize (Hclear j).
        rewrite take_snoc_lt in Hclear by lia. apply Hclear.
        rewrite length_app. cbn. lia. }
      { intros j k Hjk. specialize (Hclosed j k).
        rewrite !take_snoc_lt in Hclosed by lia. apply Hclosed.
        rewrite length_app. cbn. lia. }
      cbn [w1 cwd umask files] in Hc2, Hu2, Hall, Hold, Hother.
      assert (Hc2' : files w2 !! cwd w2 = Some (Directory pc)).
      { rewrite Hc2, Hold by (rewrite Hc; eauto). exact Hc. }
      assert (Hall' : ∀ j, (j < length (r ++ [e]))%nat →
                ∃ p, files w2 !! (cwd w ++ dst :: take j (r ++ [e])) = Some (Directory p)
                     ∧ rwx p).
      { intros j Hj. rewrite length_app in Hj. cbn [length] in Hj.
        rewrite take_snoc_lt by lia. apply Hall. lia. }
      assert (Hnone2 : files w2 !! (cwd w ++ dst :: r ++ [e]) = None).
      { rewrite Hother; [exact Hnone |].
        intros j Hj Heq. apply app_inv_head in Heq. injection Heq as Heq.
        exact (take_length_ne _ _ _ Hj Heq). }
      assert (Hmk : os.Mkdir (pathOf (dst :: r ++ [e])) perm w2
                    = (Ok tt,
                       mkWorld (<[cwd w ++ dst :: r ++ [e] :=
                                   Directory (N.ldiff (Perm perm) (umask w))]> (files w2))
                               (cwd w) (umask w) (network w2)
                               (sys_mkdir (pathOf (dst :: r ++ [e])) perm :: trace w2))).
      { rewrite <- Hc2, <- Hu2. apply Mkdir_new; try assumption.
        - apply Forall_app. split; assumption.
        - rewrite Hc2. exact Hall'.
        - rewrite Hc2. exact Hnone2. }
      eexists. split.
      { eapply MkdirAllFrom_below; [exact Hstat | | exact Hrun | exact Hmk].
        change (dst :: r ++ [e]) with ((dst :: r) ++ [e]).
        apply parentOf_pathOf; [discriminate | assumption..]. }
      split; [reflexivity |]. split; [reflexivity |]. cbn [files]. split.
      { intros j Hj.
        destruct (decide (j = length (r ++ [e]))) as [-> | Hne].
        - rewrite firstn_all, lookup_insert_eq. eauto.
        - rewrite length_app in Hj, Hne. cbn [length] in Hj, Hne.
          rewrite lookup_insert_ne.
          + apply Hall'. rewrite length_app. cbn [length]. lia.
          + intros Heq. apply app_inv_head in Heq. injection Heq as Heq.
            rewrite take_snoc_lt in Heq by lia.
            apply (take_length_ne r e j); [lia | exact Heq]. }
      split.
      { intros loc Hsome. rewrite lookup_insert_ne; [apply Hold, Hsome |].
        intros <-. rewrite Hnone in Hsome. destruct Hsome; discriminate. }
      { intros loc Hloc. rewrite lookup_insert_ne.
        - apply Hother. intros j Hj. specialize (Hloc j).
          rewrite take_snoc_lt in Hloc by lia. apply Hloc.
          rewrite length_app. cbn. lia.
        - intros Heq. apply (Hloc (length (r ++ [e]))); [lia |].
          rewrite firstn_all. symmetry. exact Heq. }
    + (* there already *)
      assert (Hall : ∀ j, (j ≤ length (r ++ [e]))%nat →
                 ∃ q, files w !! (cwd w ++ dst :: take j (r ++ [e])) = Some (Directory q)
                      ∧ rwx q).
      { intros j Hj.
        destruct (Hclear j Hj) as [Hn' | Hs]; [| exact Hs].
        destruct (Hclosed (length (r ++ [e])) j) as [i Hi]; [lia | |].
        - rewrite firstn_all, Hp. eauto.
        - congruence. }
      pose proof (Stat_found w (dst :: r ++ [e]) _ ltac:(discriminate) Hv'
                    (way_dirs w (r ++ [e]) Hc Hx
                       ltac:(intros j Hj; apply Hall; lia)) Hp) as Hstat.
      eexists. split.
      { eapply MkdirAllFrom_there; [exact Hstat |]. apply modeIsDir_Directory. }
      split; [reflexivity |]. split; [reflexivity |]. cbn [files].
      split; [exact Hall | split; reflexivity].
Qed.

End MkdirAll.

(** ** Permissions *)

Lemma umask_owner u k :
  N.land u 0x1c0 = 0 → (k = 6 ∨ k = 7 ∨ k = 8) → N.testbit u k = false.
Proof.
  intros H Hk. apply (f_equal (λ x, N.testbit x k)) in H.
  rewrite N.land_spec, N.bits_0 in H.
  destruct Hk as [-> | [-> | ->]]; cbn in H; rewrite andb_true_r in H; exact H.
Qed.

Lemma rwx_created u m :
  N.land u 0x1c0 = 0 →
  N.testbit m 8 = true → N.testbit m 7 = true → N.testbit m 6 = true →
  rwx (N.ldiff (Perm m) u).
Proof.
  intros Hu H8 H7 H6. unfold rwx, os.readable, os.writable, os.searchable, Perm.
  rewrite !N.ldiff_spec, !N.land_spec, H8, H7, H6.
  rewrite !(umask_owner u) by (assumption || auto). repeat split.
Qed.



Lemma pathOf_length elems :
  Forall validName elems → (length elems ≤ String.length (pathOf elems))%nat.
Proof.
  induction elems as [| e elems IH]; intros Hv; [cbn; lia |].
  inversion Hv as [| ? ? (H1 & _) Hes]; subst.
  destruct elems as [| e' elems].
  - cbn. destruct e; [contradiction | cbn; lia].
  - rewrite pathOf_cons by discriminate. rewrite !string_length_app.
    specialize (IH Hes). cbn [length String.length] in *. lia.
Qed.

(** ** Extracting into a tree that mirrors the source *)

Section TargetTree.
Context (w : World) (s dst : string) (pc : N).
Local Abbreviation fs := (files w).
Local Abbreviation src := (cwd w ++ [s]).
Hypothesis Hdst : validName dst.
Hypothesis Hcx : os.searchable pc = true.
Hypothesis Hcw : os.writable pc = true.
Hypothesis Htree : wfTree fs src.
Hypothesis Humask : N.land (umask w) 0x1c0 = 0.










Lemma bind_assoc {A B C} (c : M A) (k : A → M B) (k' : B → M C) w0 :
  bind (bind c k) k' w0 = bind c (λ x, bind (k x) k') w0.
Proof.
  unfold bind. destruct (c w0) as [[a | e] w1]; reflexivity.
Qed.


Lemma targetDirOf_valid : targetDirOf dst = dst.
Proof.
  unfold targetDirOf. destruct (String.eqb_spec dst "") as [Heq | _]; [| reflexivity].
  destruct Hdst as [Hne _]. contradiction.
Qed.


Lemma WriteAll_file f c w' p c0 :
  files w' !! os.fileLoc f = Some (RegFile p c0) →
  os.WriteAll f c w'
  = (Ok tt,
     mkWorld (<[os.fileLoc f := RegFile p c]> (files w')) (cwd w') (umask w')
             (network w') (sys_write (os.fileLoc f) :: trace w')).
Proof.
  intros Hf. unfold os.WriteAll, bind. rewrite emit_run. cbn [files].
  rewrite Hf. reflexivity.
Qed.







End TargetTree.

(** ** Archive and unarchive, one after the other *)

Lemma wfTree_agree (fs fs' : gmap (list string) Inode) root :
  (∀ rel, fs' !! (root ++ rel) = fs !! (root ++ rel)) →
  wfTree fs root → wfTree fs' root.
Proof.
  intros Hag [H1 H2 H3 H4 H5]. split.
  - destruct H1 as [p Hp]. exists p.
    rewrite <- (List.app_nil_r root), Hag, List.app_nil_r. exact Hp.
  - intros rel. rewrite Hag. apply H2.
  - intros rel name.
    replace (root ++ rel ++ [name]) with (root ++ (rel ++ [name])) by reflexivity.
    rewrite !Hag. apply H3.
  - intros rel p. rewrite Hag. apply H4.
  - intros rel p c. rewrite Hag. apply H5.
Qed.

Lemma entryFor_agree (fs fs' : gmap (list string) Inode) root rel h :
  fs' !! (root ++ rel) = fs !! (root ++ rel) →
  entryFor fs' root rel h → entryFor fs root rel h.
Proof. unfold entryFor. intros ->. trivial. Qed.

(** [os.Create] of a name that is not in the working directory. *)
Lemma Create_new w name pc :
  validName name →
  files w !! cwd w = Some (Directory pc) →
  os.searchable pc = true → os.writable pc = true →
  files w !! (cwd w ++ [name]) = None →
  os.Create name w
  = (Ok (os.mkFile name (cwd w ++ [name])),
     mkWorld (<[cwd w ++ [name] := RegFile (N.ldiff 0x1b6 (umask w)) (Bytes "")]> (files w))
             (cwd w) (umask w) (network w) (sys_creat name :: trace w)).
Proof.
  intros Hn Hc Hx Hw Hnone.
  assert (Hv : Forall validName [name]) by (constructor; [exact Hn | constructor]).
  unfold os.Create, bind. rewrite emit_run.
  change name with (pathOf [name]) at 2.
  rewrite namei_pathOf by (discriminate || assumption). cbn [files cwd umask].
  rewrite walkElems_dirs; [| assumption |].
  - rewrite Hnone, removelast_last, Hc, Hw. reflexivity.
  - intros [| k] Hk; [| cbn in Hk; lia]. cbn [take]. rewrite List.app_nil_r. eauto.
Qed.

(** [zip.OpenReader] of a container in the working directory. *)
Lemma OpenReader_container w name pc p File :
  validName name →
  files w !! cwd w = Some (Directory pc) → os.searchable pc = true →
  files w !! (cwd w ++ [name]) = Some (RegFile p (Zip File)) →
  os.readable p = true →
  ∃ w', zip.OpenReader name w = (Ok File, w') ∧ sameFiles w w'.
Proof.
  intros Hn Hc Hx Hat Hr.
  assert (Hv : Forall validName [name]) by (constructor; [exact Hn | constructor]).
  unfold zip.OpenReader. unfold bind at 1. unfold os.Open, bind. rewrite emit_run.
  change name with (pathOf [name]) at 2.
  rewrite namei_pathOf by (discriminate || assumption). cbn [files cwd umask].
  rewrite walkElems_dirs; [| assumption |].
  - rewrite Hat, Hr. unfold os.ReadAll, bind. rewrite emit_run.
    cbn [files os.fileLoc]. rewrite Hat. unfold ret.
    eexists. split; [reflexivity |]. repeat split.
  - intros [| k] Hk; [| cbn in Hk; lia]. cbn [take]. rewrite List.app_nil_r. eauto.
Qed.

(** [Archive] of a directory [s] of the working directory into a new
    file [zipname] of it: the file then holds the entries of the tree,
    none twice, with one for every regular file, and nothing else has
    changed. *)
Lemma Archive_tree (w : World) (s zipname : string) (pc : N) :
  validName s → validName zipname →
  files w !! cwd w = Some (Directory pc) →
  os.searchable pc = true → os.writable pc = true →
  wfTree (files w) (cwd w ++ [s]) →
  files w !! (cwd w ++ [s; s]) = None →
  files w !! (cwd w ++ [zipname]) = None →
  ∃ w1 File,
    Archive s zipname w = (Ok tt, w1)
    ∧ files w1 = <[cwd w ++ [zipname] := RegFile (N.ldiff 0x1b6 (umask w)) (Zip File)]>
                   (files w)
    ∧ cwd w1 = cwd w ∧ umask w1 = umask w
    ∧ NoDup File
    ∧ Forall (λ h, ∃ rel, rel ≠ [] ∧ entryFor (files w) (cwd w ++ [s]) rel h) File
    ∧ ∀ rel p c, files w !! (cwd w ++ s :: rel) = Some (RegFile p c) →
                 ∃ h, h ∈ File ∧ entryFor (files w) (cwd w ++ [s]) rel h.
Proof.
  intros Hs Hz Hc Hx Hw Htree Hss Hznone.
  assert (Hzs : zipname ≠ s).
  { intros ->. destruct (wf_root _ _ Htree) as [p Hp]. congruence. }
  set (Z := cwd w ++ [zipname]).
  (* the archive is created *)
  pose proof (Create_new w zipname pc Hz Hc Hx Hw Hznone) as Hcreate.
  fold Z in Hcreate.
  set (pz := N.ldiff 0x1b6 (umask w)) in *.
  set (zipfile := os.mkFile zipname Z) in Hcreate.
  set (w1 := mkWorld _ _ _ _ _) in Hcreate.
  assert (Hother : ∀ loc, loc ≠ Z → files w1 !! loc = files w !! loc).
  { intros loc Hloc. cbn [w1 files]. apply lookup_insert_ne. congruence. }
  assert (Hsrc : ∀ rel, files w1 !! ((cwd w ++ [s]) ++ rel) = files w !! ((cwd w ++ [s]) ++ rel)).
  { intros rel. apply Hother. unfold Z. rewrite <- List.app_assoc.
    intros Heq. apply app_inv_head in Heq. cbn in Heq. congruence. }
  assert (Hc1 : files w1 !! cwd w1 = Some (Directory pc)).
  { cbn [w1 cwd]. rewrite Hother; [exact Hc |].
    intros Heq. apply (f_equal length) in Heq. unfold Z in Heq.
    rewrite length_app in Heq. cbn in Heq. lia. }
  (* the source is a directory *)
  destruct (wf_root _ _ Htree) as [ps Hps].
  assert (Hvs : Forall validName [s]) by (constructor; [exact Hs | constructor]).
  pose proof (Stat_found w1 [s] (Directory ps) ltac:(discriminate) Hvs) as Hstat.
  cbn [w1 files cwd umask network trace] in Hstat. fold w1 in Hstat.
  change (pathOf [s]) with s in Hstat.
  specialize (Hstat ltac:(intros [| k] Hk; [| cbn in Hk; lia]; cbn [take];
                          rewrite List.app_nil_r; eauto)).
  rewrite <- (List.app_nil_r (cwd w ++ [s])), Hsrc, List.app_nil_r in Hstat.
  specialize (Hstat Hps).
  set (info := mkFileInfo _ _) in Hstat.
  set (w2 := mkWorld _ _ _ _ _) in Hstat.
  pose proof (createArchive_Walk s zipname w zipfile w1 info w2 Hcreate Hstat) as Hrun.
  cbv zeta in Hrun.
  assert (Hdir : IsDir info = true) by apply modeIsDir_Directory.
  rewrite Hdir, (Base_single s Hs) in Hrun.
  (* the walk *)
  assert (Htree2 : wfTree (files w2) (cwd w2 ++ [s])).
  { apply (wfTree_agree (files w)); [exact Hsrc | exact Htree]. }
  destruct (Walk_tree w2 s pc Hs Hc1 Hx Htree2
              ltac:(cbn [w2 files cwd]; rewrite Hsrc, <- List.app_assoc; exact Hss)
              (zip.NewWriter zipfile) w2 (sameFiles_refl w2))
    as (archive' & w3 & Hwalk & Hsame3 & Hzf & new & Hnew & Hnodup & Hall & Hevery).
  rewrite Hwalk in Hrun. cbn [fst snd] in Hrun.
  cbn [zip.NewWriter zip.entries zip.dir zip.last app] in Hnew.
  destruct Hsame3 as (Hf3 & Hcw3 & Hum3 & Hnet3).
  cbn [w2 files cwd umask network app] in Hf3, Hcw3, Hum3, Hnet3, Hall, Hevery.
  assert (Hzat : files w3 !! os.fileLoc (zip.zipfile archive') = Some (RegFile pz (Bytes ""))).
  { rewrite Hzf, Hf3. cbn [zip.NewWriter zip.zipfile zipfile os.fileLoc w1 files].
    apply lookup_insert_eq. }
  rewrite (Close_regular archive' w3 pz (Bytes "") Hzat) in Hrun. cbn [snd] in Hrun.
  rewrite Hzf, Hnew in Hrun.
  cbn [zip.NewWriter zip.zipfile zipfile os.fileLoc] in Hrun.
  set (w4 := mkWorld _ _ _ _ _) in Hrun.
  exists w4, new. split.
  { rewrite Archive_createArchive; [exact Hrun | apply Hs | apply Hz]. }
  split; [cbn [w4 files]; rewrite Hf3; cbn [w1 files]; apply insert_insert_eq |].
  split; [exact Hcw3 |]. split; [exact Hum3 |]. split; [exact Hnodup |]. split.
  { eapply Forall_impl; [exact Hall |]. intros h (rel & Hne & Hentry).
    exists rel. split; [exact Hne |].
    apply (entryFor_agree _ (files w1)); [apply Hsrc | exact Hentry]. }
  intros rel p c Hrel. destruct (Hevery rel p c) as (h & Hin & Hentry).
  - rewrite Hsrc, <- List.app_assoc. exact Hrel.
  - exists h. split; [exact Hin |].
    apply (entryFor_agree _ (files w1)); [apply Hsrc | exact Hentry].
Qed.


(** C2: when the directory [s] of the working directory holds one
    regular file [b] and nothing else, archiving [s] into a new file of
    the working directory gives a container with exactly one entry: the
    file entry named [b], compressed with deflate, with the bytes of the
    file.  No entry is written for the directory, and the name of the
    entry does not begin with the name of the directory. *)
Theorem Archive_single_file (w : World) (s zipname b : string) (pc p : N) (c : content) :
  validName s → validName zipname →
  files w !! cwd w = Some (Directory pc) →
  os.searchable pc = true → os.writable pc = true →
  wfTree (files w) (cwd w ++ [s]) →
  files w !! (cwd w ++ [zipname]) = None →
  b ≠ s →
  files w !! (cwd w ++ [s; b]) = Some (RegFile p c) →
  (∀ rel, is_Some (files w !! (cwd w ++ s :: rel)) → rel = [] ∨ rel = [b]) →
  ∃ w1,
    Archive s zipname w = (Ok tt, w1)
    ∧ containerAt w1 (cwd w ++ [zipname])
      = Some [mkFileHeader b (Perm p) zip.Deflate c].
Proof.
  intros Hs Hz Hc Hx Hw Htree Hznone Hbs Hb Honly.
  assert (Hss : files w !! (cwd w ++ [s; s]) = None).
  { destruct (files w !! (cwd w ++ [s; s])) as [i |] eqn:Hi; [| reflexivity].
    destruct (Honly [s]) as [Heq | Heq]; [rewrite Hi; eauto | discriminate | congruence]. }
  destruct (Archive_tree w s zipname pc Hs Hz Hc Hx Hw Htree Hss Hznone)
    as (w1 & File & Hrun & Hf1 & _ & _ & Hnodup & Hall & Hevery).
  exists w1. split; [exact Hrun |].
  unfold containerAt. rewrite Hf1, lookup_insert_eq. f_equal.
  set (h := mkFileHeader b (Perm p) zip.Deflate c).
  assert (Hsound : ∀ h', h' ∈ File → h' = h).
  { intros h' Hin. rewrite Forall_forall in Hall.
    destruct (Hall h' Hin) as (rel & Hne & Hentry). unfold entryFor in Hentry.
    destruct (files w !! ((cwd w ++ [s]) ++ rel)) as [i |] eqn:Hi; [| contradiction].
    rewrite <- List.app_assoc in Hi. cbn [app] in Hi.
    destruct (Honly rel) as [-> | ->]; [rewrite Hi; eauto | contradiction |].
    cbn [app] in Hi. rewrite Hb in Hi. injection Hi as <-. exact Hentry. }
  destruct (Hevery [b] p c Hb) as (h0 & Hin0 & _).
  destruct File as [| h1 [| h2 File]].
  - apply elem_of_nil in Hin0. contradiction.
  - rewrite (Hsound h1) by left. reflexivity.
  - exfalso. apply NoDup_cons in Hnodup as [Hnotin _]. apply Hnotin.
    rewrite (Hsound h1) by left.
    rewrite <- (Hsound h2) by (right; left). left.
Qed.

(** *** The scenario of [helloWorld] *)

(** The tree at [a] is well formed, it holds [b.txt] only, and nothing
    is at [dst]. *)
Lemma wfTree_hello : wfTree (files helloWorld) (cwd helloWorld ++ ["a"]).
Proof.
  change (wfTree (files helloWorld) ["work"; "a"]).
  assert (Hkeys : ∀ rel, is_Some (files helloWorld !! (["work"; "a"] ++ rel)) →
                         rel = [] ∨ rel = ["b.txt"]).
  { intros rel [i Hi]. apply elem_of_map_to_list in Hi.
    vm_compute in Hi.
    repeat (apply elem_of_cons in Hi as [Hi | Hi]; [injection Hi as Hi _ |]).
    all: try (apply elem_of_nil in Hi; contradiction).
    all: try discriminate Hi.
    all: repeat (destruct rel as [| ? rel]; try discriminate Hi); auto.
    all: injection Hi as ->; auto. }
  split.
  - eexists. vm_compute. reflexivity.
  - intros rel H. destruct (Hkeys rel H) as [-> | ->].
    + constructor.
    + constructor; [| constructor]. repeat split; discriminate.
  - intros rel name H.
    destruct (Hkeys (rel ++ [name]) H) as [Heq | Heq].
    + destruct rel; discriminate.
    + destruct rel as [| x [| y rel]]; try discriminate.
      eexists. vm_compute. reflexivity.
  - intros rel p H. destruct (Hkeys rel ltac:(rewrite H; eauto)) as [-> | ->].
    + vm_compute in H. injection H as <-. repeat split.
    + vm_compute in H. discriminate.
  - intros rel p c H. destruct (Hkeys rel ltac:(rewrite H; eauto)) as [-> | ->].
    + vm_compute in H. discriminate.
    + vm_compute in H. injection H as <- <-. reflexivity.
Qed.

Lemma freshTarget_hello rel :
  files helloWorld !! (cwd helloWorld ++ "dst" :: rel) = None.
Proof.
  destruct (files helloWorld !! (cwd helloWorld ++ "dst" :: rel)) as [i |] eqn:Hi;
    [| reflexivity].
  exfalso. apply elem_of_map_to_list in Hi. vm_compute in Hi.
  repeat (apply elem_of_cons in Hi as [Hi | Hi]; [discriminate Hi |]).
  apply elem_of_nil in Hi. exact Hi.
Qed.

Lemma onlyFile_hello rel :
  is_Some (files helloWorld !! (cwd helloWorld ++ "a" :: rel)) →
  rel = [] ∨ rel = ["b.txt"].
Proof.
  intros [i Hi]. apply elem_of_map_to_list in Hi. vm_compute in Hi.
  repeat (apply elem_of_cons in Hi as [Hi | Hi];
          [injection Hi as Hi _;
           repeat (destruct rel as [| ? rel]; try discriminate Hi); auto;
           injection Hi as ->; auto |]).
  apply elem_of_nil in Hi. contradiction.
Qed.

Lemma validName_a : validName "a".
Proof. repeat split; discriminate. Qed.

Lemma validName_out_zip : validName "out.zip".
Proof. repeat split; discriminate. Qed.

Lemma validName_dst : validName "dst".
Proof. repeat split; discriminate. Qed.


Lemma Archive_single_file_witness :
  (validName "a" ∧ validName "out.zip"
   ∧ files helloWorld !! cwd helloWorld = Some (Directory 0x1ed)
   ∧ os.searchable 0x1ed = true ∧ os.writable 0x1ed = true
   ∧ wfTree (files helloWorld) (cwd helloWorld ++ ["a"])
   ∧ files helloWorld !! (cwd helloWorld ++ ["out.zip"]) = None
   ∧ "b.txt" ≠ "a"
   ∧ files helloWorld !! (cwd helloWorld ++ ["a"; "b.txt"])
     = Some (RegFile 0x1a4 (Bytes "hello"))
   ∧ ∀ rel, is_Some (files helloWorld !! (cwd helloWorld ++ "a" :: rel)) →
            rel = [] ∨ rel = ["b.txt"])
  ∧ ∃ w1,
      Archive "a" "out.zip" helloWorld = (Ok tt, w1)
      ∧ containerAt w1 (cwd helloWorld ++ ["out.zip"])
        = Some [mkFileHeader "b.txt" (Perm 0x1a4) zip.Deflate (Bytes "hello")].
Proof.
  assert (H1 : files helloWorld !! cwd helloWorld = Some (Directory 0x1ed))
    by (vm_compute; reflexivity).
  assert (H2 : os.searchable 0x1ed = true) by reflexivity.
  assert (H3 : os.writable 0x1ed = true) by reflexivity.
  assert (H4 : files helloWorld !! (cwd helloWorld ++ ["out.zip"]) = None)
    by (vm_compute; reflexivity).
  assert (H5 : "b.txt" ≠ "a") by discriminate.
  assert (H6 : files helloWorld !! (cwd helloWorld ++ ["a"; "b.txt"])
               = Some (RegFile 0x1a4 (Bytes "hello")))
    by (vm_compute; reflexivity).
  split.
  { exact (conj validName_a (conj validName_out_zip (conj H1 (conj H2 (conj H3
             (conj wfTree_hello (conj H4 (conj H5 (conj H6 onlyFile_hello))))))))). }
  exact (Archive_single_file helloWorld "a" "out.zip" "b.txt" 0x1ed 0x1a4 (Bytes "hello")
           validName_a validName_out_zip H1 H2 H3 wfTree_hello H4 H5 H6 onlyFile_hello).
Defined.

(** * More properties of package [zip] *)

(** ** When [Archive] returns nil *)

(** X1: [Archive] returns nil exactly when its arguments are not empty, the
    target can be created and the source can then be stat'ed.  Nothing
    that happens in the walk over the source makes it return an
    error. *)
Theorem Archive_succeeds_iff (source target : string) (w : World) :
  fst (Archive source target w) = Ok tt ↔
  source ≠ "" ∧ target ≠ ""
  ∧ ∃ zipfile w1 info,
      os.Create target w = (Ok zipfile, w1) ∧ fst (os.Stat source w1) = Ok info.
Proof.
  split.
  - intros Hok. unfold Archive in Hok.
    destruct (String.eqb_spec target "") as [| Ht]; [discriminate Hok |].
    destruct (String.eqb_spec source "") as [| Hs]; [discriminate Hok |].
    split; [exact Hs |]. split; [exact Ht |].
    destruct (os.Create target w) as [[zipfile | e1] w1] eqn:Hc.
    + exists zipfile, w1.
      destruct (os.Stat source w1) as [[info | e2] w2] eqn:Hst; [eauto |].
      rewrite (createArchive_Stat_Err _ _ _ _ _ _ _ Hc Hst) in Hok. discriminate Hok.
    + rewrite (createArchive_Create_Err _ _ _ _ _ Hc) in Hok. discriminate Hok.
  - intros (Hs & Ht & zipfile & w1 & info & Hc & Hst).
    rewrite Archive_createArchive by assumption.
    destruct (os.Stat source w1) as [r w2] eqn:Hst'. cbn [fst] in Hst. subst r.
    pose proof (createArchive_Walk _ _ _ _ _ _ _ Hc Hst') as H. cbv zeta in H.
    rewrite H. reflexivity.
Qed.

(** ** What [Archive] changes *)

Lemma Create_namei path w f w1 :
  os.Create path w = (Ok f, w1) → os.namei w path = inr (os.fileLoc f).
Proof.
  unfold os.Create, bind. rewrite emit_run.
  set (w0 := mkWorld _ _ _ _ _).
  assert (Hn : os.namei w0 path = os.namei w path) by reflexivity.
  rewrite Hn. destruct (os.namei w path) as [errno | loc]; [discriminate |].
  destruct (files w0 !! loc) as [[perm c | perm] |].
  - destruct (os.readable perm && os.writable perm); [| discriminate].
    intros [= <- _]. reflexivity.
  - discriminate.
  - destruct (files w0 !! removelast loc) as [[pp c | pp] |]; try discriminate.
    destruct (os.writable pp); [| discriminate]. intros [= <- _]. reflexivity.
Qed.

Lemma Close_other archive w r w' loc :
  zip.Close archive w = (r, w') →
  loc ≠ os.fileLoc (zip.zipfile archive) →
  files w' !! loc = files w !! loc.
Proof.
  unfold zip.Close, os.WriteAll, bind. rewrite emit_run. cbn [files].
  destruct (files w !! os.fileLoc (zip.zipfile archive)) as [[perm c | perm] |];
    intros [= _ <-] Hne; cbn [files putInode]; try reflexivity.
  apply lookup_insert_ne. congruence.
Qed.

(** The walk of [createArchive] reads: the files stay as they are, and
    the writer stays on its file. *)
Lemma Walk_reads root baseDir archive w r archive' w' :
  filepathWalk.Walk root (walkFn baseDir) archive w = ((r, archive'), w') →
  sameFiles w w' ∧ zip.zipfile archive' = zip.zipfile archive.
Proof.
  apply (Walk_invariant (walkFn baseDir) (λ _, True)
           (λ a wb, sameFiles w wb ∧ zip.zipfile a = zip.zipfile archive)).
  - trivial.
  - intros s wa wb (H1 & H2) Hab. split; [eapply sameFiles_trans; eassumption | exact H2].
  - intros path fi e s wa r0 s' wb _ (H1 & H2) Hfn.
    destruct (walkFn_entries baseDir (λ _ _, True) _ _ _ _ _ _ _ _ Hfn) as (_ & H2' & H3').
    + trivial.
    + apply Forall_forall. trivial.
    + split; [eapply sameFiles_trans; eassumption | congruence].
  - trivial.
  - split; [apply sameFiles_refl | reflexivity].
Qed.

(** X2: [Archive] writes to its target only: what is at any other place is
    after the call what it was before, whatever the call returns. *)
Theorem Archive_changes_target_only (source target : string) (w : World)
        (loc : list string) :
  os.namei w target ≠ inr loc →
  files (snd (Archive source target w)) !! loc = files w !! loc.
Proof.
  intros Hloc. unfold Archive.
  destruct (String.eqb target ""); [reflexivity |].
  destruct (String.eqb source ""); [reflexivity |].
  destruct (os.Create target w) as [[zipfile | e1] w1] eqn:Hc.
  - pose proof (Create_namei _ _ _ _ Hc) as Hn.
    assert (Hne : loc ≠ os.fileLoc zipfile) by congruence.
    destruct (Create_Ok _ _ _ _ Hc) as (perm & Hf1 & _).
    assert (H1 : files w1 !! loc = files w !! loc).
    { rewrite Hf1. apply lookup_insert_ne. congruence. }
    destruct (os.Stat source w1) as [[info | e2] w2] eqn:Hst.
    + pose proof (createArchive_Walk _ _ _ _ _ _ _ Hc Hst) as H. cbv zeta in H.
      rewrite H. cbn [snd].
      destruct (filepathWalk.Walk source _ (zip.NewWriter zipfile) w2)
        as [[r archive] w3] eqn:Hw. cbn [fst snd].
      destruct (Walk_reads _ _ _ _ _ _ _ Hw) as ((Hf3 & _) & Hz).
      destruct (Stat_sameFiles _ _ _ _ Hst) as (Hf2 & _).
      destruct (zip.Close archive w3) as [rc w4] eqn:Hcl. cbn [snd].
      rewrite (Close_other _ _ _ _ loc Hcl) by (rewrite Hz; exact Hne).
      rewrite Hf3, Hf2. exact H1.
    + rewrite (createArchive_Stat_Err _ _ _ _ _ _ _ Hc Hst). cbn [snd].
      destruct (Stat_sameFiles _ _ _ _ Hst) as (Hf2 & _).
      destruct (zip.Close (zip.NewWriter zipfile) w2) as [rc w4] eqn:Hcl. cbn [snd].
      rewrite (Close_other _ _ _ _ loc Hcl) by exact Hne.
      rewrite Hf2. exact H1.
  - rewrite (createArchive_Create_Err _ _ _ _ _ Hc). cbn [snd].
    destruct (Create_Err _ _ _ _ Hc) as ((Hf & _) & _). rewrite Hf. reflexivity.
Qed.

Lemma Archive_changes_target_only_witness :
  os.namei helloWorld "out.zip" ≠ inr ["work"; "a"; "b.txt"]
  ∧ files (snd (Archive "a" "out.zip" helloWorld)) !! ["work"; "a"; "b.txt"]
    = files helloWorld !! ["work"; "a"; "b.txt"].
Proof.
  assert (H : os.namei helloWorld "out.zip" ≠ inr ["work"; "a"; "b.txt"])
    by (vm_compute; discriminate).
  split; [exact H |].
  exact (Archive_changes_target_only "a" "out.zip" helloWorld ["work"; "a"; "b.txt"] H).
Defined.

(** ** What [Unarchive] leaves in place *)

Lemma keeps_refl w : keeps w w.
Proof. intros loc [p c | p] H; eauto. Qed.

Lemma keeps_trans w1 w2 w3 : keeps w1 w2 → keeps w2 w3 → keeps w1 w3.
Proof.
  intros H12 H23 loc i Hi. specialize (H12 loc i Hi). destruct i as [p c | p].
  - destruct H12 as [c' Hc']. apply (H23 loc _ Hc').
  - apply (H23 loc _ H12).
Qed.

Lemma sameFiles_keeps w w' : sameFiles w w' → keeps w w'.
Proof. intros (Hf & _) loc i Hi. rewrite Hf. destruct i; eauto. Qed.

Lemma putInode_new_keeps loc i w :
  files w !! loc = None → keeps w (putInode loc i w).
Proof.
  intros Hnone l j Hj. cbn [putInode files].
  rewrite lookup_insert_ne by congruence. destruct j; eauto.
Qed.

Lemma putInode_file_keeps loc p c c' w :
  files w !! loc = Some (RegFile p c) → keeps w (putInode loc (RegFile p c') w).
Proof.
  intros Hat l j Hj. cbn [putInode files].
  destruct (decide (l = loc)) as [-> | Hne].
  - rewrite lookup_insert_eq. rewrite Hat in Hj. injection Hj as <-. eauto.
  - rewrite lookup_insert_ne by congruence. destruct j; eauto.
Qed.

Lemma Mkdir_keeps name perm w r w' : os.Mkdir name perm w = (r, w') → keeps w w'.
Proof.
  unfold os.Mkdir, bind. rewrite emit_run. set (w0 := mkWorld _ _ _ _ _).
  assert (H0 : keeps w w0) by (apply sameFiles_keeps; repeat split).
  destruct (os.namei w0 _) as [errno | loc]; [intros [= _ <-]; exact H0 |].
  destruct (files w0 !! loc) as [i |] eqn:Hi; [intros [= _ <-]; exact H0 |].
  destruct (files w0 !! removelast loc) as [[pp c | pp] |];
    try (intros [= _ <-]; exact H0).
  destruct (os.writable pp); intros [= _ <-]; [| exact H0].
  eapply keeps_trans; [exact H0 | apply putInode_new_keeps, Hi].
Qed.

Lemma MkdirAllFrom_keeps n : ∀ path perm w r w',
  os.MkdirAllFrom n path perm w = (r, w') → keeps w w'.
Proof.
  induction n as [| n IH]; intros path perm w r w'; cbn [os.MkdirAllFrom];
    unfold bind at 1; unfold try at 1;
    destruct (os.Stat path w) as [[fi | e] w1] eqn:Hst;
    apply Stat_sameFiles, sameFiles_keeps in Hst.
  1,3: destruct (IsDir fi); intros [= _ <-]; exact Hst.
  - unfold bind at 1.
    assert (Hret : (match os.parentOf path with Some _ | _ => ret tt end) w1
                   = (Ok tt, w1)) by (destruct (os.parentOf path); reflexivity).
    rewrite Hret. unfold bind at 1. unfold try at 1.
    destruct (os.Mkdir path perm w1) as [[[] | e1] w2] eqn:Hmk;
      apply Mkdir_keeps in Hmk.
    + intros [= _ <-]. eapply keeps_trans; eassumption.
    + unfold bind, try.
      destruct (os.Lstat path w2) as [[fi | e2] w3] eqn:Hl;
        apply Lstat_sameFiles, sameFiles_keeps in Hl;
        [destruct (IsDir fi) |]; intros [= _ <-];
        (eapply keeps_trans; [exact Hst | eapply keeps_trans; eassumption]).
  - unfold bind at 1.
    assert (Hpar : ∃ rp wp, (match os.parentOf path with
                             | Some parent => os.MkdirAllFrom n parent perm
                             | None => ret tt
                             end) w1 = (rp, wp) ∧ keeps w1 wp).
    { destruct (os.parentOf path) as [parent |].
      - destruct (os.MkdirAllFrom n parent perm w1) as [rp wp] eqn:Hp.
        exists rp, wp. split; [reflexivity | apply (IH _ _ _ _ _ Hp)].
      - exists (Ok tt), w1. split; [reflexivity | apply keeps_refl]. }
    destruct Hpar as (rp & wp & -> & Hkp).
    destruct rp as [[] | ep]; [| intros [= _ <-]; eapply keeps_trans; eassumption].
    unfold bind at 1. unfold try at 1.
    destruct (os.Mkdir path perm wp) as [[[] | e1] w2] eqn:Hmk;
      apply Mkdir_keeps in Hmk.
    + intros [= _ <-]. eapply keeps_trans; [exact Hst | eapply keeps_trans; eassumption].
    + unfold bind, try.
      destruct (os.Lstat path w2) as [[fi | e2] w3] eqn:Hl;
        apply Lstat_sameFiles, sameFiles_keeps in Hl;
        [destruct (IsDir fi) |]; intros [= _ <-];
        (eapply keeps_trans; [exact Hst |];
         eapply keeps_trans; [exact Hkp |]; eapply keeps_trans; eassumption).
Qed.

Lemma Create_keeps path w r w' : os.Create path w = (r, w') → keeps w w'.
Proof.
  unfold os.Create, bind. rewrite emit_run. set (w0 := mkWorld _ _ _ _ _).
  assert (H0 : keeps w w0) by (apply sameFiles_keeps; repeat split).
  destruct (os.namei w0 _) as [errno | loc]; [intros [= _ <-]; exact H0 |].
  destruct (files w0 !! loc) as [[perm c | perm] |] eqn:Hi.
  - destruct (os.readable perm && os.writable perm); intros [= _ <-]; [| exact H0].
    eapply keeps_trans; [exact H0 | eapply putInode_file_keeps, Hi].
  - intros [= _ <-]; exact H0.
  - destruct (files w0 !! removelast loc) as [[pp c | pp] |];
      try (intros [= _ <-]; exact H0).
    destruct (os.writable pp); intros [= _ <-]; [| exact H0].
    eapply keeps_trans; [exact H0 | apply putInode_new_keeps, Hi].
Qed.

Lemma WriteAll_keeps f c w r w' : os.WriteAll f c w = (r, w') → keeps w w'.
Proof.
  unfold os.WriteAll, bind. rewrite emit_run. set (w0 := mkWorld _ _ _ _ _).
  assert (H0 : keeps w w0) by (apply sameFiles_keeps; repeat split).
  destruct (files w0 !! os.fileLoc f) as [[perm c0 | perm] |] eqn:Hi;
    intros [= _ <-]; try exact H0.
  eapply keeps_trans; [exact H0 | eapply putInode_file_keeps, Hi].
Qed.

Lemma try_keeps {A} (c : M A) w r w' :
  (∀ r0 w0, c w = (r0, w0) → keeps w w0) → try c w = (r, w') → keeps w w'.
Proof.
  intros H. unfold try. destruct (c w) as [r0 w0] eqn:Hc. intros [= _ <-].
  apply (H _ _ eq_refl).
Qed.

Lemma ensure_keeps path w r w' :
  (let* st := try (os.Stat path) in
   if IsNotExist st then try (os.MkdirAll path 0x1ed) else ret (Ok tt)) w = (r, w') →
  keeps w w'.
Proof.
  unfold bind at 1. unfold try at 1.
  destruct (os.Stat path w) as [st w1] eqn:Hst.
  apply Stat_sameFiles, sameFiles_keeps in Hst.
  destruct (IsNotExist st).
  - intros H. eapply keeps_trans; [exact Hst |].
    revert H. apply try_keeps. intros r0 w0. apply MkdirAllFrom_keeps.
  - intros [= _ <-]. exact Hst.
Qed.

Lemma extract_keeps target file w r w' : extract target file w = (r, w') → keeps w w'.
Proof.
  unfold extract. unfold bind at 1.
  destruct (zip.Open file) as [zippedFile | e]; [| intros [= _ <-]; apply keeps_refl].
  set (path := filepath.Join _).
  destruct (modeIsDir (zip.Mode file)).
  - rewrite <- (bind_assoc (try (os.Stat (filepath.Dir path)))
      (λ st, if IsNotExist st then try (os.MkdirAll (filepath.Dir path) 0x1ed)
             else ret (Ok tt))).
    unfold bind at 1.
    destruct (bind (try (os.Stat (filepath.Dir path))) _ w) as [[x | e] w1] eqn:H1;
      apply ensure_keeps in H1; [| intros [= _ <-]; exact H1].
    unfold bind, try.
    destruct (os.MkdirAll path (zip.Mode file) w1) as [r2 w2] eqn:H2.
    apply MkdirAllFrom_keeps in H2. intros [= _ <-].
    eapply keeps_trans; eassumption.
  - rewrite <- (bind_assoc (try (os.Stat (filepath.Dir path)))
      (λ st, if IsNotExist st then try (os.MkdirAll (filepath.Dir path) 0x1ed)
             else ret (Ok tt))).
    unfold bind at 1.
    destruct (bind (try (os.Stat (filepath.Dir path))) _ w) as [[x | e] w1] eqn:H1;
      apply ensure_keeps in H1; [| intros [= _ <-]; exact H1].
    unfold bind.
    destruct (os.Create path w1) as [[f | e] w2] eqn:H2; apply Create_keeps in H2.
    + intros H3. apply WriteAll_keeps in H3.
      eapply keeps_trans; [exact H1 | eapply keeps_trans; eassumption].
    + intros [= _ <-]. eapply keeps_trans; eassumption.
Qed.

Lemma extractAll_keeps target File : ∀ w r w',
  extractAll target File w = (r, w') → keeps w w'.
Proof.
  induction File as [| file File IH]; intros w r w'; cbn [extractAll].
  - intros [= _ <-]. apply keeps_refl.
  - unfold bind. destruct (extract target file w) as [[[] | e] w1] eqn:H1;
      apply extract_keeps in H1.
    + intros H2. apply IH in H2. eapply keeps_trans; eassumption.
    + intros [= _ <-]. exact H1.
Qed.

Lemma OpenReader_sameFiles name w r w' :
  zip.OpenReader name w = (r, w') → sameFiles w w'.
Proof.
  unfold zip.OpenReader. unfold bind at 1.
  destruct (os.Open name w) as [[f | e] w1] eqn:Ho; apply Open_sameFiles in Ho;
    [| intros [= _ <-]; exact Ho].
  unfold bind.
  destruct (os.ReadAll f w1) as [[c | e] w2] eqn:Hr; apply ReadAll_sameFiles in Hr.
  - destruct c; intros [= _ <-]; eapply sameFiles_trans; eassumption.
  - intros [= _ <-]. eapply sameFiles_trans; eassumption.
Qed.

(** X5: [Unarchive] removes nothing, whatever it returns: a directory that
    was there is there as it was, and a regular file that was there is
    a regular file with the same permission bits (an entry may have
    replaced its bytes). *)
Theorem Unarchive_keeps (source target : string) (w : World) :
  keeps w (snd (Unarchive source target w)).
Proof.
  unfold Unarchive, bind.
  destruct (zip.OpenReader source w) as [[File | e] w1] eqn:Ho;
    apply OpenReader_sameFiles, sameFiles_keeps in Ho; [| exact Ho].
  destruct (extractAll target File w1) as [r w2] eqn:He. cbn [snd].
  apply extractAll_keeps in He. eapply keeps_trans; eassumption.
Qed.

(** ** Directory entries and the result of [Unarchive] *)

(** X6: an archive of directory entries only makes [Unarchive] return nil,
    whatever is at the target: no failure to make a directory comes
    out. *)
Theorem Unarchive_directories_never_fail
        (source target : string) (w w1 : World) (File : list FileHeader) :
  zip.OpenReader source w = (Ok File, w1) →
  Forall (λ f, modeIsDir (zip.Mode f) = true ∧ zip.supported (Method f) = true) File →
  fst (Unarchive source target w) = Ok tt.
Proof.
  intros Ho Hall. unfold Unarchive. rewrite (bind_Ok _ _ _ _ _ Ho).
  clear Ho. revert w1. induction Hall as [| f File (Hd & Hm) _ IH]; intros w1.
  - reflexivity.
  - cbn [extractAll]. unfold bind.
    pose proof (extract_directory_never_fails target f w1 Hd Hm) as Hf.
    destruct (extract target f w1) as [r w2]. cbn [fst] in Hf. subst r. apply IH.
Qed.

(** ** The empty target *)

Lemma Join_dot_slash name : filepath.Join ["./"; name] = filepath.Join ["."; name].
Proof.
  cbn [filepath.Join String.eqb Ascii.eqb Bool.eqb].
  cbn [strings.Join].
  destruct name as [| c name]; reflexivity.
Qed.

(** X7: with an empty target [Unarchive] extracts into the working
    directory: it does what it does with the target [.]. *)
Theorem Unarchive_empty_target (source : string) (w : World) :
  Unarchive source "" w = Unarchive source "." w.
Proof.
  unfold Unarchive, bind.
  destruct (zip.OpenReader source w) as [[File | e] w1]; [| reflexivity].
  revert w1. induction File as [| f File IH]; intros w1; [reflexivity |].
  cbn [extractAll]. unfold bind.
  assert (Hx : extract "" f w1 = extract "." f w1).
  { unfold extract. cbn [targetDirOf String.eqb Ascii.eqb Bool.eqb].
    rewrite Join_dot_slash. reflexivity. }
  rewrite Hx. destruct (extract "." f w1) as [[[] | e] w2]; [apply IH | reflexivity].
Qed.

(** ** A source that is a regular file *)

Lemma basename_pathOf l e :
  Forall validName (l ++ [e]) → os.basename (pathOf (l ++ [e])) = e.
Proof.
  intros Hv. assert (Hne : l ++ [e] ≠ []) by (destruct l; discriminate).
  unfold os.basename. rewrite trimTrailingSeparators_pathOf by assumption.
  pose proof (pathOf_nonempty _ Hne Hv) as Hp.
  destruct (pathOf (l ++ [e])) as [| c0 p0] eqn:Hpath; [contradiction |].
  rewrite <- Hpath. unfold filepath.lastElement.
  rewrite Split_pathOf by assumption. rewrite last_snoc. reflexivity.
Qed.

Lemma Lstat_found w elems i :
  elems ≠ [] → Forall validName elems →
  (∀ k, (k < length elems)%nat →
        ∃ p, files w !! (cwd w ++ take k elems) = Some (Directory p)
             ∧ os.searchable p = true) →
  files w !! (cwd w ++ elems) = Some i →
  os.Lstat (pathOf elems) w
  = (Ok (mkFileInfo (os.basename (pathOf elems)) (os.inodeMode i)),
     mkWorld (files w) (cwd w) (umask w) (network w)
             (sys_lstat (pathOf elems) :: trace w)).
Proof.
  intros Hne Hv Hway Hi. unfold os.Lstat, bind. rewrite emit_run.
  apply statAt_found; assumption.
Qed.

Lemma Open_found w elems p c :
  elems ≠ [] → Forall validName elems →
  (∀ k, (k < length elems)%nat →
        ∃ p, files w !! (cwd w ++ take k elems) = Some (Directory p)
             ∧ os.searchable p = true) →
  files w !! (cwd w ++ elems) = Some (RegFile p c) →
  os.readable p = true →
  os.Open (pathOf elems) w
  = (Ok (os.mkFile (pathOf elems) (cwd w ++ elems)),
     mkWorld (files w) (cwd w) (umask w) (network w)
             (sys_open (pathOf elems) :: trace w)).
Proof.
  intros Hne Hv Hway Hi Hr. unfold os.Open, bind. rewrite emit_run.
  rewrite namei_pathOf by assumption. cbn [files cwd].
  rewrite walkElems_dirs by assumption. rewrite Hi, Hr. reflexivity.
Qed.

(** X3: when the source is a regular file, the container has one entry: it
    carries the base name of the source, not its path, is compressed
    with deflate and holds the bytes of the file. *)
Theorem Archive_regular_file
        (w : World) (dirs : list string) (name zipname : string)
        (pc p : N) (c : content) :
  Forall validName (dirs ++ [name]) → validName zipname →
  files w !! cwd w = Some (Directory pc) → os.writable pc = true →
  (∀ k, (k ≤ length dirs)%nat →
        ∃ q, files w !! (cwd w ++ take k dirs) = Some (Directory q)
             ∧ os.searchable q = true) →
  files w !! (cwd w ++ dirs ++ [name]) = Some (RegFile p c) →
  os.readable p = true →
  files w !! (cwd w ++ [zipname]) = None →
  ∃ w',
    Archive (pathOf (dirs ++ [name])) zipname w = (Ok tt, w')
    ∧ containerAt w' (cwd w ++ [zipname])
      = Some [mkFileHeader name (Perm p) zip.Deflate c].
Proof.
  intros Hv Hz Hc Hw Hway Hfile Hr Hznone.
  set (elems := dirs ++ [name]) in *.
  assert (Hne : elems ≠ []) by (unfold elems; destruct dirs; discriminate).
  assert (Hlen : length elems = S (length dirs))
    by (unfold elems; rewrite length_app; cbn; lia).
  assert (Hvn : validName name).
  { apply Forall_app in Hv as [_ Hn]. inversion Hn; assumption. }
  assert (Hx : os.searchable pc = true).
  { destruct (Hway 0%nat) as (q & Hq & Hqx); [lia |].
    cbn [take] in Hq. rewrite List.app_nil_r in Hq. congruence. }
  set (Z := cwd w ++ [zipname]) in *.
  pose proof (Create_new w zipname pc Hz Hc Hx Hw Hznone) as Hcreate.
  fold Z in Hcreate.
  set (pz := N.ldiff 0x1b6 (umask w)) in *.
  set (zipfile := os.mkFile zipname Z) in Hcreate.
  set (w1 := mkWorld _ _ _ _ _) in Hcreate.
  assert (Hother : ∀ loc, is_Some (files w !! loc) → files w1 !! loc = files w !! loc).
  { intros loc [i Hi]. cbn [w1 files]. apply lookup_insert_ne. congruence. }
  assert (Hway1 : ∀ w', sameFiles w1 w' →
            ∀ k, (k < length elems)%nat →
                 ∃ q, files w' !! (cwd w' ++ take k elems) = Some (Directory q)
                      ∧ os.searchable q = true).
  { intros w' (Hf & Hcw & _) k Hk. rewrite Hf, Hcw. cbn [w1 cwd].
    unfold elems. rewrite take_app_le by lia.
    destruct (Hway k) as (q & Hq & Hqx); [lia |].
    exists q. split; [| exact Hqx]. rewrite Hother; [exact Hq | rewrite Hq; eauto]. }
  assert (Hfile1 : ∀ w', sameFiles w1 w' →
            files w' !! (cwd w' ++ elems) = Some (RegFile p c)).
  { intros w' (Hf & Hcw & _). rewrite Hf, Hcw. cbn [w1 cwd].
    rewrite Hother; [exact Hfile | fold elems in Hfile; rewrite Hfile; eauto]. }
  (* the source is a regular file *)
  pose proof (Stat_found w1 elems _ Hne Hv (Hway1 w1 (sameFiles_refl _))
                (Hfile1 w1 (sameFiles_refl _))) as Hstat.
  unfold elems in Hstat at 2. rewrite basename_pathOf in Hstat by exact Hv.
  fold elems in Hstat.
  set (info := mkFileInfo name _) in Hstat.
  set (w2 := mkWorld _ _ _ _ _) in Hstat.
  assert (Hs2 : sameFiles w1 w2) by (repeat split).
  pose proof (createArchive_Walk _ zipname w zipfile w1 info w2 Hcreate Hstat) as Hrun.
  cbv zeta in Hrun.
  assert (Hdir : IsDir info = false) by apply (modeIsDir_RegFile p c).
  rewrite Hdir in Hrun.
  (* the walk visits the file only *)
  unfold filepathWalk.Walk in Hrun.
  pose proof (Lstat_found w2 elems _ Hne Hv (Hway1 w2 Hs2) (Hfile1 w2 Hs2)) as Hlstat.
  unfold elems in Hlstat at 2. rewrite basename_pathOf in Hlstat by exact Hv.
  fold elems in Hlstat. fold info in Hlstat.
  set (w3 := mkWorld _ _ _ _ _) in Hlstat.
  assert (Hs3 : sameFiles w1 w3) by (repeat split).
  rewrite Hlstat in Hrun.
  unfold filepathWalk.depthBound in Hrun. cbn [filepathWalk.walk] in Hrun.
  rewrite Hdir in Hrun. cbn [negb] in Hrun.
  rewrite walkFn_info in Hrun.
  change (relativeName "" (pathOf elems) (fiName info)) with (Some name) in Hrun.
  cbv zeta in Hrun. rewrite Hdir in Hrun.
  rewrite CreateHeader_supported in Hrun by reflexivity.
  cbn [Name] in Hrun.
  assert (Hsuf : strings.HasSuffix name "/" = false).
  { apply HasSuffix_plain. destruct Hvn as (_ & _ & _ & H). exact H. }
  rewrite Hsuf in Hrun.
  rewrite (Open_found w3 elems p c Hne Hv (Hway1 w3 Hs3) (Hfile1 w3 Hs3) Hr) in Hrun.
  set (w4 := mkWorld _ _ _ _ _) in Hrun.
  assert (Hs4 : sameFiles w1 w4) by (repeat split).
  unfold zip.copyIn in Hrun. unfold bind at 1 in Hrun.
  unfold os.ReadAll, bind in Hrun. rewrite emit_run in Hrun.
  cbn [files os.fileLoc] in Hrun.
  change (files w4 !! (cwd w3 ++ elems)) with (files w4 !! (cwd w4 ++ elems)) in Hrun.
  rewrite (Hfile1 w4 Hs4) in Hrun.
  cbn [zip.last zip.setData Name headerMode Method data] in Hrun.
  rewrite Hsuf in Hrun. unfold ret in Hrun. cbn [fst snd] in Hrun.
  set (archive := zip.mkWriter _ _ _) in Hrun.
  set (w5 := mkWorld _ _ _ _ _) in Hrun.
  assert (Hzat : files w5 !! os.fileLoc (zip.zipfile archive) = Some (RegFile pz (Bytes ""))).
  { cbn [archive zip.zipfile zip.NewWriter zipfile os.fileLoc w5 files w1].
    apply lookup_insert_eq. }
  rewrite (Close_regular archive w5 pz (Bytes "") Hzat) in Hrun. cbn [snd] in Hrun.
  eexists. split.
  { rewrite Archive_createArchive; [exact Hrun | | apply Hz].
    apply pathOf_nonempty; assumption. }
  unfold containerAt. cbn [files archive zip.zipfile zip.NewWriter zipfile os.fileLoc].
  rewrite lookup_insert_eq. reflexivity.
Qed.

Lemma Archive_regular_file_witness :
  (Forall validName (["a"] ++ ["b.txt"]) ∧ validName "out.zip"
   ∧ files helloWorld !! cwd helloWorld = Some (Directory 0x1ed)
   ∧ os.writable 0x1ed = true
   ∧ (∀ k, (k ≤ length ["a"])%nat →
           ∃ q, files helloWorld !! (cwd helloWorld ++ take k ["a"]) = Some (Directory q)
                ∧ os.searchable q = true)
   ∧ files helloWorld !! (cwd helloWorld ++ ["a"] ++ ["b.txt"])
     = Some (RegFile 0x1a4 (Bytes "hello"))
   ∧ os.readable 0x1a4 = true
   ∧ files helloWorld !! (cwd helloWorld ++ ["out.zip"]) = None)
  ∧ ∃ w',
      Archive "a/b.txt" "out.zip" helloWorld = (Ok tt, w')
      ∧ containerAt w' (cwd helloWorld ++ ["out.zip"])
        = Some [mkFileHeader "b.txt" (Perm 0x1a4) zip.Deflate (Bytes "hello")].
Proof.
  assert (H1 : Forall validName (["a"] ++ ["b.txt"])).
  { repeat constructor; discriminate. }
  assert (H2 : validName "out.zip") by (repeat split; discriminate).
  assert (H3 : files helloWorld !! cwd helloWorld = Some (Directory 0x1ed))
    by (vm_compute; reflexivity).
  assert (H4 : os.writable 0x1ed = true) by reflexivity.
  assert (H5 : ∀ k, (k ≤ length ["a"])%nat →
             ∃ q, files helloWorld !! (cwd helloWorld ++ take k ["a"]) = Some (Directory q)
                  ∧ os.searchable q = true).
  { intros [| [| k]] Hk; [| | cbn in Hk; lia];
      exists 0x1ed; split; vm_compute; reflexivity. }
  assert (H6 : files helloWorld !! (cwd helloWorld ++ ["a"] ++ ["b.txt"])
               = Some (RegFile 0x1a4 (Bytes "hello"))) by (vm_compute; reflexivity).
  assert (H7 : os.readable 0x1a4 = true) by reflexivity.
  assert (H8 : files helloWorld !! (cwd helloWorld ++ ["out.zip"]) = None)
    by (vm_compute; reflexivity).
  split.
  { exact (conj H1 (conj H2 (conj H3 (conj H4 (conj H5 (conj H6 (conj H7 H8))))))). }
  exact (Archive_regular_file helloWorld ["a"] "b.txt" "out.zip" 0x1ed 0x1a4
           (Bytes "hello") H1 H2 H3 H4 H5 H6 H7 H8).
Defined.

Lemma Unarchive_directories_never_fail_witness :
  let File := [mkFileHeader "a/" (N.lor ModeDir 0x1ed) zip.Store (Bytes "");
               mkFileHeader "a/b/" (N.lor ModeDir 0x1ed) zip.Store (Bytes "")] in
  let w1 := snd (zip.OpenReader "in.zip" markersWorld) in
  (zip.OpenReader "in.zip" markersWorld = (Ok File, w1)
   ∧ Forall (λ f, modeIsDir (zip.Mode f) = true ∧ zip.supported (Method f) = true) File)
  ∧ fst (Unarchive "in.zip" "dst" markersWorld) = Ok tt.
Proof.
  intros File w1.
  assert (H1 : zip.OpenReader "in.zip" markersWorld = (Ok File, w1))
    by (vm_compute; reflexivity).
  assert (H2 : Forall (λ f, modeIsDir (zip.Mode f) = true
                            ∧ zip.supported (Method f) = true) File).
  { repeat constructor. }
  split; [exact (conj H1 H2) |].
  exact (Unarchive_directories_never_fail "in.zip" "dst" markersWorld w1 File H1 H2).
Defined.

(** ** What [Download] writes *)

Lemma Get_body source w body w1 :
  http.Get source w = (Ok body, w1) →
  network w source = Some body ∧ sameFiles w w1.
Proof.
  unfold http.Get.
  destruct (url.Parse source) as [u | e].
  - destruct (negb _); [discriminate |].
    destruct (String.eqb _ ""); [discriminate |].
    unfold bind. rewrite emit_run. cbn [network].
    destruct (network w source) as [b |]; [| discriminate].
    intros [= -> <-]. split; [reflexivity | repeat split].
  - discriminate.
Qed.

(** X9: when [Download] returns nil, the target is a regular file that
    holds what the network answered for the source, byte for byte;
    nothing else has changed. *)
Theorem Download_writes_body (source target : string) (w w' : World) :
  Download source target w = (Ok tt, w') →
  ∃ body loc perm,
    network w source = Some body
    ∧ os.namei w target = inr loc
    ∧ files w' !! loc = Some (RegFile perm body)
    ∧ ∀ l, l ≠ loc → files w' !! l = files w !! l.
Proof.
  unfold Download. unfold bind at 1.
  destruct (url.ParseRequestURI source) as [u | e]; [| discriminate].
  unfold bind at 1.
  destruct (http.Get source w) as [[body | e] w1] eqn:Hg; [| discriminate].
  destruct (Get_body _ _ _ _ Hg) as (Hnet & Hf1 & Hc1 & _).
  unfold bind.
  destruct (os.Create target w1) as [[out | e] w2] eqn:Hc; [| discriminate].
  pose proof (Create_namei _ _ _ _ Hc) as Hn.
  destruct (Create_Ok _ _ _ _ Hc) as (perm & Hf2 & _).
  unfold os.WriteAll, bind. rewrite emit_run. cbn [files].
  rewrite Hf2, lookup_insert_eq. intros [= <-].
  exists body, (os.fileLoc out), perm. split; [exact Hnet |]. split.
  { rewrite <- Hn. unfold os.namei. rewrite Hf1, Hc1. reflexivity. }
  cbn [putInode files]. split; [apply lookup_insert_eq |].
  intros l Hl. rewrite !lookup_insert_ne by congruence. rewrite Hf1. reflexivity.
Qed.

Lemma Download_writes_body_witness :
  let w' := snd (Download "http://example.com/a.zip" "out.zip" netWorld) in
  Download "http://example.com/a.zip" "out.zip" netWorld = (Ok tt, w')
  ∧ ∃ body loc perm,
      network netWorld "http://example.com/a.zip" = Some body
      ∧ os.namei netWorld "out.zip" = inr loc
      ∧ files w' !! loc = Some (RegFile perm body)
      ∧ ∀ l, l ≠ loc → files w' !! l = files netWorld !! l.
Proof.
  intros w'.
  assert (H : Download "http://example.com/a.zip" "out.zip" netWorld = (Ok tt, w'))
    by (vm_compute; reflexivity).
  split; [exact H |].
  exact (Download_writes_body "http://example.com/a.zip" "out.zip" netWorld w' H).
Defined.

(** ** An empty directory *)

(** X4: archiving an empty directory of the working directory by its name
    alone gives a container without entries, and extracting that
    container creates nothing: not the directory, and not the target
    either. *)
Theorem Archive_empty_directory
        (w : World) (s zipname dst : string) (pc ps : N) :
  validName s → validName zipname →
  files w !! cwd w = Some (Directory pc) →
  os.searchable pc = true → os.writable pc = true →
  os.readable (N.ldiff 0x1b6 (umask w)) = true →
  files w !! (cwd w ++ [s]) = Some (Directory ps) → rwx ps →
  (∀ rel, rel ≠ [] → files w !! (cwd w ++ s :: rel) = None) →
  files w !! (cwd w ++ [zipname]) = None →
  ∃ w1 w2,
    Archive s zipname w = (Ok tt, w1)
    ∧ containerAt w1 (cwd w ++ [zipname]) = Some []
    ∧ Unarchive zipname dst w1 = (Ok tt, w2)
    ∧ files w2 = files w1.
Proof.
  intros Hs Hz Hc Hx Hw Hpr Hroot Hrwx Hempty Hznone.
  assert (Hnone : ∀ rel, rel ≠ [] → files w !! ((cwd w ++ [s]) ++ rel) = None).
  { intros rel Hne. rewrite <- List.app_assoc. apply Hempty, Hne. }
  assert (Honly : ∀ rel, is_Some (files w !! ((cwd w ++ [s]) ++ rel)) → rel = []).
  { intros rel [i Hi]. destruct rel as [| x rel]; [reflexivity |].
    rewrite Hnone in Hi by discriminate. discriminate. }
  assert (Htree : wfTree (files w) (cwd w ++ [s])).
  { split.
    - eauto.
    - intros rel H. rewrite (Honly rel H). constructor.
    - intros rel name H.
      replace ((cwd w ++ [s]) ++ rel ++ [name])
        with ((cwd w ++ [s]) ++ (rel ++ [name])) in H by reflexivity.
      apply Honly in H. destruct rel; discriminate.
    - intros rel p H. rewrite (Honly rel) in H by (rewrite H; eauto).
      rewrite List.app_nil_r in H. congruence.
    - intros rel p c H. rewrite (Honly rel) in H by (rewrite H; eauto).
      rewrite List.app_nil_r in H. congruence. }
  destruct (Archive_tree w s zipname pc Hs Hz Hc Hx Hw Htree
              (Hempty [s] ltac:(discriminate)) Hznone)
    as (w1 & File & Hrun & Hf1 & Hc1 & _ & _ & Hall & _).
  assert (HFile : File = []).
  { destruct File as [| h File]; [reflexivity |].
    inversion Hall as [| ? ? (rel & Hne & Hentry) _]; subst.
    unfold entryFor in Hentry. rewrite Hnone in Hentry by exact Hne. contradiction. }
  subst File.
  destruct (OpenReader_container w1 zipname pc (N.ldiff 0x1b6 (umask w)) [] Hz)
    as (w2 & Hopen & Hsame2).
  { rewrite Hc1, Hf1, lookup_insert_ne; [exact Hc |].
    intros Heq. apply (f_equal length) in Heq. rewrite length_app in Heq.
    cbn in Heq. lia. }
  { exact Hx. }
  { rewrite Hc1, Hf1. apply lookup_insert_eq. }
  { exact Hpr. }
  exists w1, w2. split; [exact Hrun |]. split.
  { unfold containerAt. rewrite Hf1, lookup_insert_eq. reflexivity. }
  split.
  { unfold Unarchive. rewrite (bind_Ok _ _ _ _ _ Hopen). reflexivity. }
  destruct Hsame2 as (Hf2 & _). exact Hf2.
Qed.

Lemma emptyDir_empty rel :
  rel ≠ [] → files emptyDirWorld !! (cwd emptyDirWorld ++ "e" :: rel) = None.
Proof.
  intros Hne.
  destruct (files emptyDirWorld !! (cwd emptyDirWorld ++ "e" :: rel)) as [i |] eqn:Hi;
    [| reflexivity].
  exfalso. apply elem_of_map_to_list in Hi. vm_compute in Hi.
  repeat (apply elem_of_cons in Hi as [Hi | Hi];
          [injection Hi as Hi _;
           repeat (destruct rel as [| ? rel]; try discriminate Hi);
           try (apply Hne; reflexivity) |]).
  apply elem_of_nil in Hi. exact Hi.
Qed.

Lemma Archive_empty_directory_witness :
  (validName "e" ∧ validName "out.zip"
   ∧ files emptyDirWorld !! cwd emptyDirWorld = Some (Directory 0x1ed)
   ∧ os.searchable 0x1ed = true ∧ os.writable 0x1ed = true
   ∧ os.readable (N.ldiff 0x1b6 (umask emptyDirWorld)) = true
   ∧ files emptyDirWorld !! (cwd emptyDirWorld ++ ["e"]) = Some (Directory 0x1ed)
   ∧ rwx 0x1ed
   ∧ (∀ rel, rel ≠ [] → files emptyDirWorld !! (cwd emptyDirWorld ++ "e" :: rel) = None)
   ∧ files emptyDirWorld !! (cwd emptyDirWorld ++ ["out.zip"]) = None)
  ∧ ∃ w1 w2,
      Archive "e" "out.zip" emptyDirWorld = (Ok tt, w1)
      ∧ containerAt w1 (cwd emptyDirWorld ++ ["out.zip"]) = Some []
      ∧ Unarchive "out.zip" "dst" w1 = (Ok tt, w2)
      ∧ files w2 = files w1.
Proof.
  assert (H1 : validName "e") by (repeat split; discriminate).
  assert (H2 : validName "out.zip") by (repeat split; discriminate).
  assert (H3 : files emptyDirWorld !! cwd emptyDirWorld = Some (Directory 0x1ed))
    by (vm_compute; reflexivity).
  assert (H4 : os.searchable 0x1ed = true) by reflexivity.
  assert (H5 : os.writable 0x1ed = true) by reflexivity.
  assert (H6 : os.readable (N.ldiff 0x1b6 (umask emptyDirWorld)) = true) by reflexivity.
  assert (H7 : files emptyDirWorld !! (cwd emptyDirWorld ++ ["e"]) = Some (Directory 0x1ed))
    by (vm_compute; reflexivity).
  assert (H8 : rwx 0x1ed) by (repeat split).
  assert (H9 : files emptyDirWorld !! (cwd emptyDirWorld ++ ["out.zip"]) = None)
    by (vm_compute; reflexivity).
  split.
  { exact (conj H1 (conj H2 (conj H3 (conj H4 (conj H5 (conj H6 (conj H7 (conj H8
             (conj emptyDir_empty H9))))))))). }
  exact (Archive_empty_directory emptyDirWorld "e" "out.zip" "dst" 0x1ed 0x1ed
           H1 H2 H3 H4 H5 H6 H7 H8 emptyDir_empty H9).
Defined.

(** ** The entry of a file, extracted where there is nothing yet *)

(** The first two statements of the loop body make the directories on
    the way. *)
Lemma ensure_way dst pc r w :
  validName dst → Forall validName r →
  files w !! cwd w = Some (Directory pc) →
  os.searchable pc = true → os.writable pc = true →
  N.land (umask w) 0x1c0 = 0 →
  wayClear dst w r → wayClosed dst w r →
  ∃ w1,
    wayMade dst w w1 r
    ∧ ∀ B (k : M B),
        (let* st := try (os.Stat (pathOf (dst :: r))) in
         let* _ := if IsNotExist st then try (os.MkdirAll (pathOf (dst :: r)) 0x1ed)
                   else ret (Ok tt) in
         k) w = k w1.
Proof.
  intros Hdst Hr Hc Hx Hw Hu Hclear Hclosed.
  assert (Hv : Forall validName (dst :: r)) by (constructor; assumption).
  destruct (Hclear (length r)) as [Hnone | (p & Hp & Hrwx)]; [lia | |];
    rewrite firstn_all in *.
  - pose proof (Stat_missing w (dst :: r) ltac:(discriminate) Hv
                  (way_maybe dst pc w r Hc Hx Hclear) Hnone) as Hstat.
    set (w0 := mkWorld _ _ _ _ _) in Hstat.
    destruct (MkdirAllFrom_made dst pc Hdst 0x1ed r
                (String.length (pathOf (dst :: r))) w0)
      as (w1 & Hrun & Hmade); try assumption.
    { pose proof (pathOf_length (dst :: r) Hv). cbn [length] in *. lia. }
    { apply rwx_created; [exact Hu | reflexivity..]. }
    exists w1. split; [exact Hmade |].
    intros B k. unfold bind at 1. unfold try at 1. rewrite Hstat.
    cbn [IsNotExist]. unfold bind, try, os.MkdirAll. rewrite Hrun. reflexivity.
  - assert (Hall : ∀ j, (j ≤ length r)%nat →
               ∃ q, files w !! (cwd w ++ dst :: take j r) = Some (Directory q) ∧ rwx q).
    { intros j Hj. destruct (Hclear j Hj) as [Hn | Hs]; [| exact Hs].
      destruct (Hclosed (length r) j) as [i Hi]; [lia | |].
      - rewrite firstn_all, Hp. eauto.
      - congruence. }
    pose proof (Stat_found w (dst :: r) _ ltac:(discriminate) Hv
                  (way_dirs dst pc w r Hc Hx ltac:(intros j Hj; apply Hall; lia)) Hp)
      as Hstat.
    set (w0 := mkWorld _ _ _ _ _) in Hstat.
    exists w0. split.
    { split; [reflexivity |]. split; [reflexivity |].
      split; [exact Hall |]. split; reflexivity. }
    intros B k. unfold bind at 1. unfold try at 1. rewrite Hstat.
    cbn [IsNotExist]. reflexivity.
Qed.

(** X8: the entry of a file whose place below the target is free: the
    directories on the way that are missing are made, the target itself
    included, and the file is created with the bytes of the entry.  Its
    permission bits are 0666 less the umask: the mode stored in the
    entry is not used. *)
Theorem extract_file_entry
        (dst : string) (r : list string) (e : string) (mode pc : N)
        (c : content) (w : World) :
  validName dst → Forall validName (r ++ [e]) →
  files w !! cwd w = Some (Directory pc) →
  os.searchable pc = true → os.writable pc = true →
  N.land (umask w) 0x1c0 = 0 →
  wayClear dst w r → wayClosed dst w r →
  files w !! (cwd w ++ dst :: r ++ [e]) = None →
  modeIsDir mode = false →
  ∃ w',
    extract dst (mkFileHeader (pathOf (r ++ [e])) mode zip.Deflate c) w = (Ok tt, w')
    ∧ files w' !! (cwd w ++ dst :: r ++ [e])
      = Some (RegFile (N.ldiff 0x1b6 (umask w)) c)
    ∧ (∀ j, (j ≤ length r)%nat →
            ∃ p, files w' !! (cwd w ++ dst :: take j r) = Some (Directory p) ∧ rwx p)
    ∧ (∀ loc, is_Some (files w !! loc) → files w' !! loc = files w !! loc).
Proof.
  intros Hdst Hv Hc Hx Hw Hu Hclear Hclosed Hfree Hmode.
  pose proof Hv as Hv0. apply Forall_app in Hv as [Hr He].
  inversion He as [| ? ? Hve _]; subst.
  assert (Hne : r ++ [e] ≠ []) by (destruct r; discriminate).
  destruct (ensure_way dst pc r w Hdst Hr Hc Hx Hw Hu Hclear Hclosed)
    as (w1 & (Hc1 & Hu1 & Hall & Hold & Hother) & Hrun1).
  set (loc := cwd w ++ dst :: r ++ [e]) in *.
  assert (Hfree1 : files w1 !! loc = None).
  { rewrite Hother; [exact Hfree |]. intros j Hj Heq. unfold loc in Heq.
    apply app_inv_head in Heq. injection Heq as Heq.
    apply (f_equal length) in Heq. rewrite length_app, length_take in Heq.
    cbn in Heq. lia. }
  assert (Hcd1 : files w1 !! cwd w = Some (Directory pc)).
  { rewrite Hold; [exact Hc | rewrite Hc; eauto]. }
  assert (Hv' : Forall validName (dst :: r ++ [e])) by (constructor; assumption).
  assert (Hway : ∀ k, (k < length (dst :: r ++ [e]))%nat →
            ∃ p, files w1 !! (cwd w1 ++ take k (dst :: r ++ [e])) = Some (Directory p)
                 ∧ os.searchable p = true).
  { apply (way_dirs dst pc); [rewrite Hc1; exact Hcd1 | exact Hx |].
    intros j Hj. rewrite length_app in Hj. cbn [length] in Hj.
    rewrite take_snoc_lt, Hc1 by lia. apply Hall. lia. }
  assert (Hcreate :
    os.Create (pathOf (dst :: r ++ [e])) w1
    = (Ok (os.mkFile (pathOf (dst :: r ++ [e])) loc),
       mkWorld (<[loc := RegFile (N.ldiff 0x1b6 (umask w)) (Bytes "")]> (files w1))
               (cwd w1) (umask w1) (network w1)
               (sys_creat (pathOf (dst :: r ++ [e])) :: trace w1))).
  { unfold os.Create, bind. rewrite emit_run.
    rewrite namei_pathOf by (discriminate || assumption). cbn [files cwd umask].
    rewrite walkElems_dirs by assumption. rewrite Hc1. fold loc. rewrite Hfree1.
    assert (Hparent : removelast loc = cwd w ++ dst :: r).
    { unfold loc. change (dst :: r ++ [e]) with ((dst :: r) ++ [e]).
      rewrite List.app_assoc. apply removelast_last. }
    rewrite Hparent.
    destruct (Hall (length r)) as (q & Hq & _ & Hqw & _); [lia |].
    rewrite firstn_all in Hq. rewrite Hq, Hqw, Hu1. reflexivity. }
  set (w2 := mkWorld _ _ _ _ _) in Hcreate.
  set (f := os.mkFile _ _) in Hcreate.
  assert (Hwrite := WriteAll_file f c w2 (N.ldiff 0x1b6 (umask w)) (Bytes "")).
  cbn [os.fileLoc f w2 files] in Hwrite.
  rewrite lookup_insert_eq in Hwrite. specialize (Hwrite eq_refl).
  set (w3 := mkWorld _ _ _ _ _) in Hwrite.
  exists w3. split.
  { unfold extract. unfold bind at 1.
    change (zip.Open (mkFileHeader (pathOf (r ++ [e])) mode zip.Deflate c))
      with (@Ok content c). cbn iota.
    rewrite (targetDirOf_valid dst Hdst). cbn [Name].
    destruct (Join_target dst (r ++ [e]) Hdst Hne Hv0) as [HJ _]. rewrite HJ.
    assert (Hm : zip.Mode (mkFileHeader (pathOf (r ++ [e])) mode zip.Deflate c) = mode).
    { unfold zip.Mode. cbn [Name headerMode].
      rewrite HasSuffix_pathOf by assumption. reflexivity. }
    rewrite Hm, Hmode.
    change (dst :: r ++ [e]) with ((dst :: r) ++ [e]).
    rewrite Dir_pathOf; [| discriminate | constructor; assumption | assumption].
    rewrite Hrun1.
    change ((dst :: r) ++ [e]) with (dst :: r ++ [e]).
    rewrite (bind_Ok _ _ _ _ _ Hcreate). exact Hwrite. }
  cbn [w3 files]. split; [apply lookup_insert_eq |]. split.
  - intros j Hj. destruct (Hall j Hj) as (p & Hp & Hrwx). exists p.
    split; [| exact Hrwx]. rewrite !lookup_insert_ne; [exact Hp | |];
      intros Heq; unfold loc in Heq; apply app_inv_head in Heq;
      injection Heq as Heq; apply (f_equal length) in Heq;
      rewrite length_app, length_take in Heq; cbn in Heq; lia.
  - intros l Hl. rewrite !lookup_insert_ne.
    + apply Hold, Hl.
    + intros <-. rewrite Hfree in Hl. destruct Hl; discriminate.
    + intros <-. rewrite Hfree in Hl. destruct Hl; discriminate.
Qed.

Lemma wayClear_hello : wayClear "dst" helloWorld ["x"].
Proof.
  intros j Hj. left. apply freshTarget_hello.
Qed.

Lemma wayClosed_hello : wayClosed "dst" helloWorld ["x"].
Proof.
  intros j k Hjk [i Hi]. rewrite freshTarget_hello in Hi. discriminate.
Qed.

Lemma extract_file_entry_witness :
  (validName "dst" ∧ Forall validName (["x"] ++ ["y.txt"])
   ∧ files helloWorld !! cwd helloWorld = Some (Directory 0x1ed)
   ∧ os.searchable 0x1ed = true ∧ os.writable 0x1ed = true
   ∧ N.land (umask helloWorld) 0x1c0 = 0
   ∧ wayClear "dst" helloWorld ["x"] ∧ wayClosed "dst" helloWorld ["x"]
   ∧ files helloWorld !! (cwd helloWorld ++ "dst" :: ["x"] ++ ["y.txt"]) = None
   ∧ modeIsDir 0x100 = false)
  ∧ ∃ w',
      extract "dst" (mkFileHeader "x/y.txt" 0x100 zip.Deflate (Bytes "data")) helloWorld
      = (Ok tt, w')
      ∧ files w' !! (cwd helloWorld ++ "dst" :: ["x"] ++ ["y.txt"])
        = Some (RegFile (N.ldiff 0x1b6 (umask helloWorld)) (Bytes "data"))
      ∧ (∀ j, (j ≤ length ["x"])%nat →
              ∃ p, files w' !! (cwd helloWorld ++ "dst" :: take j ["x"])
                   = Some (Directory p) ∧ rwx p)
      ∧ (∀ loc, is_Some (files helloWorld !! loc) →
                files w' !! loc = files helloWorld !! loc).
Proof.
  assert (H1 : Forall validName (["x"] ++ ["y.txt"])) by (repeat constructor; discriminate).
  assert (H2 : files helloWorld !! cwd helloWorld = Some (Directory 0x1ed))
    by (vm_compute; reflexivity).
  assert (H3 : os.searchable 0x1ed = true) by reflexivity.
  assert (H4 : os.writable 0x1ed = true) by reflexivity.
  assert (H5 : N.land (umask helloWorld) 0x1c0 = 0) by reflexivity.
  assert (H6 : files helloWorld !! (cwd helloWorld ++ "dst" :: ["x"] ++ ["y.txt"]) = None)
    by (vm_compute; reflexivity).
  assert (H7 : modeIsDir 0x100 = false) by reflexivity.
  split.
  { exact (conj validName_dst (conj H1 (conj H2 (conj H3 (conj H4 (conj H5
             (conj wayClear_hello (conj wayClosed_hello (conj H6 H7))))))))). }
  exact (extract_file_entry "dst" ["x"] "y.txt" 0x100 0x1ed (Bytes "data") helloWorld
           validName_dst H1 H2 H3 H4 H5 wayClear_hello wayClosed_hello H6 H7).
Defined.

(** ** The order of the entries *)

Lemma visited_children tree root n :
  n ∈ visited tree root ↔ is_Some (tree !! (root ++ [n])).
Proof.
  unfold visited. rewrite merge_sort_Permutation, list_elem_of_omap. split.
  - intros (loc & Hin & Hc). apply childName_Some in Hc. subst loc.
    apply list_elem_of_fmap in Hin as ([loc i] & Heq & Hin).
    cbn in Heq. subst loc. apply elem_of_map_to_list in Hin. rewrite Hin. eauto.
  - intros [i Hi]. exists (root ++ [n]). split.
    + apply list_elem_of_fmap. exists (root ++ [n], i).
      split; [reflexivity |]. apply elem_of_map_to_list, Hi.
    + apply childName_Some. reflexivity.
Qed.

Lemma visited_NoDup tree root : NoDup (visited tree root).
Proof.
  unfold visited. rewrite merge_sort_Permutation.
  apply NoDup_omap_inj; [| apply NoDup_fst_map_to_list].
  intros x y z Hx Hy. apply childName_Some in Hx, Hy. congruence.
Qed.

Lemma visited_sorted tree root : StronglySorted String.le (visited tree root).
Proof. apply StronglySorted_merge_sort; apply _. Qed.

Section FlatDirectory.
Context (wa : World) (s : string) (pc : N).
Local Abbreviation tree := (files wa).
Local Abbreviation src := (cwd wa ++ [s]).
Hypothesis Hs : validName s.
Hypothesis Hcwd : tree !! cwd wa = Some (Directory pc).
Hypothesis Hcx : os.searchable pc = true.
Hypothesis Htree : wfTree tree src.
Hypothesis Hss : tree !! (src ++ [s]) = None.
Hypothesis Hflat : ∀ n i, tree !! (src ++ [n]) = Some i → ∃ p c, i = RegFile p c.

Lemma readDirNames_root w' :
  sameFiles wa w' →
  ∃ w'', os.readDirNames s w' = (Ok (visited tree src), w'') ∧ sameFiles w' w''.
Proof.
  intros Hsame. destruct (wf_root _ _ Htree) as [p Hp].
  assert (Hp' : tree !! (src ++ []) = Some (Directory p))
    by (rewrite List.app_nil_r; exact Hp).
  unfold os.readDirNames. unfold bind at 1.
  destruct (tree_Open wa s pc Hs Hcwd Hcx Htree w' [] _ Hsame Hp') as (w1 & Ho & Hs1).
  change (pathOf [s]) with s in Ho. rewrite Ho.
  unfold bind. rewrite emit_run. cbn [files os.fileLoc].
  assert (Hf : files w1 = tree).
  { destruct Hsame as (Hf & _), Hs1 as (Hf1 & _). congruence. }
  rewrite Hf, Hp', List.app_nil_r. eexists. split; [reflexivity |].
  same_files.
Qed.

Lemma walk_file n w' name i info archive :
  sameFiles wa w' →
  tree !! (src ++ [name]) = Some i →
  fiMode info = os.inodeMode i →
  ∃ archive' w'',
    filepathWalk.walk (S n) (pathOf [s; name]) info (walkFn s) archive w'
    = ((None, archive'), w'')
    ∧ sameFiles w' w''
    ∧ zip.zipfile archive' = zip.zipfile archive
    ∧ zip.entries archive' = zip.entries archive ++ [fileEntry tree src name].
Proof.
  intros Hsame Hi Hm. destruct (Hflat name i Hi) as (p & c & ->).
  cbn [filepathWalk.walk]. unfold IsDir. rewrite Hm, modeIsDir_RegFile. cbn [negb].
  destruct (walkFn_node wa s pc Hs Hcwd Hcx Htree Hss w' [name] _ info archive
              Hsame ltac:(discriminate) Hi Hm)
    as (h & archive' & w'' & Hrun & Hs' & Hz & He & Hent).
  exists archive', w''. split; [exact Hrun |]. split; [exact Hs' |].
  split; [exact Hz |]. rewrite He. f_equal. f_equal.
  unfold entryFor in Hent. rewrite Hi in Hent. subst h.
  unfold fileEntry. rewrite Hi. reflexivity.
Qed.

Lemma rangeNames_flat walkRec names :
  (∀ name, name ∈ names → is_Some (tree !! (src ++ [name]))) →
  (∀ name i info archive w',
     sameFiles wa w' →
     tree !! (src ++ [name]) = Some i →
     fiMode info = os.inodeMode i →
     ∃ archive' w'',
       walkRec (pathOf [s; name]) info archive w' = ((None, archive'), w'')
       ∧ sameFiles w' w''
       ∧ zip.zipfile archive' = zip.zipfile archive
       ∧ zip.entries archive' = zip.entries archive ++ [fileEntry tree src name]) →
  ∀ archive w',
    sameFiles wa w' →
    ∃ archive' w'',
      filepathWalk.rangeNames walkRec (walkFn s) s names archive w'
      = ((None, archive'), w'')
      ∧ sameFiles w' w''
      ∧ zip.zipfile archive' = zip.zipfile archive
      ∧ zip.entries archive' = zip.entries archive ++ (fileEntry tree src <$> names).
Proof.
  intros Hnames Hrec. induction names as [| name names IH]; intros archive w' Hsame.
  - exists archive, w'. split; [reflexivity |]. split; [apply sameFiles_refl |].
    split; [reflexivity |]. cbn. rewrite List.app_nil_r. reflexivity.
  - cbn [filepathWalk.rangeNames].
    destruct (Hnames name) as [i Hi]; [left |].
    assert (Hvn : validName name).
    { assert (H : Forall validName [name]).
      { apply (wf_names _ _ Htree). rewrite Hi. eauto. }
      inversion H; assumption. }
    assert (HJ : filepath.Join [s; name] = pathOf [s; name]).
    { apply (Join_pathOf [s] name);
        (discriminate || assumption || (constructor; [exact Hs | constructor])). }
    rewrite !HJ.
    destruct (tree_Lstat wa s pc Hs Hcwd Hcx Htree w' [name] i Hsame Hi)
      as (info & w1 & Hl & Hs1 & Hm).
    change (pathOf (s :: [name])) with (pathOf [s; name]) in Hl. rewrite Hl.
    assert (Hsame1 : sameFiles wa w1) by (eapply sameFiles_trans; eassumption).
    destruct (Hrec name i info archive w1 Hsame1 Hi Hm)
      as (archive1 & w2 & -> & Hs2 & Hz1 & He1).
    assert (Hsame2 : sameFiles wa w2) by (eapply sameFiles_trans; eassumption).
    destruct (IH (λ n Hn, Hnames n (list_elem_of_further _ _ _ Hn)) archive1 w2 Hsame2)
      as (archive2 & w3 & Hrun & Hs3 & Hz2 & He2).
    change (filepathWalk.rangeNames walkRec (walkFn s) (pathOf [s]) names archive1 w2)
      with (filepathWalk.rangeNames walkRec (walkFn s) s names archive1 w2).
    rewrite Hrun.
    exists archive2, w3. split; [reflexivity |].
    split; [eapply sameFiles_trans; [exact Hs1 | eapply sameFiles_trans; eassumption] |].
    split; [congruence |].
    rewrite He2, He1, <- List.app_assoc. reflexivity.
Qed.

Lemma Walk_flat archive w' :
  sameFiles wa w' →
  ∃ archive' w'',
    filepathWalk.Walk s (walkFn s) archive w' = ((None, archive'), w'')
    ∧ sameFiles w' w''
    ∧ zip.zipfile archive' = zip.zipfile archive
    ∧ zip.entries archive'
      = zip.entries archive ++ (fileEntry tree src <$> visited tree src).
Proof.
  intros Hsame. unfold filepathWalk.Walk.
  destruct (wf_root _ _ Htree) as [p Hp].
  assert (Hi : tree !! (src ++ []) = Some (Directory p))
    by (rewrite List.app_nil_r; exact Hp).
  destruct (tree_Lstat wa s pc Hs Hcwd Hcx Htree w' [] _ Hsame Hi)
    as (info & w1 & Hl & Hs1 & Hm).
  change (pathOf [s]) with s in Hl. rewrite Hl.
  assert (Hsame1 : sameFiles wa w1) by (eapply sameFiles_trans; eassumption).
  unfold filepathWalk.depthBound. cbn [filepathWalk.walk].
  unfold IsDir. rewrite Hm, modeIsDir_Directory. cbn [negb].
  destruct (readDirNames_root w1 Hsame1) as (w2 & -> & Hs2).
  assert (Hsame2 : sameFiles wa w2) by (eapply sameFiles_trans; eassumption).
  change s with (pathOf [s]) at 1. rewrite (walkFn_root s Hs).
  destruct (rangeNames_flat
              (λ filename fileInfo,
                 filepathWalk.walk (max_list (length <$> (map_to_list (files w1)).*1))
                                   filename fileInfo (walkFn s))
              (visited tree src)
              (λ n Hn, proj1 (visited_children tree src n) Hn))
    with (archive := archive) (w' := w2)
    as (archive2 & w3 & Hrun & Hs3 & Hz & He).
  { intros name i info' archive' w0 Hsame0 Hi' Hm'.
    destruct Hsame1 as (Hf1 & _). rewrite Hf1.
    pose proof (key_length tree (src ++ [name]) ltac:(rewrite Hi'; eauto)) as Hlen.
    rewrite length_app in Hlen. cbn [length] in Hlen.
    destruct (max_list (length <$> (map_to_list tree).*1)) as [| m]; [lia |].
    apply (walk_file m w0 name i info' archive' Hsame0 Hi' Hm'). }
  { exact Hsame2. }
  change (pathOf [s]) with s. rewrite Hrun.
  exists archive2, w3. split; [reflexivity |].
  split; [| split; assumption].
  eapply sameFiles_trans; [exact Hs1 |]. eapply sameFiles_trans; eassumption.
Qed.

End FlatDirectory.

Lemma fileEntry_agree tree tree' root :
  (∀ rel, tree' !! (root ++ rel) = tree !! (root ++ rel)) →
  ∀ l : list string, fileEntry tree' root <$> l = fileEntry tree root <$> l.
Proof.
  intros H l. apply list_fmap_ext. intros _ n _. unfold fileEntry.
  rewrite H. reflexivity.
Qed.

(** X20: a directory that holds regular files only is archived as one
    entry per file, each with the file's name, permission bits and
    content, and the entries stand in the byte order of the names. *)
Theorem Archive_entries_in_name_order (w : World) (s zipname : string) (pc : N) :
  validName s → validName zipname →
  files w !! cwd w = Some (Directory pc) →
  os.searchable pc = true → os.writable pc = true →
  wfTree (files w) (cwd w ++ [s]) →
  (∀ n i, files w !! (cwd w ++ [s; n]) = Some i → ∃ p c, i = RegFile p c) →
  files w !! (cwd w ++ [s; s]) = None →
  files w !! (cwd w ++ [zipname]) = None →
  ∃ w1 names,
    Archive s zipname w = (Ok tt, w1)
    ∧ containerAt w1 (cwd w ++ [zipname])
      = Some (fileEntry (files w) (cwd w ++ [s]) <$> names)
    ∧ StronglySorted String.le names
    ∧ NoDup names
    ∧ ∀ n, n ∈ names ↔ is_Some (files w !! (cwd w ++ [s; n])).
Proof.
  intros Hs Hz Hc Hx Hw Htree Hflat Hss Hznone.
  assert (Hzs : zipname ≠ s).
  { intros ->. destruct (wf_root _ _ Htree) as [p Hp]. congruence. }
  set (Z := cwd w ++ [zipname]).
  (* the archive is created *)
  pose proof (Create_new w zipname pc Hz Hc Hx Hw Hznone) as Hcreate.
  fold Z in Hcreate.
  set (pz := N.ldiff 0x1b6 (umask w)) in *.
  set (zipfile := os.mkFile zipname Z) in Hcreate.
  set (w1 := mkWorld _ _ _ _ _) in Hcreate.
  assert (Hother : ∀ loc, loc ≠ Z → files w1 !! loc = files w !! loc).
  { intros loc Hloc. cbn [w1 files]. apply lookup_insert_ne. congruence. }
  assert (Hsrc : ∀ rel, files w1 !! ((cwd w ++ [s]) ++ rel) = files w !! ((cwd w ++ [s]) ++ rel)).
  { intros rel. apply Hother. unfold Z. rewrite <- List.app_assoc.
    intros Heq. apply app_inv_head in Heq. cbn in Heq. congruence. }
  assert (Hc1 : files w1 !! cwd w1 = Some (Directory pc)).
  { cbn [w1 cwd]. rewrite Hother; [exact Hc |].
    intros Heq. apply (f_equal length) in Heq. unfold Z in Heq.
    rewrite length_app in Heq. cbn in Heq. lia. }
  (* the source is a directory *)
  destruct (wf_root _ _ Htree) as [ps Hps].
  assert (Hvs : Forall validName [s]) by (constructor; [exact Hs | constructor]).
  pose proof (Stat_found w1 [s] (Directory ps) ltac:(discriminate) Hvs) as Hstat.
  cbn [w1 files cwd umask network trace] in Hstat. fold w1 in Hstat.
  change (pathOf [s]) with s in Hstat.
  specialize (Hstat ltac:(intros [| k] Hk; [| cbn in Hk; lia]; cbn [take];
                          rewrite List.app_nil_r; eauto)).
  rewrite <- (List.app_nil_r (cwd w ++ [s])), Hsrc, List.app_nil_r in Hstat.
  specialize (Hstat Hps).
  set (info := mkFileInfo _ _) in Hstat.
  set (w2 := mkWorld _ _ _ _ _) in Hstat.
  pose proof (createArchive_Walk s zipname w zipfile w1 info w2 Hcreate Hstat) as Hrun.
  cbv zeta in Hrun.
  assert (Hdir : IsDir info = true) by apply modeIsDir_Directory.
  rewrite Hdir, (Base_single s Hs) in Hrun.
  (* the walk *)
  assert (Htree2 : wfTree (files w2) (cwd w2 ++ [s])).
  { apply (wfTree_agree (files w)); [exact Hsrc | exact Htree]. }
  destruct (Walk_flat w2 s pc Hs Hc1 Hx Htree2
              ltac:(cbn [w2 files cwd]; rewrite Hsrc, <- List.app_assoc; exact Hss)
              ltac:(cbn [w2 files cwd]; intros n i; rewrite Hsrc, <- List.app_assoc;
                    apply Hflat)
              (zip.NewWriter zipfile) w2 (sameFiles_refl w2))
    as (archive' & w3 & Hwalk & Hsame3 & Hzf & Hnew).
  rewrite Hwalk in Hrun. cbn [fst snd] in Hrun.
  cbn [zip.NewWriter zip.entries zip.dir zip.last app] in Hnew.
  destruct Hsame3 as (Hf3 & Hcw3 & Hum3 & Hnet3).
  cbn [w2 files cwd umask network app] in Hf3, Hcw3, Hum3, Hnet3, Hnew.
  assert (Hzat : files w3 !! os.fileLoc (zip.zipfile archive') = Some (RegFile pz (Bytes ""))).
  { rewrite Hzf, Hf3. cbn [zip.NewWriter zip.zipfile zipfile os.fileLoc w1 files].
    apply lookup_insert_eq. }
  rewrite (Close_regular archive' w3 pz (Bytes "") Hzat) in Hrun. cbn [snd] in Hrun.
  rewrite Hzf, Hnew in Hrun.
  cbn [zip.NewWriter zip.zipfile zipfile os.fileLoc] in Hrun.
  set (w4 := mkWorld _ _ _ _ _) in Hrun.
  exists w4, (visited (files w1) (cwd w ++ [s])). split.
  { rewrite Archive_createArchive; [exact Hrun | apply Hs | apply Hz]. }
  split.
  { unfold containerAt. cbn [w4 files]. rewrite lookup_insert_eq.
    f_equal. apply fileEntry_agree, Hsrc. }
  split; [apply visited_sorted |]. split; [apply visited_NoDup |].
  intros n. rewrite visited_children, Hsrc, <- List.app_assoc. reflexivity.
Qed.

Lemma wfTree_shelf : wfTree (files shelfWorld) (cwd shelfWorld ++ ["shelf"]).
Proof.
  change (wfTree (files shelfWorld) ["work"; "shelf"]).
  assert (Hkeys : ∀ rel, is_Some (files shelfWorld !! (["work"; "shelf"] ++ rel)) →
                         rel = [] ∨ rel = ["z.txt"] ∨ rel = ["a.txt"] ∨ rel = ["B.txt"]).
  { intros rel [i Hi]. apply elem_of_map_to_list in Hi.
    vm_compute in Hi.
    repeat (apply elem_of_cons in Hi as [Hi | Hi]; [injection Hi as Hi _ |]).
    all: try (apply elem_of_nil in Hi; contradiction).
    all: try discriminate Hi.
    all: repeat (destruct rel as [| ? rel]; try discriminate Hi); auto.
    all: injection Hi as ->; auto. }
  split.
  - eexists. vm_compute. reflexivity.
  - intros rel H. destruct (Hkeys rel H) as [-> | [-> | [-> | ->]]].
    + constructor.
    + constructor; [| constructor]. repeat split; discriminate.
    + constructor; [| constructor]. repeat split; discriminate.
    + constructor; [| constructor]. repeat split; discriminate.
  - intros rel name H.
    destruct (Hkeys (rel ++ [name]) H) as [Heq | [Heq | [Heq | Heq]]].
    + destruct rel; discriminate.
    + destruct rel as [| x [| y rel]]; try discriminate.
      eexists. vm_compute. reflexivity.
    + destruct rel as [| x [| y rel]]; try discriminate.
      eexists. vm_compute. reflexivity.
    + destruct rel as [| x [| y rel]]; try discriminate.
      eexists. vm_compute. reflexivity.
  - intros rel p H. destruct (Hkeys rel ltac:(rewrite H; eauto)) as [-> | [-> | [-> | ->]]].
    + vm_compute in H. injection H as <-. repeat split.
    + vm_compute in H. discriminate.
    + vm_compute in H. discriminate.
    + vm_compute in H. discriminate.
  - intros rel p c H. destruct (Hkeys rel ltac:(rewrite H; eauto)) as [-> | [-> | [-> | ->]]].
    + vm_compute in H. discriminate.
    + vm_compute in H. injection H as <- _. reflexivity.
    + vm_compute in H. injection H as <- _. reflexivity.
    + vm_compute in H. injection H as <- _. reflexivity.
Qed.

Lemma flat_shelf n i :
  files shelfWorld !! (cwd shelfWorld ++ ["shelf"; n]) = Some i →
  ∃ p c, i = RegFile p c.
Proof.
  intros Hi. apply elem_of_map_to_list in Hi. vm_compute in Hi.
  repeat (apply elem_of_cons in Hi as [Hi | Hi]).
  all: try (apply elem_of_nil in Hi; contradiction).
  all: try discriminate Hi.
  all: injection Hi as _ ->; eauto.
Qed.

Lemma Archive_entries_in_name_order_witness :
  (validName "shelf" ∧ validName "out.zip"
   ∧ files shelfWorld !! cwd shelfWorld = Some (Directory 0x1ed)
   ∧ os.searchable 0x1ed = true ∧ os.writable 0x1ed = true
   ∧ wfTree (files shelfWorld) (cwd shelfWorld ++ ["shelf"])
   ∧ (∀ n i, files shelfWorld !! (cwd shelfWorld ++ ["shelf"; n]) = Some i →
             ∃ p c, i = RegFile p c)
   ∧ files shelfWorld !! (cwd shelfWorld ++ ["shelf"; "shelf"]) = None
   ∧ files shelfWorld !! (cwd shelfWorld ++ ["out.zip"]) = None)
  ∧ ∃ w1 names,
      Archive "shelf" "out.zip" shelfWorld = (Ok tt, w1)
      ∧ containerAt w1 (cwd shelfWorld ++ ["out.zip"])
        = Some (fileEntry (files shelfWorld) (cwd shelfWorld ++ ["shelf"]) <$> names)
      ∧ StronglySorted String.le names
      ∧ NoDup names
      ∧ ∀ n, n ∈ names ↔ is_Some (files shelfWorld !! (cwd shelfWorld ++ ["shelf"; n])).
Proof.
  assert (H1 : validName "shelf") by (repeat split; discriminate).
  assert (H2 : validName "out.zip") by (repeat split; discriminate).
  assert (H3 : files shelfWorld !! cwd shelfWorld = Some (Directory 0x1ed))
    by (vm_compute; reflexivity).
  assert (H4 : os.searchable 0x1ed = true) by reflexivity.
  assert (H5 : os.writable 0x1ed = true) by reflexivity.
  assert (H8 : files shelfWorld !! (cwd shelfWorld ++ ["shelf"; "shelf"]) = None)
    by (vm_compute; reflexivity).
  assert (H9 : files shelfWorld !! (cwd shelfWorld ++ ["out.zip"]) = None)
    by (vm_compute; reflexivity).
  exact (conj (conj H1 (conj H2 (conj H3 (conj H4 (conj H5
           (conj wfTree_shelf (conj flat_shelf (conj H8 H9))))))))
              (Archive_entries_in_name_order shelfWorld "shelf" "out.zip" 0x1ed
                 H1 H2 H3 H4 H5 wfTree_shelf flat_shelf H8 H9)).
Defined.

(** The archive of [shelf]: the capital letter first, whatever the
    order in which the files were created. *)
Example Archive_shelf :
  ∃ w1, Archive "shelf" "out.zip" shelfWorld = (Ok tt, w1)
  ∧ containerAt w1 ["work"; "out.zip"]
    = Some [mkFileHeader "B.txt" 0x1a4 zip.Deflate (Bytes "upper");
            mkFileHeader "a.txt" 0x1a4 zip.Deflate (Bytes "lower");
            mkFileHeader "z.txt" 0x1a4 zip.Deflate (Bytes "last")].
Proof. eexists. split; vm_compute; reflexivity. Qed.

(** ** The source of [Download] *)

Lemma Cut_spec s sep before after found :
  url.Cut s sep = (before, after, found) →
  strings.ContainsByte before sep = false
  ∧ s = before +:+ (if found then String sep after else "").
Proof.
  revert before after found. induction s as [| c s IH]; intros before after found.
  - intros [= <- <- <-]. split; reflexivity.
  - cbn [url.Cut]. destruct (Ascii.eqb_spec c sep) as [-> | Hc].
    + intros [= <- <- <-]. split; reflexivity.
    + destruct (url.Cut s sep) as [[b a] f]. intros [= <- <- <-].
      destruct (IH _ _ _ eq_refl) as [H1 H2]. split.
      * cbn [strings.ContainsByte]. rewrite H1.
        destruct (Ascii.eqb_spec c sep); [contradiction | reflexivity].
      * rewrite string_app_cons. f_equal. exact H2.
Qed.

(** What [getScheme] returns as the scheme stands in front of the first
    colon. *)
Lemma getSchemeFrom_spec raw seen s scheme rest :
  url.getSchemeFrom raw seen s = inr (scheme, rest) →
  scheme ≠ "" →
  ∃ letters, s = letters +:+ String ":" rest
             ∧ scheme = String.rev_app seen letters.
Proof.
  revert seen. induction s as [| c s IH]; intros seen; cbn [url.getSchemeFrom].
  - intros [= <- _] H. contradiction.
  - assert (Hstep : url.getSchemeFrom raw (String c seen) s = inr (scheme, rest) →
                    scheme ≠ "" →
                    ∃ letters, String c s = letters +:+ String ":" rest
                               ∧ scheme = String.rev_app seen letters).
    { intros H Hne. destruct (IH _ H Hne) as (letters & -> & ->).
      exists (String c letters). split; reflexivity. }
    destruct (url.isAlpha c); [exact Hstep |].
    destruct (url.isSchemeMark c).
    { destruct seen; [intros [= <- _] H; contradiction | exact Hstep]. }
    destruct (Ascii.eqb_spec c ":") as [-> | Hc].
    + destruct seen; [discriminate |]. intros [= <- <-] _.
      exists "". split; reflexivity.
    + intros [= <- _] H. contradiction.
Qed.

Lemma Count_zero s b : url.Count s b = 0%nat → strings.ContainsByte s b = false.
Proof.
  induction s as [| c s IH]; [reflexivity |]. cbn [url.Count strings.ContainsByte].
  destruct (Ascii.eqb c b); [discriminate |]. exact IH.
Qed.

Lemma Count_app s t b :
  url.Count (s +:+ t) b = (url.Count s b + url.Count t b)%nat.
Proof.
  induction s as [| c s IH]; [reflexivity |].
  rewrite string_app_cons. cbn [url.Count]. rewrite IH. lia.
Qed.

Lemma HasSuffix_dropLast s :
  strings.HasSuffix s "?" = true → s = url.dropLast s +:+ "?".
Proof.
  unfold url.dropLast. induction s as [| c s IH]; [discriminate |].
  cbn [strings.HasSuffix]. destruct s as [| d s'].
  - destruct (Ascii.eqb_spec c "?") as [-> | Hc]; [reflexivity |].
    intros H. exfalso. apply orb_prop in H as [H | H]; [| discriminate H].
    apply String.eqb_eq in H. congruence.
  - intros H. apply orb_prop in H as [H | H].
    { apply String.eqb_eq in H. discriminate H. }
    specialize (IH H). cbn [String.length Nat.sub] in IH |- *.
    rewrite Nat.sub_0_r in *. cbn [String.substring] in IH |- *.
    rewrite string_app_cons. f_equal. exact IH.
Qed.

(** The text in front of the only question mark, which ends the
    string. *)
Lemma dropLast_spec s :
  strings.HasSuffix s "?" = true → url.Count s "?" = 1%nat →
  strings.ContainsByte (url.dropLast s) "?" = false
  ∧ s = url.dropLast s +:+ "?".
Proof.
  intros Hsuf Hcount. pose proof (HasSuffix_dropLast s Hsuf) as Hs.
  split; [| exact Hs]. apply Count_zero.
  rewrite Hs, Count_app in Hcount. cbn in Hcount. lia.
Qed.

Lemma HasPrefix_TrimPrefix s prefix :
  strings.HasPrefix s prefix = true → s = prefix +:+ strings.TrimPrefix s prefix.
Proof.
  unfold strings.HasPrefix, strings.TrimPrefix.
  destruct (strings.stripPrefix prefix s) as [r |] eqn:Hr; [| discriminate].
  intros _. apply stripPrefix_Some, Hr.
Qed.

(** A URL with a scheme and a host was written as the scheme, [://] and
    an authority that is not empty. *)
Lemma parse_host_shape raw viaRequest u :
  url.parse raw viaRequest = inr u →
  url.Scheme u ≠ "" → url.Host u ≠ "" →
  ∃ scheme c tail,
    raw = scheme +:+ "://" +:+ String c tail
    ∧ url.Scheme u = url.ToLower scheme
    ∧ c ≠ "/"%char ∧ c ≠ "?"%char.
Proof.
  unfold url.parse.
  destruct (url.stringContainsCTLByte raw); [discriminate |].
  destruct (_ && viaRequest); [discriminate |].
  destruct (String.eqb raw "*").
  { intros [= <-] H. contradiction. }
  unfold url.getScheme.
  destruct (url.getSchemeFrom raw "" raw) as [msg | [scheme rest]] eqn:Hg;
    [discriminate |].
  cbv zeta.
  assert (Hq : ∃ rest' fq q tail,
             (if strings.HasSuffix rest "?" && (url.Count rest "?" =? 1)%nat
              then (url.dropLast rest, true, "")
              else let '(before, after, _) := url.Cut rest "?" in
                   (before, false, after)) = (rest', fq, q)
             ∧ strings.ContainsByte rest' "?" = false
             ∧ rest = rest' +:+ tail).
  { destruct (strings.HasSuffix rest "?") eqn:Hsuf; cbn [andb].
    - destruct (Nat.eqb_spec (url.Count rest "?") 1) as [Hc | Hc].
      + destruct (dropLast_spec _ Hsuf Hc) as [H1 H2]. eauto 10.
      + destruct (url.Cut rest "?") as [[before after] found] eqn:Hcut.
        destruct (Cut_spec _ _ _ _ _ Hcut) as [H1 H2]. eauto 10.
    - destruct (url.Cut rest "?") as [[before after] found] eqn:Hcut.
      destruct (Cut_spec _ _ _ _ _ Hcut) as [H1 H2]. eauto 10. }
  destruct Hq as (rest' & fq & q & tail & -> & Hnoq & Hrest).
  destruct (negb (strings.HasPrefix rest' "/") && negb (url.ToLower scheme =? "")%string).
  { intros [= <-] _ H. contradiction. }
  destruct (negb (strings.HasPrefix rest' "/") && viaRequest); [discriminate |].
  destruct (negb (strings.HasPrefix rest' "/") && _); [discriminate |].
  destruct (strings.HasPrefix rest' "//") eqn:Hpre;
    rewrite ?andb_true_r, ?andb_false_r.
  2: { destruct (url.setEscaped rest' url.encodePath) as [err | [path rawPath]];
         [discriminate |].
       intros [= <-] _ H. contradiction. }
  destruct (_ || _).
  2: { destruct (url.setEscaped rest' url.encodePath) as [err | [path rawPath]];
         [discriminate |].
       intros [= <-] _ H. contradiction. }
  destruct (url.Cut (strings.TrimPrefix rest' "//") "/")
    as [[authority path] found] eqn:Hcut.
  destruct (Cut_spec _ _ _ _ _ Hcut) as [Hnoslash Hauth].
  destruct (url.parseAuthority authority) as [err | [user host]] eqn:Hpa;
    [discriminate |].
  destruct (url.setEscaped _ url.encodePath) as [err | [path' rawPath]];
    [discriminate |].
  intros [= <-]. cbn [url.Scheme url.Host]. intros Hscheme Hhost.
  destruct authority as [| c a].
  { vm_compute in Hpa. injection Hpa as _ <-. contradiction. }
  assert (Hs : scheme ≠ "") by (intros ->; apply Hscheme; reflexivity).
  destruct (getSchemeFrom_spec _ _ _ _ _ Hg Hs) as (letters & Hraw & Hl).
  cbn [String.rev_app] in Hl. subst letters.
  pose proof (HasPrefix_TrimPrefix _ _ Hpre) as Hr'. rewrite Hauth in Hr'.
  exists scheme, c, (a +:+ (if found then String "/" path else "") +:+ tail).
  split.
  { rewrite Hraw, Hrest, Hr'.
    repeat rewrite ?string_app_cons, ?string_app_nil_l, ?string_app_assoc.
    reflexivity. }
  split; [reflexivity |]. split.
  - intros ->. discriminate Hnoslash.
  - intros ->. rewrite Hr' in Hnoq. discriminate Hnoq.
Qed.

Lemma afterPrefixFold_http scheme c tail :
  url.ToLower scheme = "http" ∨ url.ToLower scheme = "https" →
  c ≠ "/"%char → c ≠ "?"%char → c ≠ "#"%char →
  absoluteHttpURI (scheme +:+ "://" +:+ String c tail) = true.
Proof.
  intros Hs H1 H2 H3.
  assert (Hn : namesHost (String c tail) = true).
  { unfold namesHost. cbn [strings.ContainsByte].
    destruct (Ascii.eqb_spec "/" c); [congruence |].
    destruct (Ascii.eqb_spec "?" c); [congruence |].
    destruct (Ascii.eqb_spec "#" c); [congruence |]. reflexivity. }
  unfold absoluteHttpURI.
  destruct Hs as [Hs | Hs];
    repeat (destruct scheme as [| ? scheme]; try discriminate Hs);
    cbn [url.ToLower] in Hs; injection Hs as Ha Hb Hc Hd;
    rewrite !string_app_cons, !string_app_nil_l;
    cbn [afterPrefixFold]; rewrite ?Ha, ?Hb, ?Hc, ?Hd; cbn [Ascii.eqb Bool.eqb].
  - exact Hn.
  - rewrite H. cbn. exact Hn.
Qed.

(** Past the checks of [Download], the source has the shape of an
    absolute HTTP(S) URI. *)
Lemma Parse_shape source u :
  url.Parse source = Ok u →
  url.Scheme u = "http" ∨ url.Scheme u = "https" →
  url.Host u ≠ "" →
  absoluteHttpURI source = true.
Proof.
  unfold url.Parse.
  destruct (url.Cut source "#") as [[s0 frag] found] eqn:Hcut.
  destruct (Cut_spec _ _ _ _ _ Hcut) as [Hnohash ->].
  destruct (url.parse s0 false) as [err | url0] eqn:Hp; [discriminate |].
  assert (H0 : url.Scheme url0 = "http" ∨ url.Scheme url0 = "https" →
               url.Host url0 ≠ "" →
               absoluteHttpURI (s0 +:+ (if found then String "#" frag else "")) = true).
  { intros Hs Hh.
    destruct (parse_host_shape _ _ _ Hp) as (scheme & c & tail & -> & Hsc & H1 & H2);
      [destruct Hs as [-> | ->]; discriminate | exact Hh |].
    repeat rewrite ?string_app_assoc, ?string_app_cons.
    apply afterPrefixFold_http.
    - rewrite <- Hsc. exact Hs.
    - exact H1.
    - exact H2.
    - intros ->. rewrite !ContainsByte_app in Hnohash.
      cbn [strings.ContainsByte] in Hnohash.
      rewrite Ascii.eqb_refl, !orb_true_r in Hnohash. discriminate Hnohash. }
  destruct (String.eqb frag "").
  - intros [= <-]. exact H0.
  - destruct (url.setEscaped frag url.encodeFragment) as [err | [f rf]];
      [discriminate |].
    intros [= <-]. exact H0.
Qed.

(** C9, amended: a source that does not have the shape of an absolute
    HTTP(S) URI, or that holds a control character, is refused with an
    error of [net/url] or of the transport, of kind [InvalidArgument],
    and the world is as it was: no request is sent and the target file
    is not created.  [not-a-url] is refused so, and so is a source with
    a space in its host. *)
Theorem Download_validates_source :
  (∀ source target w,
     absoluteHttpURI source = false →
     ∃ e, Download source target w = (Err e, w)
          ∧ refusal e ∧ kindOf e = InvalidArgument)
  ∧ (∀ source target w,
       url.stringContainsCTLByte source = true →
       Download source target w
       = (Err (urlError "parse" source
                 (urlErrorString "net/url: invalid control character in URL")), w))
  ∧ (∀ target w,
       Download "not-a-url" target w
       = (Err (urlError "parse" "not-a-url"
                 (urlErrorString "invalid URI for request")), w))
  ∧ (∀ target w,
       Download "http://exa mple.com/a.zip" target w
       = (Err (urlError "parse" "http://exa mple.com/a.zip"
                 (InvalidHostError " ")), w)).
Proof.
  split; [| split; [| split]].
  - intros source target w Hshape. unfold Download. unfold bind at 1.
    unfold url.ParseRequestURI.
    destruct (url.parse source true) as [err | u0].
    { eexists. split; [reflexivity |]. split; [left; eauto | reflexivity]. }
    unfold bind at 1. unfold http.Get.
    destruct (url.Parse source) as [u | e] eqn:Hp.
    + destruct (String.eqb_spec (url.Scheme u) "http") as [Hs | Hs]; cbn [orb negb].
      * destruct (String.eqb_spec (http.removeEmptyPort (url.Host u)) "") as [Hh | Hh].
        { eexists. split; [reflexivity |]. split; [right; right |]; reflexivity. }
        exfalso. rewrite (Parse_shape _ _ Hp) in Hshape; [discriminate | auto |].
        intros H0. apply Hh. rewrite H0. reflexivity.
      * destruct (String.eqb_spec (url.Scheme u) "https") as [Hs' | Hs']; cbn [negb].
        2: { eexists. split; [reflexivity |]. split; [right; left; eauto | reflexivity]. }
        destruct (String.eqb_spec (http.removeEmptyPort (url.Host u)) "") as [Hh | Hh].
        { eexists. split; [reflexivity |]. split; [right; right |]; reflexivity. }
        exfalso. rewrite (Parse_shape _ _ Hp) in Hshape; [discriminate | auto |].
        intros H0. apply Hh. rewrite H0. reflexivity.
    + unfold url.Parse in Hp.
      destruct (url.Cut source "#") as [[s0 frag] found].
      destruct (url.parse s0 false) as [err | url0].
      { injection Hp as <-. eexists. split; [reflexivity |].
        split; [left; eauto | reflexivity]. }
      destruct (String.eqb frag ""); [discriminate |].
      destruct (url.setEscaped frag url.encodeFragment) as [err | [f rf]];
        [| discriminate].
      injection Hp as <-. eexists. split; [reflexivity |].
      split; [left; eauto | reflexivity].
  - intros source target w Hctl. unfold Download, bind, url.ParseRequestURI, url.parse.
    rewrite Hctl. reflexivity.
  - intros target w. reflexivity.
  - intros target w. reflexivity.
Qed.

Lemma Download_validates_source_witness :
  (absoluteHttpURI "ftp://host/a.zip" = false)
  ∧ ∃ e, Download "ftp://host/a.zip" "/tmp/out.zip" helloWorld = (Err e, helloWorld)
         ∧ refusal e ∧ kindOf e = InvalidArgument.
Proof.
  assert (H1 : absoluteHttpURI "ftp://host/a.zip" = false) by reflexivity.
  split; [exact H1 |].
  exact (proj1 Download_validates_source
               "ftp://host/a.zip" "/tmp/out.zip" helloWorld H1).
Defined.

(** C9, as stated, fails.  The source [http://example.com/a b.zip] is
    not a URI, for its space, and [Download] lets it through: the
    request is sent and the answer is written to the target. *)
Lemma Download_source_counterexample :
  let source := "http://example.com/a b.zip" in
  let after := snd (Download source "out.zip" spaceWorld) in
  forallb uriCharacter (list_ascii_of_string source) = false
  ∧ fst (Download source "out.zip" spaceWorld) = Ok tt
  ∧ trace after
    = [sys_write ["work"; "out.zip"]; sys_creat "out.zip"; net_get source]
  ∧ fileAt after ["work"; "out.zip"] = Some (Bytes "PK-bytes").
Proof. vm_compute. repeat split. Qed.

(** ** Sources that pass the checks *)

Section AllBytes.
Context (ok : ascii → bool).

Lemma allBytes_app s t : allBytes ok (s +:+ t) = allBytes ok s && allBytes ok t.
Proof.
  induction s as [| c s IH]; [reflexivity |].
  rewrite string_app_cons. cbn [allBytes]. rewrite IH, andb_assoc. reflexivity.
Qed.

Lemma allBytes_ContainsByte s b :
  allBytes ok s = true → ok b = false → strings.ContainsByte s b = false.
Proof.
  intros Hs Hb. induction s as [| c s IH]; [reflexivity |].
  cbn [allBytes] in Hs. apply andb_prop in Hs as [Hc Hs].
  cbn [strings.ContainsByte]. rewrite (IH Hs), orb_false_r.
  apply Ascii.eqb_neq. intros ->. congruence.
Qed.

Lemma allBytes_noCTL s :
  allBytes ok s = true → (∀ c, ok c = true → url.isCTL c = false) →
  url.stringContainsCTLByte s = false.
Proof.
  intros Hs Hok. induction s as [| c s IH]; [reflexivity |].
  cbn [allBytes] in Hs. apply andb_prop in Hs as [Hc Hs].
  cbn [url.stringContainsCTLByte]. rewrite (Hok _ Hc), (IH Hs). reflexivity.
Qed.

Lemma allBytes_unescape s mode :
  allBytes ok s = true →
  (∀ c, ok c = true →
        c ≠ "%"%char ∧ c ≠ "+"%char
        ∧ (url.isHostMode mode = true → url.shouldEscape c url.encodeHost = false)) →
  url.unescape s mode = inr s.
Proof.
  intros Hs Hok. unfold url.unescape.
  assert (H : url.unescapeCheck s mode = None ∧ url.unescapeBytes s mode = s).
  { induction s as [| c s IH]; [split; reflexivity |].
    cbn [allBytes] in Hs. apply andb_prop in Hs as [Hc Hs].
    destruct (Hok _ Hc) as (H1 & H2 & H3). destruct (IH Hs) as [IH1 IH2].
    cbn [url.unescapeCheck url.unescapeBytes].
    destruct (Ascii.eqb_spec c "%"); [contradiction |].
    destruct (Ascii.eqb_spec c "+"); [contradiction |].
    rewrite IH2. split; [| reflexivity].
    destruct (url.isHostMode mode); [| exact IH1].
    rewrite H3 by reflexivity. rewrite andb_false_r. exact IH1. }
  destruct H as [-> ->]. reflexivity.
Qed.

End AllBytes.

Lemma ContainsByte_cutLast s b :
  strings.ContainsByte s b = false → url.cutLast s b = None.
Proof.
  induction s as [| c s IH]; [reflexivity |]. cbn [strings.ContainsByte url.cutLast].
  intros [H1 H2]%orb_false_elim. rewrite (IH H2), H1. reflexivity.
Qed.

Lemma ContainsByte_Cut s b :
  strings.ContainsByte s b = false → url.Cut s b = (s, "", false).
Proof.
  induction s as [| c s IH]; [reflexivity |]. cbn [strings.ContainsByte url.Cut].
  intros [H1 H2]%orb_false_elim. rewrite H1, (IH H2). reflexivity.
Qed.

Lemma Cut_app s t b :
  strings.ContainsByte s b = false → url.Cut (s +:+ String b t) b = (s, t, true).
Proof.
  induction s as [| c s IH]; intros H.
  - rewrite string_app_nil_l. cbn [url.Cut]. rewrite Ascii.eqb_refl. reflexivity.
  - cbn [strings.ContainsByte] in H. apply orb_false_elim in H as [H1 H2].
    rewrite string_app_cons. cbn [url.Cut]. rewrite H1, (IH H2). reflexivity.
Qed.

Lemma ContainsByte_HasSuffix s b :
  strings.ContainsByte s b = false → strings.HasSuffix s (String b "") = false.
Proof.
  induction s as [| c s IH]; [reflexivity |]. cbn [strings.ContainsByte strings.HasSuffix].
  intros [H1 H2]%orb_false_elim. rewrite (IH H2), orb_false_r.
  apply String.eqb_neq. intros [= -> _]. rewrite Ascii.eqb_refl in H1. discriminate.
Qed.

Lemma unreserved_host c :
  unreserved c = true →
  c ≠ "%"%char ∧ c ≠ "+"%char
  ∧ (url.isHostMode url.encodeHost = true →
     url.shouldEscape c url.encodeHost = false).
Proof.
  destruct c as [[] [] [] [] [] [] [] []]; vm_compute; intros H;
    try discriminate H; repeat split; discriminate.
Qed.

Lemma unreserved_path c :
  unreserved c || Ascii.eqb c "/" = true →
  c ≠ "%"%char ∧ c ≠ "+"%char
  ∧ (url.isHostMode url.encodePath = true →
     url.shouldEscape c url.encodeHost = false).
Proof.
  destruct c as [[] [] [] [] [] [] [] []]; vm_compute; intros H;
    try discriminate H; repeat split; discriminate.
Qed.

Lemma unreserved_noCTL c :
  unreserved c || Ascii.eqb c "/" = true → url.isCTL c = false.
Proof.
  destruct c as [[] [] [] [] [] [] [] []]; vm_compute; intros H;
    try discriminate H; reflexivity.
Qed.

Lemma allBytes_impl (ok ok' : ascii → bool) s :
  (∀ c, ok c = true → ok' c = true) → allBytes ok s = true → allBytes ok' s = true.
Proof.
  intros H. induction s as [| c s IH]; [reflexivity |]. cbn [allBytes].
  intros [H1 H2]%andb_prop. rewrite (H _ H1), (IH H2). reflexivity.
Qed.

Lemma stringContainsCTLByte_app s t :
  url.stringContainsCTLByte (s +:+ t)
  = url.stringContainsCTLByte s || url.stringContainsCTLByte t.
Proof.
  induction s as [| c s IH]; [reflexivity |].
  rewrite string_app_cons. cbn [url.stringContainsCTLByte].
  rewrite IH, orb_assoc. reflexivity.
Qed.

Lemma httpURL_cons secure host path :
  httpURL secure host path
  = (if secure then "https://" else "http://") +:+ (host +:+ String "/" path).
Proof.
  unfold httpURL. destruct secure;
    repeat rewrite ?string_app_cons, ?string_app_nil_l; reflexivity.
Qed.

(** [parseAuthority] of a plain host: there is no user information, no
    port and nothing to unescape. *)
Lemma parseAuthority_plain host :
  plainHost host = true → url.parseAuthority host = inr (None, host).
Proof.
  intros [Hne Hh]%andb_prop. unfold url.parseAuthority.
  rewrite (ContainsByte_cutLast host "@")
    by (apply (allBytes_ContainsByte unreserved); [exact Hh | reflexivity]).
  unfold url.parseHost.
  assert (Hb : strings.HasPrefix host "[" = false).
  { destruct host as [| c host]; [reflexivity |].
    cbn [allBytes] in Hh. apply andb_prop in Hh as [Hc _].
    unfold strings.HasPrefix. cbn [strings.stripPrefix].
    destruct (Ascii.eqb_spec "[" c) as [<- | _]; [discriminate Hc | reflexivity]. }
  rewrite Hb.
  rewrite (ContainsByte_cutLast host ":")
    by (apply (allBytes_ContainsByte unreserved); [exact Hh | reflexivity]).
  rewrite (allBytes_unescape unreserved) by (exact Hh || apply unreserved_host).
  reflexivity.
Qed.

(** [parse] of the URL of a plain path on a plain host. *)
Lemma parse_plain viaRequest secure host path :
  plainHost host = true → plainPath path = true →
  ∃ rawPath,
    url.parse (httpURL secure host path) viaRequest
    = inr (url.mkURL (if secure then "https" else "http") "" None host
                     (String "/" path) rawPath false false "" "" "").
Proof.
  intros Hhost Hpath. pose proof Hhost as [Hne Hh]%andb_prop.
  set (ok := λ c, unreserved c || Ascii.eqb c "/").
  assert (Hh' : allBytes ok host = true).
  { revert Hh. apply allBytes_impl. intros c Hc. unfold ok. rewrite Hc. reflexivity. }
  assert (HR : allBytes ok (host +:+ String "/" path) = true).
  { rewrite allBytes_app, Hh'. cbn [allBytes andb]. exact Hpath. }
  assert (Hslash : strings.ContainsByte host "/" = false)
    by (apply (allBytes_ContainsByte unreserved); [exact Hh | reflexivity]).
  assert (HnoQ : strings.ContainsByte ("//" +:+ (host +:+ String "/" path)) "?" = false).
  { rewrite ContainsByte_app. cbn [strings.ContainsByte orb].
    apply (allBytes_ContainsByte ok); [exact HR | reflexivity]. }
  rewrite httpURL_cons. set (R := host +:+ String "/" path) in *.
  unfold url.parse.
  rewrite stringContainsCTLByte_app,
    (allBytes_noCTL ok R HR unreserved_noCTL), orb_false_r.
  assert (Hgs : url.getScheme ((if secure then "https://" else "http://") +:+ R)
                = inr (if secure then "https" else "http", "//" +:+ R)).
  { destruct secure; repeat rewrite ?string_app_cons, ?string_app_nil_l; reflexivity. }
  rewrite Hgs.
  replace (url.stringContainsCTLByte (if secure then "https://" else "http://"))
    with false by (destruct secure; reflexivity).
  replace (String.eqb ((if secure then "https://" else "http://") +:+ R) "")
    with false
    by (destruct secure; repeat rewrite ?string_app_cons; reflexivity).
  replace (String.eqb ((if secure then "https://" else "http://") +:+ R) "*")
    with false
    by (destruct secure; repeat rewrite ?string_app_cons; reflexivity).
  cbn [andb]. cbv zeta.
  rewrite (ContainsByte_HasSuffix _ _ HnoQ). cbn [andb].
  rewrite (ContainsByte_Cut _ _ HnoQ).
  replace (url.ToLower (if secure then "https" else "http"))
    with (if secure then "https" else "http") by (destruct secure; reflexivity).
  replace (strings.HasPrefix ("//" +:+ R) "/") with true
    by (repeat rewrite ?string_app_cons; reflexivity).
  replace (strings.HasPrefix ("//" +:+ R) "//") with true
    by (repeat rewrite ?string_app_cons, ?string_app_nil_l; reflexivity).
  replace (String.eqb (if secure then "https" else "http") "") with false
    by (destruct secure; reflexivity).
  cbn [negb andb orb].
  replace (strings.TrimPrefix ("//" +:+ R) "//") with R
    by (repeat rewrite ?string_app_cons, ?string_app_nil_l; reflexivity).
  unfold R. rewrite (Cut_app _ _ _ Hslash), (parseAuthority_plain _ Hhost).
  unfold url.setEscaped.
  rewrite string_app_cons, string_app_nil_l.
  rewrite (allBytes_unescape ok (String "/" path))
    by (exact Hpath || apply unreserved_path).
  eexists. reflexivity.
Qed.

(** X10: when the source is the URL of a plain path on a plain host and
    the transfer fails, [Download] returns the error of the transfer
    after the request was sent, and the target is not created: the files
    are as they were. *)
Theorem Download_transfer_failure
        (secure : bool) (host path target : string) (w : World) :
  plainHost host = true → plainPath path = true →
  network w (httpURL secure host path) = None →
  ∃ w', Download (httpURL secure host path) target w
        = (Err (netError (httpURL secure host path)), w')
        ∧ files w' = files w
        ∧ trace w' = net_get (httpURL secure host path) :: trace w.
Proof.
  intros Hhost Hpath Hnet. pose proof Hhost as [Hne Hh]%andb_prop.
  destruct (parse_plain true secure host path Hhost Hpath) as [rp1 Hp1].
  destruct (parse_plain false secure host path Hhost Hpath) as [rp2 Hp2].
  assert (Hhash : strings.ContainsByte (httpURL secure host path) "#" = false).
  { rewrite httpURL_cons, !ContainsByte_app.
    rewrite (allBytes_ContainsByte unreserved host "#" Hh eq_refl).
    cbn [strings.ContainsByte].
    rewrite (allBytes_ContainsByte _ path "#" Hpath eq_refl).
    destruct secure; reflexivity. }
  unfold Download. unfold bind at 1. unfold url.ParseRequestURI. rewrite Hp1.
  unfold bind at 1. unfold http.Get, url.Parse.
  rewrite (ContainsByte_Cut _ _ Hhash), Hp2. cbn [String.eqb url.Scheme url.Host].
  replace (negb _) with false by (destruct secure; reflexivity).
  unfold http.removeEmptyPort, http.hasPort.
  rewrite (ContainsByte_cutLast host ":")
    by (apply (allBytes_ContainsByte unreserved); [exact Hh | reflexivity]).
  cbn [andb]. apply negb_true_iff in Hne. rewrite Hne.
  unfold bind. rewrite emit_run. cbn [network]. rewrite Hnet.
  eexists. split; [reflexivity |]. split; reflexivity.
Qed.

Lemma Download_transfer_failure_witness :
  (plainHost "example.com" = true ∧ plainPath "a.zip" = true
   ∧ network helloWorld (httpURL false "example.com" "a.zip") = None)
  ∧ ∃ w', Download (httpURL false "example.com" "a.zip") "out.zip" helloWorld
          = (Err (netError (httpURL false "example.com" "a.zip")), w')
          ∧ files w' = files helloWorld
          ∧ trace w' = net_get (httpURL false "example.com" "a.zip")
                       :: trace helloWorld.
Proof.
  assert (H1 : plainHost "example.com" = true) by reflexivity.
  assert (H2 : plainPath "a.zip" = true) by reflexivity.
  assert (H3 : network helloWorld (httpURL false "example.com" "a.zip") = None)
    by reflexivity.
  split; [exact (conj H1 (conj H2 H3)) |].
  exact (Download_transfer_failure false "example.com" "a.zip" "out.zip" helloWorld
                                   H1 H2 H3).
Defined.

(** ** Where the entries are extracted *)

Lemma extends_refl w : extends w w.
Proof. split; [reflexivity |]. split; [reflexivity |]. exists []. reflexivity. Qed.

Lemma extends_trans w1 w2 w3 : extends w1 w2 → extends w2 w3 → extends w1 w3.
Proof.
  intros (Hc1 & Hf1 & a1 & Ht1) (Hc2 & Hf2 & a2 & Ht2).
  split; [congruence |]. split; [etrans; eassumption |].
  exists (a2 ++ a1). rewrite Ht2, Ht1, app_assoc. reflexivity.
Qed.

Lemma Stat_extends path w r w' :
  os.Stat path w = (r, w') → extends w w' ∧ trace w' = sys_stat path :: trace w.
Proof.
  intros H. pose proof (Stat_trace _ _ _ _ H) as Ht.
  apply Stat_sameFiles in H as (Hf & Hc & _).
  split; [| exact Ht]. split; [exact Hc |]. split; [rewrite Hf; reflexivity |].
  exists [sys_stat path]. exact Ht.
Qed.

Lemma Lstat_extends path w r w' : os.Lstat path w = (r, w') → extends w w'.
Proof.
  unfold os.Lstat, bind. rewrite emit_run.
  destruct (os.statAt "lstat" path _) as [r0 w0] eqn:Hs.
  apply statAt_sameFiles in Hs. subst w0. intros [= _ <-].
  split; [reflexivity |]. split; [reflexivity |]. exists [sys_lstat path]. reflexivity.
Qed.

Lemma Mkdir_extends name perm w r w' : os.Mkdir name perm w = (r, w') → extends w w'.
Proof.
  unfold os.Mkdir, bind. rewrite emit_run. set (w0 := mkWorld _ _ _ _ _).
  assert (H0 : extends w w0).
  { split; [reflexivity |]. split; [reflexivity |]. exists [sys_mkdir name perm]. reflexivity. }
  destruct (os.namei w0 _) as [errno | loc]; [intros [= _ <-]; exact H0 |].
  destruct (files w0 !! loc) as [i |] eqn:Hi; [intros [= _ <-]; exact H0 |].
  destruct (files w0 !! removelast loc) as [[pp c | pp] |];
    try (intros [= _ <-]; exact H0).
  destruct (os.writable pp); intros [= _ <-]; [| exact H0].
  eapply extends_trans; [exact H0 |].
  split; [reflexivity |]. split; [apply insert_subseteq, Hi |]. exists []. reflexivity.
Qed.

(** [os.MkdirAll] begins with [os.Stat] of the path. *)
Lemma MkdirAllFrom_extends n : ∀ path perm w r w',
  os.MkdirAllFrom n path perm w = (r, w') →
  extends w w' ∧ ∃ add, trace w' = add ++ sys_stat path :: trace w.
Proof.
  assert (Hfirst : ∀ path w w1 w' rs,
            os.Stat path w = (rs, w1) → extends w1 w' →
            extends w w' ∧ ∃ add, trace w' = add ++ sys_stat path :: trace w).
  { intros path w w1 w' rs Hst H1. apply Stat_extends in Hst as [Hst Ht].
    split; [eapply extends_trans; eassumption |].
    destruct H1 as (_ & _ & add & Ha). exists add. rewrite Ha, Ht. reflexivity. }
  induction n as [| n IH]; intros path perm w r w'; cbn [os.MkdirAllFrom];
    unfold bind at 1; unfold try at 1;
    destruct (os.Stat path w) as [[fi | e] w1] eqn:Hst.
  1,3: destruct (IsDir fi); intros [= _ <-];
    apply (Hfirst _ _ _ _ _ Hst), extends_refl.
  - unfold bind at 1.
    assert (Hret : (match os.parentOf path with Some _ | _ => ret tt end) w1
                   = (Ok tt, w1)) by (destruct (os.parentOf path); reflexivity).
    rewrite Hret. unfold bind at 1. unfold try at 1.
    destruct (os.Mkdir path perm w1) as [[[] | e1] w2] eqn:Hmk;
      apply Mkdir_extends in Hmk.
    + intros [= _ <-]. apply (Hfirst _ _ _ _ _ Hst), Hmk.
    + unfold bind, try.
      destruct (os.Lstat path w2) as [[fi | e2] w3] eqn:Hl;
        apply Lstat_extends in Hl;
        [destruct (IsDir fi) |]; intros [= _ <-];
        (apply (Hfirst _ _ _ _ _ Hst); eapply extends_trans; eassumption).
  - unfold bind at 1.
    assert (Hpar : ∃ rp wp, (match os.parentOf path with
                             | Some parent => os.MkdirAllFrom n parent perm
                             | None => ret tt
                             end) w1 = (rp, wp) ∧ extends w1 wp).
    { destruct (os.parentOf path) as [parent |].
      - destruct (os.MkdirAllFrom n parent perm w1) as [rp wp] eqn:Hp.
        exists rp, wp. split; [reflexivity | apply (IH _ _ _ _ _ Hp)].
      - exists (Ok tt), w1. split; [reflexivity | apply extends_refl]. }
    destruct Hpar as (rp & wp & -> & Hkp).
    destruct rp as [[] | ep];
      [| intros [= _ <-]; apply (Hfirst _ _ _ _ _ Hst), Hkp].
    unfold bind at 1. unfold try at 1.
    destruct (os.Mkdir path perm wp) as [[[] | e1] w2] eqn:Hmk;
      apply Mkdir_extends in Hmk.
    + intros [= _ <-]. apply (Hfirst _ _ _ _ _ Hst).
      eapply extends_trans; eassumption.
    + unfold bind, try.
      destruct (os.Lstat path w2) as [[fi | e2] w3] eqn:Hl;
        apply Lstat_extends in Hl;
        [destruct (IsDir fi) |]; intros [= _ <-];
        (apply (Hfirst _ _ _ _ _ Hst);
         eapply extends_trans; [exact Hkp |]; eapply extends_trans; eassumption).
Qed.

(** The directory of the extraction path is asked for, and made when it
    is not there; what comes of it is not looked at. *)
Lemma ensure_extends path w r w' :
  (let* st := try (os.Stat path) in
   if IsNotExist st then try (os.MkdirAll path 0x1ed) else ret (Ok tt)) w = (r, w') →
  (∃ x, r = Ok x) ∧ extends w w'
  ∧ ∃ add, trace w' = add ++ sys_stat path :: trace w.
Proof.
  unfold bind at 1. unfold try at 1.
  destruct (os.Stat path w) as [st w1] eqn:Hst.
  apply Stat_extends in Hst as [Hst Ht].
  destruct (IsNotExist st).
  - unfold try. destruct (os.MkdirAll path 0x1ed w1) as [r0 w0] eqn:Hm.
    apply MkdirAllFrom_extends in Hm as [Hm _]. intros [= <- <-].
    split; [eauto |]. split; [eapply extends_trans; eassumption |].
    destruct Hm as (_ & _ & add & Ha). exists add. rewrite Ha, Ht. reflexivity.
  - intros [= <- <-]. split; [eauto |]. split; [exact Hst |].
    exists []. exact Ht.
Qed.

Lemma Create_Err_open path w e w1 :
  os.Create path w = (Err e, w1) → ∃ errno, e = PathError "open" path errno.
Proof.
  unfold os.Create, bind. rewrite emit_run.
  destruct (os.namei _ path) as [errno | loc]; [intros [= <- _]; eauto |].
  destruct (files _ !! loc) as [[perm c | perm] |].
  - destruct (_ && _); [discriminate | intros [= <- _]; eauto].
  - intros [= <- _]; eauto.
  - destruct (files _ !! removelast loc) as [[pp c | pp] |];
      try (intros [= <- _]; eauto).
    destruct (os.writable pp); [discriminate | intros [= <- _]; eauto].
Qed.

(** A path leads where it led as long as the directories stay. *)
Lemma walkElems_keeps fs fs' elems : ∀ cur loc,
  (∀ l p, fs !! l = Some (Directory p) → fs' !! l = Some (Directory p)) →
  os.walkElems fs cur elems = inr loc → os.walkElems fs' cur elems = inr loc.
Proof.
  induction elems as [| e elems IH]; intros cur loc Hd; [trivial |].
  cbn [os.walkElems].
  destruct (fs !! cur) as [[p c | p] |] eqn:Hc; try discriminate.
  rewrite (Hd _ _ Hc).
  destruct (String.eqb e ""); [apply IH, Hd |].
  destruct (negb (os.searchable p)); [discriminate |].
  destruct (String.eqb e "."); [apply IH, Hd |].
  destruct (String.eqb e ".."); apply IH, Hd.
Qed.

Lemma namei_keeps w w' path loc :
  cwd w' = cwd w → keeps w w' →
  os.namei w path = inr loc → os.namei w' path = inr loc.
Proof.
  intros Hc Hk. unfold os.namei. destruct (String.eqb path ""); [trivial |].
  rewrite Hc. apply walkElems_keeps. intros l p Hl. apply (Hk l _ Hl).
Qed.

Lemma extends_keeps w w' : extends w w' → keeps w w'.
Proof.
  intros (_ & Hf & _) loc i Hi.
  pose proof (lookup_weaken _ _ _ _ Hi Hf) as Hi'. destruct i; eauto.
Qed.

Local Ltac same_trace :=
  repeat (rewrite <- app_assoc || rewrite <- app_comm_cons); reflexivity.

(** What [extract] does for one entry. *)
Lemma extract_step target file w r w' :
  extract target file w = (r, w') →
  cwd w' = cwd w ∧ keeps w w'
  ∧ ∃ add,
      trace w' = add ++ trace w
      ∧ match r with
        | Err e => stoppedAt target file e ∧ files w ⊆ files w'
        | Ok _ =>
            sys_stat (filepath.Dir (extractedFilePath target file)) ∈ add
            ∧ if modeIsDir (zip.Mode file)
              then sys_stat (extractedFilePath target file) ∈ add
                   ∧ files w ⊆ files w'
              else sys_creat (extractedFilePath target file) ∈ add
                   ∧ ∃ loc perm,
                       os.namei w' (extractedFilePath target file) = inr loc
                       ∧ files w' !! loc = Some (RegFile perm (data file))
                       ∧ ∀ l i, l ≠ loc → files w !! l = Some i →
                                files w' !! l = Some i
        end.
Proof.
  intros Hx. pose proof (extract_keeps _ _ _ _ _ Hx) as Hk. revert Hx.
  unfold extract, extractedFilePath, zip.Open. unfold bind at 1.
  destruct (zip.supported (Method file)).
  2: { intros [= <- <-]. split; [reflexivity |]. split; [exact Hk |].
       exists []. split; [reflexivity |]. split; [left |]; reflexivity. }
  set (path := filepath.Join _).
  destruct (modeIsDir (zip.Mode file)) eqn:Hd.
  - rewrite <- (bind_assoc (try (os.Stat (filepath.Dir path)))
      (λ st, if IsNotExist st then try (os.MkdirAll (filepath.Dir path) 0x1ed)
             else ret (Ok tt))).
    unfold bind at 1.
    destruct (bind (try (os.Stat (filepath.Dir path))) _ w) as [r1 w1] eqn:H1.
    apply ensure_extends in H1 as ([x ->] & He1 & a1 & Ht1).
    unfold bind, try.
    destruct (os.MkdirAll path (zip.Mode file) w1) as [r2 w2] eqn:H2.
    apply MkdirAllFrom_extends in H2 as [He2 [a2 Ht2]]. intros [= <- <-].
    destruct He1 as (Hc1 & Hf1 & _), He2 as (Hc2 & Hf2 & _).
    split; [congruence |]. split; [exact Hk |].
    exists (a2 ++ sys_stat path :: a1 ++ [sys_stat (filepath.Dir path)]).
    split.
    { rewrite Ht2, Ht1. same_trace. }
    split; [| split; [| etrans; eassumption]].
    + apply elem_of_app. right. right. apply elem_of_app. right. left.
    + apply elem_of_app. right. left.
  - rewrite <- (bind_assoc (try (os.Stat (filepath.Dir path)))
      (λ st, if IsNotExist st then try (os.MkdirAll (filepath.Dir path) 0x1ed)
             else ret (Ok tt))).
    unfold bind at 1.
    destruct (bind (try (os.Stat (filepath.Dir path))) _ w) as [r1 w1] eqn:H1.
    apply ensure_extends in H1 as ([x ->] & He1 & a1 & Ht1).
    destruct He1 as (Hc1 & Hf1 & _).
    unfold bind.
    destruct (os.Create path w1) as [[f | e] w2] eqn:H2.
    + pose proof (Create_namei _ _ _ _ H2) as Hn.
      pose proof (Create_keeps _ _ _ _ H2) as Hk2.
      destruct (Create_Ok _ _ _ _ H2) as (perm & Hf2 & Hc2 & _ & _ & Ht2).
      unfold os.WriteAll, bind. rewrite emit_run. cbn [files].
      rewrite Hf2, lookup_insert_eq. intros [= <- <-].
      cbn [putInode files cwd trace].
      split; [congruence |]. split; [exact Hk |].
      exists (sys_write (os.fileLoc f) :: sys_creat path
              :: a1 ++ [sys_stat (filepath.Dir path)]).
      split; [rewrite Ht2, Ht1; same_trace |].
      split; [do 2 right; apply elem_of_app; right; left |].
      split; [right; left |].
      exists (os.fileLoc f), perm. split; [| split].
      * unfold os.namei in Hn |- *. cbn [cwd files].
        destruct (String.eqb path ""); [discriminate Hn |].
        rewrite Hc2. revert Hn. apply walkElems_keeps.
        intros l p Hl.
        destruct (decide (l = os.fileLoc f)) as [-> | Hne].
        -- specialize (Hk2 _ _ Hl). cbn in Hk2.
           rewrite Hf2, lookup_insert_eq in Hk2. discriminate Hk2.
        -- cbn [putInode files]. rewrite !lookup_insert_ne by congruence. exact Hl.
      * cbn [putInode files]. apply lookup_insert_eq.
      * intros l i Hl Hi. cbn [putInode files].
        rewrite !lookup_insert_ne by congruence.
        apply (lookup_weaken _ _ _ _ Hi Hf1).
    + destruct (Create_Err_open _ _ _ _ H2) as [errno ->].
      destruct (Create_Err _ _ _ _ H2) as ((Hf2 & Hc2 & _) & Ht2).
      intros [= <- <-]. split; [congruence |]. split; [exact Hk |].
      exists (sys_creat path :: a1 ++ [sys_stat (filepath.Dir path)]).
      split; [rewrite Ht2, Ht1; same_trace |].
      split; [right; split; [exact Hd | eauto] |].
      rewrite Hf2. exact Hf1.
Qed.

(** What was done for an entry stays done: calls are added, a path
    leads where it led, and a file that was written holds its bytes
    until the next entry for the same place. *)
Lemma extractedTo_later target done new w1 done' add w2 file :
  extractedTo target done new w1 file →
  cwd w2 = cwd w1 → keeps w1 w2 →
  (∀ x, x ∈ done → x ∈ done') →
  (∀ l p c, files w1 !! l = Some (RegFile p c) →
            files w2 !! l = Some (RegFile p c)
            ∨ ∃ perm writer,
                files w2 !! l = Some (RegFile perm (data writer))
                ∧ writer ∈ done'
                ∧ modeIsDir (zip.Mode writer) = false
                ∧ os.namei w2 (extractedFilePath target writer) = inr l) →
  extractedTo target done' (add ++ new) w2 file.
Proof.
  unfold extractedTo. intros [H1 H2] Hc Hk Hdone Hcontent.
  split; [apply elem_of_app; right; exact H1 |].
  destruct (modeIsDir (zip.Mode file)); [apply elem_of_app; right; exact H2 |].
  destruct H2 as (H2 & loc & perm & writer & Hn & Hf & Hw & Hwd & Hwn).
  split; [apply elem_of_app; right; exact H2 |].
  pose proof (namei_keeps _ _ _ _ Hc Hk Hn) as Hn'.
  destruct (Hcontent _ _ _ Hf) as [Hsame | (perm' & writer' & Hf' & Hw' & Hwd' & Hwn')].
  - exists loc, perm, writer. repeat split; auto.
    apply (namei_keeps _ _ _ _ Hc Hk Hwn).
  - exists loc, perm', writer'. repeat split; auto.
Qed.

(** The loop of [Unarchive], from the entries [done] on. *)
Lemma extractAll_extracted target w0 File : ∀ done new w1 r w',
  trace w1 = new ++ trace w0 → cwd w1 = cwd w0 →
  (∀ file, file ∈ done → extractedTo target done new w1 file) →
  extractAll target File w1 = (r, w') →
  ∃ done' new',
    trace w' = new' ++ trace w0 ∧ cwd w' = cwd w0
    ∧ (∀ file, file ∈ done' → extractedTo target done' new' w' file)
    ∧ match r with
      | Ok _ => done' = done ++ File
      | Err e => ∃ file rest, done ++ File = done' ++ file :: rest
                              ∧ stoppedAt target file e
      end.
Proof.
  induction File as [| file File IH]; intros done new w1 r w' Ht Hc Hdone;
    cbn [extractAll].
  - intros [= <- <-]. exists done, new.
    split; [exact Ht |]. split; [exact Hc |]. split; [exact Hdone |].
    symmetry. apply app_nil_r.
  - unfold bind. destruct (extract target file w1) as [[[] | e] w2] eqn:Hx;
      destruct (extract_step _ _ _ _ _ Hx) as (Hc2 & Hk2 & add & Ht2 & Hr).
    + intros Hrest.
      destruct (IH (done ++ [file]) (add ++ new) w2 r w') as (done' & new' & H).
      * rewrite Ht2, Ht, app_assoc. reflexivity.
      * congruence.
      * intros f Hf. destruct Hr as [Hstat Hr].
        apply elem_of_app in Hf as [Hf | Hf%list_elem_of_singleton].
        -- apply (extractedTo_later _ done new w1); auto.
           { intros x Hx'. apply elem_of_app. left. exact Hx'. }
           intros l p c Hl. destruct (modeIsDir (zip.Mode file)) eqn:Hd.
           ++ left. destruct Hr as [_ Hsub]. apply (lookup_weaken _ _ _ _ Hl Hsub).
           ++ destruct Hr as (_ & loc & perm & Hn & Hat & Hother).
              destruct (decide (l = loc)) as [-> | Hne].
              ** right. exists perm, file. repeat split; auto.
                 apply elem_of_app. right. left.
              ** left. apply Hother; assumption.
        -- subst f. unfold extractedTo.
           split; [apply elem_of_app; left; exact Hstat |].
           destruct (modeIsDir (zip.Mode file)) eqn:Hd.
           ++ apply elem_of_app. left. apply Hr.
           ++ destruct Hr as (Hcr & loc & perm & Hn & Hat & _).
              split; [apply elem_of_app; left; exact Hcr |].
              exists loc, perm, file. repeat split; auto.
              apply elem_of_app. right. left.
      * exact Hrest.
      * exists done', new'. rewrite <- app_assoc in H. exact H.
    + intros [= <- <-]. destruct Hr as [Hstop Hsub].
      exists done, (add ++ new). split; [rewrite Ht2, Ht, app_assoc; reflexivity |].
      split; [congruence |]. split; [| eauto].
      intros f Hf. apply (extractedTo_later _ done new w1); auto.
      intros l p c Hl. left. apply (lookup_weaken _ _ _ _ Hl Hsub).
Qed.

Lemma Unarchive_extracted source target w File w0 r w' :
  zip.OpenReader source w = (Ok File, w0) →
  Unarchive source target w = (r, w') →
  ∃ done new,
    trace w' = new ++ trace w0 ∧ cwd w' = cwd w
    ∧ (∀ file, file ∈ done → extractedTo target done new w' file)
    ∧ match r with
      | Ok _ => done = File
      | Err e => ∃ file rest, File = done ++ file :: rest
                              ∧ stoppedAt target file e
      end.
Proof.
  intros Ho. unfold Unarchive. rewrite (bind_Ok _ _ _ _ _ Ho). intros Hx.
  pose proof (OpenReader_sameFiles _ _ _ _ Ho) as (_ & Hc0 & _).
  destruct (extractAll_extracted target w0 File [] [] w0 r w' eq_refl eq_refl)
    as (done & new & Ht & Hc & Hall & Hr); [| exact Hx |].
  { intros f Hf. apply elem_of_nil in Hf. contradiction. }
  exists done, new. split; [exact Ht |]. split; [congruence |].
  split; [exact Hall | exact Hr].
Qed.

(** An entry named [../n] is extracted beside the target [dst]. *)
Lemma Join_dotdot dst n :
  validName dst → validName n → filepath.Join [dst; "../" +:+ n] = n.
Proof.
  intros (Hd1 & Hd2 & Hd3 & Hd4) (Hn1 & Hn2 & Hn3 & Hn4).
  rewrite Join_two by exact Hd1.
  replace (dst +:+ "/" +:+ "../" +:+ n) with (strings.Join [dst; ".."; n] "/")
    by (unfold strings.Join; cbn [String.concat];
        repeat rewrite ?string_app_cons, ?string_app_nil_l; reflexivity).
  unfold filepath.Clean.
  assert (Hne : strings.Join [dst; ".."; n] "/" ≠ "").
  { unfold strings.Join. cbn [String.concat]. destruct dst; [congruence | discriminate]. }
  apply String.eqb_neq in Hne. rewrite Hne.
  assert (Hr : filepath.rooted (strings.Join [dst; ".."; n] "/") = false).
  { unfold strings.Join. cbn [String.concat]. rewrite rooted_app by exact Hd1.
    destruct dst as [| c dst]; [congruence |].
    cbn [strings.ContainsByte] in Hd4. apply orb_false_elim in Hd4 as [Hd4 _].
    exact Hd4. }
  rewrite Hr, Split_Join;
    [| discriminate | repeat constructor; (assumption || reflexivity)].
  cbn [filepath.cleanElems].
  apply String.eqb_neq in Hd1, Hd2, Hd3, Hn1, Hn2, Hn3.
  rewrite Hd1, Hd2, Hd3, Hn1, Hn2, Hn3. reflexivity.
Qed.

(** C10: [Unarchive] goes through the entries in order, and for every
    entry the path it asks the system for is the plain join of the
    target directory and the stored name: for the entry of a file it
    creates that path, and where the path leads there is then a regular
    file with the bytes of an entry extracted to that place; for the
    entry of a directory it hands the path to [os.MkdirAll].  When it
    stops, the error is that of the entry it stopped at.  So a file
    entry named [../n] is extracted to [n] beside the target [dst], not
    below it; and the archive of [escapeWorld], extracted into [dst],
    makes the directory [/work/out] and the file [/work/out/evil.txt]. *)
Theorem Unarchive_path_not_sanitized :
  (∀ source target w File w0 r w',
     zip.OpenReader source w = (Ok File, w0) →
     Unarchive source target w = (r, w') →
     ∃ done new,
       trace w' = new ++ trace w0
       ∧ (∀ file, file ∈ done → extractedTo target done new w' file)
       ∧ match r with
         | Ok _ => done = File
         | Err e => ∃ file rest, File = done ++ file :: rest
                                 ∧ stoppedAt target file e
         end)
  ∧ (∀ source dst n w File w0 w' file,
       validName dst → validName n → n ≠ dst →
       zip.OpenReader source w = (Ok File, w0) →
       Unarchive source dst w = (Ok tt, w') →
       file ∈ File → Name file = "../" +:+ n →
       modeIsDir (zip.Mode file) = false →
       extractedFilePath dst file = n
       ∧ (∃ perm c, files w' !! (cwd w ++ [n]) = Some (RegFile perm c))
       ∧ ¬ (cwd w ++ [dst]) `prefix_of` (cwd w ++ [n]))
  ∧ (let after := snd (Unarchive "in.zip" "dst" escapeWorld) in
     containerAt escapeWorld ["work"; "in.zip"]
     = Some [mkFileHeader "ok.txt" 0x1a4 zip.Deflate (Bytes "fine");
             mkFileHeader "../out/" (N.lor ModeDir 0x1ed) zip.Store (Bytes "");
             mkFileHeader "../out/evil.txt" 0x1a4 zip.Deflate (Bytes "gotcha")]
     ∧ fst (Unarchive "in.zip" "dst" escapeWorld) = Ok tt
     ∧ os.namei escapeWorld "dst" = inr ["work"; "dst"]
     ∧ files escapeWorld !! ["work"; "out"] = None
     ∧ fileAt after ["work"; "dst"; "ok.txt"] = Some (Bytes "fine")
     ∧ files after !! ["work"; "out"] = Some (Directory 0x1ed)
     ∧ fileAt after ["work"; "out"; "evil.txt"] = Some (Bytes "gotcha")
     ∧ ¬ (["work"; "dst"] `prefix_of` ["work"; "out"])).
Proof.
  split; [| split].
  - intros source target w File w0 r w' Ho Hx.
    destruct (Unarchive_extracted _ _ _ _ _ _ _ Ho Hx)
      as (done & new & Ht & _ & Hall & Hr).
    exists done, new. auto.
  - intros source dst n w File w0 w' file Hdst Hn Hne Ho Hx Hin Hname Hd.
    destruct (Unarchive_extracted _ _ _ _ _ _ _ Ho Hx)
      as (done & new & _ & Hc & Hall & ->).
    assert (Hpath : extractedFilePath dst file = n).
    { unfold extractedFilePath, targetDirOf.
      destruct (String.eqb_spec dst "") as [-> | _]; [destruct Hdst; congruence |].
      rewrite Hname. apply Join_dotdot; assumption. }
    split; [exact Hpath |]. split.
    + specialize (Hall _ Hin). unfold extractedTo in Hall.
      rewrite Hd, Hpath in Hall.
      destruct Hall as (_ & _ & loc & perm & writer & Hloc & Hat & _).
      change n with (pathOf [n]) in Hloc.
      assert (Hv : Forall validName [n]) by (constructor; [exact Hn | constructor]).
      rewrite namei_pathOf in Hloc; [| discriminate | exact Hv].
      apply walkElems_inr in Hloc; [| exact Hv].
      subst loc. rewrite Hc in Hat. eauto.
    + intros [k Hk]. rewrite <- app_assoc in Hk. apply app_inv_head in Hk.
      injection Hk as Hk _. congruence.
  - vm_compute. repeat split. intros [k Hk]. discriminate Hk.
Qed.

Lemma Unarchive_path_not_sanitized_witness :
  let File := [mkFileHeader "ok.txt" 0x1a4 zip.Deflate (Bytes "fine");
               mkFileHeader "../out/" (N.lor ModeDir 0x1ed) zip.Store (Bytes "");
               mkFileHeader "../out/evil.txt" 0x1a4 zip.Deflate (Bytes "gotcha")] in
  let w0 := snd (zip.OpenReader "in.zip" escapeWorld) in
  let w' := snd (Unarchive "in.zip" "dst" escapeWorld) in
  (zip.OpenReader "in.zip" escapeWorld = (Ok File, w0)
   ∧ Unarchive "in.zip" "dst" escapeWorld = (Ok tt, w'))
  ∧ ∃ done new,
      trace w' = new ++ trace w0
      ∧ (∀ file, file ∈ done → extractedTo "dst" done new w' file)
      ∧ done = File.
Proof.
  intros File w0 w'.
  assert (H1 : zip.OpenReader "in.zip" escapeWorld = (Ok File, w0))
    by (vm_compute; reflexivity).
  assert (H2 : Unarchive "in.zip" "dst" escapeWorld = (Ok tt, w'))
    by (vm_compute; reflexivity).
  split; [exact (conj H1 H2) |].
  exact (proj1 Unarchive_path_not_sanitized
               "in.zip" "dst" escapeWorld File w0 (Ok tt) w' H1 H2).
Defined.

(** * Properties of package [fs] *)

(** ** [FileExtension] *)

(** X11: for a path with a dot, [FileExtension] returns what follows the
    last dot, in lower case.  Nothing else of the path is looked at: of
    [my.dir/file] it returns [dir/file], and of a path that ends in a
    dot the empty string, without an error. *)
Theorem FileExtension_after_last_dot (s e : string) :
  strings.ContainsByte e "." = false → isASCII e = true →
  fs.FileExtension (s +:+ "." +:+ e) = Ok (url.ToLower e).
Proof.
  intros He _. unfold fs.FileExtension.
  rewrite ContainsByte_app. cbn [strings.ContainsByte Ascii.eqb Bool.eqb orb].
  rewrite orb_true_r.
  change ("." +:+ e) with (String "." e).
  rewrite Split_app_sep, (Split_plain e "." He), last_snoc. reflexivity.
Qed.

Lemma FileExtension_after_last_dot_witness :
  (strings.ContainsByte "GZ" "." = false ∧ isASCII "GZ" = true)
  ∧ fs.FileExtension ("archive.TAR" +:+ "." +:+ "GZ") = Ok (url.ToLower "GZ").
Proof.
  assert (H1 : strings.ContainsByte "GZ" "." = false) by reflexivity.
  assert (H2 : isASCII "GZ" = true) by reflexivity.
  split; [exact (conj H1 H2) |].
  exact (FileExtension_after_last_dot "archive.TAR" "GZ" H1 H2).
Defined.

(** ** [PathExists] and [PathNotExists] *)

(** X12: [PathNotExists] never answers false without an error: for a
    path that exists it answers true, as it does for one that does not
    exist, and as [PathExists] does. *)
Theorem PathNotExists_never_false (path : string) (w : World) :
  fst (fs.PathNotExists path w) ≠ Ok false
  ∧ ∀ info w1, os.Stat path w = (Ok info, w1) →
               fs.PathNotExists path w = (Ok true, w1)
               ∧ fs.PathExists path w = (Ok true, w1).
Proof.
  unfold fs.PathNotExists, fs.PathExists, bind, try.
  destruct (os.Stat path w) as [[info | e] w1]. 
  - split; [discriminate |]. intros ? ? [= <- <-]. split; reflexivity.
  - split; [| discriminate]. destruct (IsNotExist (Err e)); discriminate.
Qed.

(** ** A name in the working directory *)

Section InWorkingDirectory.
Context (w : World) (name : string) (pc : N).
Hypothesis Hname : validName name.
Hypothesis Hcwd : files w !! cwd w = Some (Directory pc).
Hypothesis Hcx : os.searchable pc = true.
Local Abbreviation here := (cwd w ++ [name]).

Lemma valid_single : Forall validName [name].
Proof. constructor; [exact Hname | constructor]. Qed.

Lemma way_single w' :
  sameFiles w w' →
  ∀ k, (k < length [name])%nat →
       ∃ p, files w' !! (cwd w' ++ take k [name]) = Some (Directory p)
            ∧ os.searchable p = true.
Proof.
  intros (Hf & Hc & _) [| k] Hk; [| cbn in Hk; lia].
  cbn [take]. rewrite List.app_nil_r, Hf, Hc. eauto.
Qed.

Lemma namei_single w' : sameFiles w w' → os.namei w' name = inr here.
Proof.
  intros Hs. change name with (pathOf [name]) at 1.
  rewrite namei_pathOf by (discriminate || apply valid_single).
  rewrite walkElems_dirs by (apply valid_single || apply way_single, Hs).
  destruct Hs as (_ & -> & _). reflexivity.
Qed.

Lemma Stat_single_found w' i :
  sameFiles w w' → files w' !! here = Some i →
  ∃ info w'', os.Stat name w' = (Ok info, w'') ∧ sameFiles w' w''.
Proof.
  intros Hs Hi.
  pose proof (Stat_found w' [name] i ltac:(discriminate) valid_single
                (way_single w' Hs)) as H.
  destruct Hs as (_ & Hc & _). rewrite Hc in H. specialize (H Hi).
  change (pathOf [name]) with name in H. eexists _, _. split; [exact H |].
  repeat split; cbn; congruence.
Qed.

Lemma Stat_single_missing :
  files w !! here = None →
  os.Stat name w
  = (Err (PathError "stat" name ENOENT),
     mkWorld (files w) (cwd w) (umask w) (network w) (sys_stat name :: trace w)).
Proof.
  intros Hnone.
  apply (Stat_missing w [name] ltac:(discriminate) valid_single); [| exact Hnone].
  intros k Hk. right. apply (way_single w (sameFiles_refl w) k Hk).
Qed.

Lemma lastName_single : os2.lastName name = name.
Proof.
  destruct Hname as (Hne & _ & _ & Hs).
  unfold os2.lastName. rewrite Split_plain by exact Hs. cbn [List.filter].
  destruct (String.eqb_spec name ""); [contradiction | reflexivity].
Qed.

Lemma removelast_here : removelast here = cwd w.
Proof. apply removelast_last. Qed.

Lemma isEmptyDir_true w' :
  (∀ n, files w' !! (here ++ [n]) = None) → os2.isEmptyDir w' here = true.
Proof.
  intros Hnone. unfold os2.isEmptyDir.
  rewrite (elem_of_nil_inv (omap (os.childName here) (map_to_list (files w')).*1));
    [reflexivity |].
  intros n Hin. apply list_elem_of_omap in Hin as (loc & Hloc & Hc).
  apply childName_Some in Hc. subst loc.
  apply list_elem_of_fmap in Hloc as ([loc i] & Heq & Hin). cbn in Heq. subst loc.
  apply elem_of_map_to_list in Hin. rewrite Hnone in Hin. discriminate.
Qed.

Lemma isEmptyDir_false w' n i :
  files w' !! (here ++ [n]) = Some i → os2.isEmptyDir w' here = false.
Proof.
  intros Hi. unfold os2.isEmptyDir.
  destruct (omap (os.childName here) (map_to_list (files w')).*1) as [| x l] eqn:Hl;
    [| reflexivity].
  exfalso. assert (Hin : n ∈ omap (os.childName here) (map_to_list (files w')).*1).
  { apply list_elem_of_omap. exists (here ++ [n]). split.
    - apply list_elem_of_fmap. exists (here ++ [n], i). split; [reflexivity |].
      apply elem_of_map_to_list, Hi.
    - apply childName_Some. reflexivity. }
  rewrite Hl in Hin. apply elem_of_nil in Hin. exact Hin.
Qed.

(** [os.Remove] of what is there: a regular file, or a directory that
    holds nothing. *)
Lemma Remove_single w' i :
  sameFiles w w' → os.writable pc = true →
  files w' !! here = Some i →
  (∀ n, files w' !! (here ++ [n]) = None) →
  os2.Remove name w' = (None, os2.removeInode here w').
Proof.
  intros Hs Hw Hi Hnone. pose proof Hs as (Hf & Hc & _).
  unfold os2.Remove, os2.unlink, os2.rmdir.
  rewrite (namei_single w' Hs), lastName_single.
  assert (Hsp : String.eqb name "" || String.eqb name "." || String.eqb name ".." = false).
  { destruct Hname as (H1 & H2 & H3 & _).
    destruct (String.eqb_spec name ""); [contradiction |].
    destruct (String.eqb_spec name "."); [contradiction |].
    destruct (String.eqb_spec name ".."); [contradiction | reflexivity]. }
  rewrite Hsp. apply orb_false_elim in Hsp as [[H1 H2]%orb_false_elim H3].
  rewrite ?H1, ?H2, ?H3. rewrite Hi, removelast_here, Hf, Hcwd, Hw. cbn [negb].
  destruct i as [p c | p]; [reflexivity |].
  rewrite (namei_single w' Hs), Hi, removelast_here, Hf, Hcwd, Hw. cbn [negb].
  rewrite (isEmptyDir_true w' Hnone). reflexivity.
Qed.

(** [os.Remove] of a directory that holds something. *)
Lemma Remove_single_not_empty w' p n i :
  sameFiles w w' → os.writable pc = true →
  files w' !! here = Some (Directory p) →
  files w' !! (here ++ [n]) = Some i →
  os2.Remove name w'
  = (Some (os2.mkPathError2 "remove" name os2.ENOTEMPTY), w').
Proof.
  intros Hs Hw Hp Hi. pose proof Hs as (Hf & Hc & _).
  unfold os2.Remove, os2.unlink, os2.rmdir.
  rewrite (namei_single w' Hs), lastName_single.
  assert (Hsp : String.eqb name "" || String.eqb name "." || String.eqb name ".." = false).
  { destruct Hname as (H1 & H2 & H3 & _).
    destruct (String.eqb_spec name ""); [contradiction |].
    destruct (String.eqb_spec name "."); [contradiction |].
    destruct (String.eqb_spec name ".."); [contradiction | reflexivity]. }
  rewrite Hsp. apply orb_false_elim in Hsp as [[H1 H2]%orb_false_elim H3].
  rewrite ?H1, ?H2, ?H3. rewrite Hp, removelast_here, Hf, Hcwd, Hw. cbn [negb].
  rewrite (namei_single w' Hs), Hp, removelast_here, Hf, Hcwd, Hw. cbn [negb].
  rewrite (isEmptyDir_false w' n i Hi). reflexivity.
Qed.

(** [os.Create] of a name that is not there, and [os.Chmod] of one that is. *)
Lemma Create_single w' :
  sameFiles w w' → os.writable pc = true → files w !! here = None →
  os.Create name w'
  = (Ok (os.mkFile name here),
     mkWorld (<[here := RegFile (N.ldiff 0x1b6 (umask w)) (Bytes "")]> (files w))
             (cwd w) (umask w) (network w') (sys_creat name :: trace w')).
Proof.
  intros (Hf & Hc & Hu & _) Hw Hnone.
  rewrite (Create_new w' name pc Hname); rewrite ?Hf, ?Hc, ?Hu; try assumption.
  reflexivity.
Qed.

Lemma Chmod_single w' mode p c :
  cwd w' = cwd w → files w' !! cwd w = Some (Directory pc) →
  files w' !! here = Some (RegFile p c) →
  os2.Chmod name mode w' = (Ok tt, putInode here (RegFile (Perm mode) c) w').
Proof.
  intros Hc Hd Hi. unfold os2.Chmod.
  change name with (pathOf [name]) at 1.
  rewrite namei_pathOf by (discriminate || apply valid_single).
  rewrite walkElems_dirs; [| apply valid_single |].
  - rewrite Hc, Hi. reflexivity.
  - intros [| k] Hk; [| cbn in Hk; lia]. cbn [take].
    rewrite List.app_nil_r, Hc. eauto.
Qed.

End InWorkingDirectory.

(** ** Creating and deleting *)

(** X13: for a name that the working directory does not hold,
    [CreateDirectory] makes the directory with the permission bits of
    the mode less the umask, and [DeleteDirectory] of it then gives the
    files back as they were. *)
Theorem CreateDirectory_DeleteDirectory (w : World) (name : string) (mode pc : N) :
  validName name →
  files w !! cwd w = Some (Directory pc) →
  os.searchable pc = true → os.writable pc = true →
  (∀ rel, files w !! (cwd w ++ name :: rel) = None) →
  ∃ w1 w2,
    fs.CreateDirectory name mode w = (Ok tt, w1)
    ∧ files w1 !! (cwd w ++ [name]) = Some (Directory (N.ldiff (Perm mode) (umask w)))
    ∧ fs.DeleteDirectory name w1 = (None, w2)
    ∧ files w2 = files w.
Proof.
  intros Hname Hc Hx Hw Hfree.
  pose proof (Stat_single_missing w name pc Hname Hc Hx (Hfree [])) as Hstat.
  set (w0 := mkWorld _ _ _ _ _) in Hstat.
  pose proof (Mkdir_new name pc Hname w0 [] mode (List.Forall_nil _) Hc Hx Hw
                ltac:(intros j Hj; cbn in Hj; lia) (Hfree [])) as Hmk.
  change (pathOf [name]) with name in Hmk. cbn [w0 files cwd umask network trace] in Hmk.
  set (w1 := mkWorld _ _ _ _ _) in Hmk.
  assert (Hs1 : sameFiles w1 w1) by apply sameFiles_refl.
  assert (Hc1 : files w1 !! cwd w1 = Some (Directory pc)).
  { cbn [w1 files cwd]. rewrite lookup_insert_ne; [exact Hc |].
    intros Heq. apply (f_equal length) in Heq. rewrite length_app in Heq. cbn in Heq. lia. }
  assert (Hat : files w1 !! (cwd w1 ++ [name])
                = Some (Directory (N.ldiff (Perm mode) (umask w)))).
  { cbn [w1 files cwd]. apply lookup_insert_eq. }
  destruct (Stat_single_found w1 name pc Hname Hc1 Hx w1 _ Hs1 Hat)
    as (info & w2 & Hstat2 & Hs2).
  assert (Hrm : os2.Remove name w2 = (None, os2.removeInode (cwd w1 ++ [name]) w2)).
  { apply (Remove_single w1 name pc Hname Hc1 Hx w2 (Directory (N.ldiff (Perm mode) (umask w))));
      try assumption.
    - destruct Hs2 as (-> & _). exact Hat.
    - intros n. destruct Hs2 as (-> & _). cbn [w1 files cwd].
      rewrite lookup_insert_ne.
      + rewrite <- List.app_assoc. apply Hfree.
      + intros Heq. apply (f_equal length) in Heq. rewrite !length_app in Heq.
        cbn in Heq. lia. }
  exists w1, (os2.removeInode (cwd w1 ++ [name]) w2). split.
  { unfold fs.CreateDirectory, bind, try. rewrite Hstat. exact Hmk. }
  split; [exact Hat |]. split.
  { unfold fs.DeleteDirectory. rewrite Hstat2, Hrm. reflexivity. }
  cbn [os2.removeInode files]. destruct Hs2 as (-> & _). cbn [w1 files cwd].
  apply delete_insert_id, (Hfree []).
Qed.

(** X14: [DeleteDirectory] of a directory that holds something returns
    the error of [os.Remove], directory not empty, and removes
    nothing. *)
Theorem DeleteDirectory_not_empty
        (w : World) (name n : string) (pc p : N) (i : Inode) :
  validName name →
  files w !! cwd w = Some (Directory pc) →
  os.searchable pc = true → os.writable pc = true →
  files w !! (cwd w ++ [name]) = Some (Directory p) →
  files w !! (cwd w ++ [name; n]) = Some i →
  ∃ w',
    fs.DeleteDirectory name w
    = (Some (fs.RemoveError (os2.mkPathError2 "remove" name os2.ENOTEMPTY)), w')
    ∧ files w' = files w.
Proof.
  intros Hname Hc Hx Hw Hp Hi.
  destruct (Stat_single_found w name pc Hname Hc Hx w _ (sameFiles_refl w) Hp)
    as (info & w1 & Hstat & Hs1).
  exists w1. split; [| destruct Hs1 as (Hf & _); exact Hf].
  unfold fs.DeleteDirectory. rewrite Hstat.
  rewrite (Remove_single_not_empty w name pc Hname Hc Hx w1 p n i); try assumption.
  - reflexivity.
  - destruct Hs1 as (-> & _). exact Hp.
  - destruct Hs1 as (-> & _). rewrite <- List.app_assoc. exact Hi.
Qed.

(** X15: [DeleteDirectory] and [DeleteFile] do not look at the kind of
    what the path names: each of them removes a regular file, and each
    of them removes a directory that holds nothing. *)
Theorem Delete_any_kind (w : World) (name : string) (pc : N) (i : Inode) :
  validName name →
  files w !! cwd w = Some (Directory pc) →
  os.searchable pc = true → os.writable pc = true →
  files w !! (cwd w ++ [name]) = Some i →
  (∀ n, files w !! (cwd w ++ [name; n]) = None) →
  ∃ w',
    fs.DeleteDirectory name w = (None, w')
    ∧ fs.DeleteFile name w = (None, w')
    ∧ files w' = delete (cwd w ++ [name]) (files w).
Proof.
  intros Hname Hc Hx Hw Hi Hnone.
  destruct (Stat_single_found w name pc Hname Hc Hx w _ (sameFiles_refl w) Hi)
    as (info & w1 & Hstat & Hs1).
  assert (Hrm : os2.Remove name w1 = (None, os2.removeInode (cwd w ++ [name]) w1)).
  { apply (Remove_single w name pc Hname Hc Hx w1 i); try assumption.
    - destruct Hs1 as (-> & _). exact Hi.
    - intros n. destruct Hs1 as (-> & _). rewrite <- List.app_assoc. apply Hnone. }
  exists (os2.removeInode (cwd w ++ [name]) w1).
  unfold fs.DeleteDirectory, fs.DeleteFile. rewrite Hstat, Hrm.
  split; [reflexivity |]. split; [reflexivity |].
  cbn [os2.removeInode files]. destruct Hs1 as (-> & _). reflexivity.
Qed.

(** X16: for a name that the working directory does not hold,
    [CreateFile] makes an empty file with exactly the permission bits of
    the mode: the umask, which [CreateDirectory] takes off, plays no
    part. *)
Theorem CreateFile_mode (w : World) (name : string) (mode pc : N) :
  validName name →
  files w !! cwd w = Some (Directory pc) →
  os.searchable pc = true → os.writable pc = true →
  files w !! (cwd w ++ [name]) = None →
  ∃ w1,
    fs.CreateFile name mode w = (Ok tt, w1)
    ∧ files w1 = <[cwd w ++ [name] := RegFile (Perm mode) (Bytes "")]> (files w).
Proof.
  intros Hname Hc Hx Hw Hnone.
  pose proof (Stat_single_missing w name pc Hname Hc Hx Hnone) as Hstat.
  set (w0 := mkWorld _ _ _ _ _) in Hstat.
  assert (Hs0 : sameFiles w w0) by (repeat split).
  pose proof (Create_single w name pc Hname Hc Hx w0 Hs0 Hw Hnone) as Hcreate.
  set (w1 := mkWorld _ _ _ _ _) in Hcreate.
  assert (Hch : os2.Chmod name mode w1
                = (Ok tt, putInode (cwd w ++ [name]) (RegFile (Perm mode) (Bytes "")) w1)).
  { eapply (Chmod_single w name pc Hname Hx); [reflexivity | |].
    - cbn [w1 files]. rewrite lookup_insert_ne; [exact Hc |].
      intros Heq. apply (f_equal length) in Heq. rewrite length_app in Heq.
      cbn in Heq. lia.
    - cbn [w1 files]. apply lookup_insert_eq. }
  eexists. split.
  { unfold fs.CreateFile. unfold bind at 1. unfold try. rewrite Hstat.
    rewrite (bind_Ok _ _ _ _ _ Hcreate). exact Hch. }
  cbn [putInode files w1]. apply insert_insert_eq.
Qed.

(** X17: for a name that the working directory does not hold,
    [WriteFile] makes a file with the data and exactly the permission
    bits of the mode, and [ReadFile] then returns the data when the mode
    lets the owner read; when it does not, [ReadFile] fails, permission
    denied. *)
Theorem WriteFile_ReadFile (w : World) (name : string) (mode pc : N) (data : content) :
  validName name →
  files w !! cwd w = Some (Directory pc) →
  os.searchable pc = true → os.writable pc = true →
  files w !! (cwd w ++ [name]) = None →
  ∃ w1,
    fs.WriteFile name mode data w = (Ok tt, w1)
    ∧ files w1 = <[cwd w ++ [name] := RegFile (Perm mode) data]> (files w)
    ∧ fst (fs.ReadFile name w1)
      = if os.readable (Perm mode) then Ok data
        else Err (PathError "open" name EACCES).
Proof.
  intros Hname Hc Hx Hw Hnone.
  pose proof (Stat_single_missing w name pc Hname Hc Hx Hnone) as Hstat.
  set (w0 := mkWorld _ _ _ _ _) in Hstat.
  assert (Hs0 : sameFiles w w0) by (repeat split).
  pose proof (Create_single w name pc Hname Hc Hx w0 Hs0 Hw Hnone) as Hcreate.
  set (w1 := mkWorld _ _ _ _ _) in Hcreate.
  set (f := os.mkFile name (cwd w ++ [name])) in Hcreate.
  assert (Hwrite := WriteAll_file f data w1 (N.ldiff 0x1b6 (umask w)) (Bytes "")).
  cbn [os.fileLoc f w1 files] in Hwrite.
  rewrite lookup_insert_eq in Hwrite. specialize (Hwrite eq_refl).
  fold w1 in Hwrite. set (w2 := mkWorld _ _ _ _ _) in Hwrite.
  assert (Hne : cwd w ≠ cwd w ++ [name]).
  { intros Heq. apply (f_equal length) in Heq. rewrite length_app in Heq.
    cbn in Heq. lia. }
  assert (Hch : os2.Chmod name mode w2
                = (Ok tt, putInode (cwd w ++ [name]) (RegFile (Perm mode) data) w2)).
  { eapply (Chmod_single w name pc Hname Hx); [reflexivity | |].
    - cbn [w2 w1 files]. rewrite !lookup_insert_ne by congruence. exact Hc.
    - cbn [w2 files]. apply lookup_insert_eq. }
  set (w3 := putInode _ _ w2) in Hch.
  assert (Hf3 : files w3 = <[cwd w ++ [name] := RegFile (Perm mode) data]> (files w)).
  { cbn [w3 putInode files w2 w1]. rewrite !insert_insert_eq. reflexivity. }
  exists w3. split.
  { unfold fs.WriteFile. unfold bind at 1. unfold try. rewrite Hstat.
    rewrite (bind_Ok _ _ _ _ _ Hcreate). rewrite (bind_Ok _ _ _ _ _ Hwrite).
    exact Hch. }
  split; [exact Hf3 |].
  assert (Hc3 : files w3 !! cwd w3 = Some (Directory pc)).
  { rewrite Hf3. change (cwd w3) with (cwd w).
    rewrite lookup_insert_ne; [exact Hc |].
    intros Heq. apply Hne. symmetry. exact Heq. }
  assert (Hat3 : files w3 !! (cwd w3 ++ [name]) = Some (RegFile (Perm mode) data)).
  { rewrite Hf3. change (cwd w3) with (cwd w). apply lookup_insert_eq. }
  destruct (Stat_single_found w3 name pc Hname Hc3 Hx w3 _ (sameFiles_refl w3) Hat3)
    as (info & w4 & Hstat4 & Hs4).
  unfold fs.ReadFile. unfold bind at 1. unfold try. rewrite Hstat4.
  unfold ioutil.ReadFile. unfold bind at 1. unfold os.Open, bind. rewrite emit_run.
  set (w5 := mkWorld _ _ _ _ _).
  assert (Hs5 : sameFiles w3 w5).
  { destruct Hs4 as (?&?&?&?). repeat split; assumption. }
  rewrite (namei_single w3 name pc Hname Hc3 Hx w5 Hs5).
  destruct Hs5 as (Hf5 & _). rewrite Hf5, Hat3.
  destruct (os.readable (Perm mode)); [| reflexivity].
  unfold os.ReadAll, bind. rewrite emit_run. cbn [files os.fileLoc].
  rewrite Hf5, Hat3. reflexivity.
Qed.

(** X18: [CreateDirectory], [CreateFile] and [WriteFile] do not touch a
    path that [os.Stat] finds: each returns its error, already exists,
    and the files are as they were. *)
Theorem create_refuses_existing
        (path : string) (mode : N) (data : content) (w w1 : World) (info : FileInfo) :
  os.Stat path w = (Ok info, w1) →
  fs.CreateDirectory path mode w
  = (Err (errorString ("Directory '" +:+ path +:+ "' already exists")), w1)
  ∧ fs.CreateFile path mode w
    = (Err (errorString ("File '" +:+ path +:+ "' already exists")), w1)
  ∧ fs.WriteFile path mode data w
    = (Err (errorString ("File '" +:+ path +:+ "' already exists")), w1)
  ∧ files w1 = files w.
Proof.
  intros Hstat. unfold fs.CreateDirectory, fs.CreateFile, fs.WriteFile, bind, try.
  rewrite Hstat. repeat split.
  destruct (Stat_sameFiles _ _ _ _ Hstat) as (Hf & _). exact Hf.
Qed.

(** *** The scenario of [deskWorld] *)

Lemma validName_new : validName "new".
Proof. repeat split; discriminate. Qed.

Lemma validName_note : validName "note".
Proof. repeat split; discriminate. Qed.

Lemma fresh_desk rel : files deskWorld !! (cwd deskWorld ++ "new" :: rel) = None.
Proof.
  destruct (files deskWorld !! (cwd deskWorld ++ "new" :: rel)) as [i |] eqn:Hi;
    [| reflexivity].
  exfalso. apply elem_of_map_to_list in Hi. vm_compute in Hi.
  repeat (apply elem_of_cons in Hi as [Hi | Hi]; [discriminate Hi |]).
  apply elem_of_nil in Hi. exact Hi.
Qed.

Lemma note_desk n : files deskWorld !! (cwd deskWorld ++ ["note"; n]) = None.
Proof.
  destruct (files deskWorld !! (cwd deskWorld ++ ["note"; n])) as [i |] eqn:Hi;
    [| reflexivity].
  exfalso. apply elem_of_map_to_list in Hi. vm_compute in Hi.
  repeat (apply elem_of_cons in Hi as [Hi | Hi]; [discriminate Hi |]).
  apply elem_of_nil in Hi. exact Hi.
Qed.

Lemma CreateDirectory_DeleteDirectory_witness :
  (validName "new"
   ∧ files deskWorld !! cwd deskWorld = Some (Directory 0x1ed)
   ∧ os.searchable 0x1ed = true ∧ os.writable 0x1ed = true
   ∧ ∀ rel, files deskWorld !! (cwd deskWorld ++ "new" :: rel) = None)
  ∧ ∃ w1 w2,
      fs.CreateDirectory "new" 0x1ff deskWorld = (Ok tt, w1)
      ∧ files w1 !! (cwd deskWorld ++ ["new"])
        = Some (Directory (N.ldiff (Perm 0x1ff) (umask deskWorld)))
      ∧ fs.DeleteDirectory "new" w1 = (None, w2)
      ∧ files w2 = files deskWorld.
Proof.
  assert (H1 : files deskWorld !! cwd deskWorld = Some (Directory 0x1ed))
    by (vm_compute; reflexivity).
  assert (H2 : os.searchable 0x1ed = true) by reflexivity.
  assert (H3 : os.writable 0x1ed = true) by reflexivity.
  split; [exact (conj validName_new (conj H1 (conj H2 (conj H3 fresh_desk)))) |].
  exact (CreateDirectory_DeleteDirectory deskWorld "new" 0x1ff 0x1ed
           validName_new H1 H2 H3 fresh_desk).
Defined.

Lemma DeleteDirectory_not_empty_witness :
  (validName "a"
   ∧ files deskWorld !! cwd deskWorld = Some (Directory 0x1ed)
   ∧ os.searchable 0x1ed = true ∧ os.writable 0x1ed = true
   ∧ files deskWorld !! (cwd deskWorld ++ ["a"]) = Some (Directory 0x1ed)
   ∧ files deskWorld !! (cwd deskWorld ++ ["a"; "b.txt"])
     = Some (RegFile 0x1a4 (Bytes "hello")))
  ∧ ∃ w',
      fs.DeleteDirectory "a" deskWorld
      = (Some (fs.RemoveError (os2.mkPathError2 "remove" "a" os2.ENOTEMPTY)), w')
      ∧ files w' = files deskWorld.
Proof.
  assert (H1 : files deskWorld !! cwd deskWorld = Some (Directory 0x1ed))
    by (vm_compute; reflexivity).
  assert (H2 : os.searchable 0x1ed = true) by reflexivity.
  assert (H3 : os.writable 0x1ed = true) by reflexivity.
  assert (H4 : files deskWorld !! (cwd deskWorld ++ ["a"]) = Some (Directory 0x1ed))
    by (vm_compute; reflexivity).
  assert (H5 : files deskWorld !! (cwd deskWorld ++ ["a"; "b.txt"])
               = Some (RegFile 0x1a4 (Bytes "hello"))) by (vm_compute; reflexivity).
  split; [exact (conj validName_a (conj H1 (conj H2 (conj H3 (conj H4 H5))))) |].
  exact (DeleteDirectory_not_empty deskWorld "a" "b.txt" 0x1ed 0x1ed _
           validName_a H1 H2 H3 H4 H5).
Defined.

Lemma Delete_any_kind_witness :
  (validName "note"
   ∧ files deskWorld !! cwd deskWorld = Some (Directory 0x1ed)
   ∧ os.searchable 0x1ed = true ∧ os.writable 0x1ed = true
   ∧ files deskWorld !! (cwd deskWorld ++ ["note"])
     = Some (RegFile 0x1a4 (Bytes "remember"))
   ∧ ∀ n, files deskWorld !! (cwd deskWorld ++ ["note"; n]) = None)
  ∧ ∃ w',
      fs.DeleteDirectory "note" deskWorld = (None, w')
      ∧ fs.DeleteFile "note" deskWorld = (None, w')
      ∧ files w' = delete (cwd deskWorld ++ ["note"]) (files deskWorld).
Proof.
  assert (H1 : files deskWorld !! cwd deskWorld = Some (Directory 0x1ed))
    by (vm_compute; reflexivity).
  assert (H2 : os.searchable 0x1ed = true) by reflexivity.
  assert (H3 : os.writable 0x1ed = true) by reflexivity.
  assert (H4 : files deskWorld !! (cwd deskWorld ++ ["note"])
               = Some (RegFile 0x1a4 (Bytes "remember"))) by (vm_compute; reflexivity).
  split; [exact (conj validName_note (conj H1 (conj H2 (conj H3 (conj H4 note_desk))))) |].
  exact (Delete_any_kind deskWorld "note" 0x1ed _ validName_note H1 H2 H3 H4 note_desk).
Defined.

Lemma CreateFile_mode_witness :
  (validName "new"
   ∧ files deskWorld !! cwd deskWorld = Some (Directory 0x1ed)
   ∧ os.searchable 0x1ed = true ∧ os.writable 0x1ed = true
   ∧ files deskWorld !! (cwd deskWorld ++ ["new"]) = None)
  ∧ ∃ w1,
      fs.CreateFile "new" 0x1ff deskWorld = (Ok tt, w1)
      ∧ files w1
        = <[cwd deskWorld ++ ["new"] := RegFile (Perm 0x1ff) (Bytes "")]> (files deskWorld).
Proof.
  assert (H1 : files deskWorld !! cwd deskWorld = Some (Directory 0x1ed))
    by (vm_compute; reflexivity).
  assert (H2 : os.searchable 0x1ed = true) by reflexivity.
  assert (H3 : os.writable 0x1ed = true) by reflexivity.
  assert (H4 : files deskWorld !! (cwd deskWorld ++ ["new"]) = None)
    by (vm_compute; reflexivity).
  split; [exact (conj validName_new (conj H1 (conj H2 (conj H3 H4)))) |].
  exact (CreateFile_mode deskWorld "new" 0x1ff 0x1ed validName_new H1 H2 H3 H4).
Defined.

Lemma WriteFile_ReadFile_witness :
  (validName "new"
   ∧ files deskWorld !! cwd deskWorld = Some (Directory 0x1ed)
   ∧ os.searchable 0x1ed = true ∧ os.writable 0x1ed = true
   ∧ files deskWorld !! (cwd deskWorld ++ ["new"]) = None)
  ∧ ∃ w1,
      fs.WriteFile "new" 0x80 (Bytes "text") deskWorld = (Ok tt, w1)
      ∧ files w1
        = <[cwd deskWorld ++ ["new"] := RegFile (Perm 0x80) (Bytes "text")]>
            (files deskWorld)
      ∧ fst (fs.ReadFile "new" w1)
        = if os.readable (Perm 0x80) then Ok (Bytes "text")
          else Err (PathError "open" "new" EACCES).
Proof.
  assert (H1 : files deskWorld !! cwd deskWorld = Some (Directory 0x1ed))
    by (vm_compute; reflexivity).
  assert (H2 : os.searchable 0x1ed = true) by reflexivity.
  assert (H3 : os.writable 0x1ed = true) by reflexivity.
  assert (H4 : files deskWorld !! (cwd deskWorld ++ ["new"]) = None)
    by (vm_compute; reflexivity).
  split; [exact (conj validName_new (conj H1 (conj H2 (conj H3 H4)))) |].
  exact (WriteFile_ReadFile deskWorld "new" 0x80 0x1ed (Bytes "text")
           validName_new H1 H2 H3 H4).
Defined.

Lemma create_refuses_existing_witness :
  let info := mkFileInfo "a" (N.lor ModeDir 0x1ed) in
  let w1 := snd (os.Stat "a" deskWorld) in
  os.Stat "a" deskWorld = (Ok info, w1)
  ∧ fs.CreateDirectory "a" 0x1ed deskWorld
    = (Err (errorString ("Directory '" +:+ "a" +:+ "' already exists")), w1)
  ∧ fs.CreateFile "a" 0x1ed deskWorld
    = (Err (errorString ("File '" +:+ "a" +:+ "' already exists")), w1)
  ∧ fs.WriteFile "a" 0x1ed (Bytes "x") deskWorld
    = (Err (errorString ("File '" +:+ "a" +:+ "' already exists")), w1)
  ∧ files w1 = files deskWorld.
Proof.
  intros info w1.
  assert (H : os.Stat "a" deskWorld = (Ok info, w1)) by (vm_compute; reflexivity).
  split; [exact H |].
  exact (create_refuses_existing "a" 0x1ed (Bytes "x") deskWorld w1 info H).
Defined.

(** ** A path that [os.Stat] does not find *)

(** X19: whatever makes [os.Stat] fail, [ReadFile], [DeleteFile] and
    [DeleteDirectory] say that the path does not exist, and do nothing:
    the cause is not reported, and [os.Remove] is not tried. *)
Theorem stat_failure_reported_as_missing
        (path : string) (w w1 : World) (e : error) :
  os.Stat path w = (Err e, w1) →
  fs.ReadFile path w
  = (Err (errorString ("File '" +:+ path +:+ "' doesn't exist")), w1)
  ∧ fs.DeleteFile path w
    = (Some (fs.Errorf ("File '" +:+ path +:+ "' doesn't exist")), w1)
  ∧ fs.DeleteDirectory path w
    = (Some (fs.Errorf ("Directory '" +:+ path +:+ "' doesn't exist")), w1)
  ∧ files w1 = files w.
Proof.
  intros Hstat. unfold fs.ReadFile, fs.DeleteFile, fs.DeleteDirectory, bind, try.
  rewrite Hstat. repeat split.
  destruct (Stat_sameFiles _ _ _ _ Hstat) as (Hf & _). exact Hf.
Qed.

Lemma stat_failure_reported_as_missing_witness :
  let e := PathError "stat" "note/x" ENOTDIR in
  let w1 := snd (os.Stat "note/x" deskWorld) in
  os.Stat "note/x" deskWorld = (Err e, w1)
  ∧ fs.ReadFile "note/x" deskWorld
    = (Err (errorString ("File '" +:+ "note/x" +:+ "' doesn't exist")), w1)
  ∧ fs.DeleteFile "note/x" deskWorld
    = (Some (fs.Errorf ("File '" +:+ "note/x" +:+ "' doesn't exist")), w1)
  ∧ fs.DeleteDirectory "note/x" deskWorld
    = (Some (fs.Errorf ("Directory '" +:+ "note/x" +:+ "' doesn't exist")), w1)
  ∧ files w1 = files deskWorld.
Proof.
  intros e w1.
  assert (H : os.Stat "note/x" deskWorld = (Err e, w1)) by (vm_compute; reflexivity).
  split; [exact H |].
  exact (stat_failure_reported_as_missing "note/x" deskWorld w1 e H).
Defined.
